(** * Script-to-flowchart: ingestion, retry policy, layout adapter,
      rendering helpers, style state, drag and export geometry.

    Shallow embedding of [services/geminiService.ts], [App.tsx] and
    [components/FlowChart.tsx].

    Conventions.
    - A JavaScript number is an exact rational ([Q]); rounding of IEEE
      doubles is not modelled.  Integers kept by the DOM (canvas sizes,
      [parseInt] results, milliseconds) are [Z].
    - Parsed JSON is the inductive [json]; a property read that yields
      [undefined] is [None].
    - Objects that the code shares by reference live in an explicit store
      ([gmap loc _]); objects used as dictionaries are [gmap]s.
    - Host built-ins whose result the code consumes but does not define
      ([JSON.parse], [Number.prototype.toString], [String.prototype.trim],
      the engine's wording of one [TypeError]) are fields of the class
      [Host]. *)

From Stdlib Require Import String Ascii List ZArith QArith Qminmax Lia Lqa Bool.
From stdpp Require Import gmap strings.
Import ListNotations.

Local Open Scope string_scope.

(* ===================================================================== *)
(** ** JavaScript values that cross the provider boundary               *)
(* ===================================================================== *)

Module JS.

#[local] Set Warnings "-register-all".

Inductive json : Type :=
| JNull
| JBool (b : bool)
| JNum (q : Q)
| JStr (s : string)
| JArr (items : list json)
| JObj (fields : list (string * json)).

(** Own-property lookup in a parsed object. *)
Fixpoint assoc (k : string) (fields : list (string * json)) : option json :=
  match fields with
  | [] => None
  | (k', v) :: rest => if String.eqb k k' then Some v else assoc k rest
  end.

(** [v.k] for the property names this program reads ([flowchart],
    [functions], [nodes], [edges], [id], [label], [type], [source],
    [target], [error], [message]): none of them is a built-in property of
    an array or a primitive, so only objects can answer.  Reading a
    property of [null] is guarded at every use site but one (see
    [validate]). *)
Definition get (v : json) (k : string) : option json :=
  match v with
  | JObj fields => assoc k fields
  | _ => None
  end.

(** Truthiness of a value. *)
Definition truthy (v : json) : bool :=
  match v with
  | JNull => false
  | JBool b => b
  | JNum q => negb (Qeq_bool q 0)
  | JStr s => negb (String.eqb s "")
  | JArr _ | JObj _ => true
  end.

(** [typeof v === 'string'], [typeof v === 'object'], [Array.isArray v]. *)
Definition is_string (o : option json) : bool :=
  match o with Some (JStr _) => true | _ => false end.

Definition typeof_object (o : option json) : bool :=
  match o with Some JNull | Some (JArr _) | Some (JObj _) => true | _ => false end.

Definition isArray (o : option json) : bool :=
  match o with Some (JArr _) => true | _ => false end.

(** [hay.includes(needle)]. *)
Fixpoint starts_with (needle hay : string) : bool :=
  match needle, hay with
  | EmptyString, _ => true
  | String a n', String b h' => Ascii.eqb a b && starts_with n' h'
  | String _ _, EmptyString => false
  end.

Fixpoint includes (hay needle : string) : bool :=
  starts_with needle hay ||
  match hay with
  | EmptyString => false
  | String _ h' => includes h' needle
  end.

(** [items.join(sep)] on strings. *)
Fixpoint join (sep : string) (items : list string) : string :=
  match items with
  | [] => ""
  | [s] => s
  | s :: rest => s ++ sep ++ join sep rest
  end.

(** What the code takes from the host. *)
Class Host := {
  (** [JSON.parse]: [None] when it throws. *)
  JSON_parse : string -> option json;
  (** [String(n)] for a number. *)
  Number_toString : Q -> string;
  (** [s.trim()]. *)
  String_trim : string -> string;
  (** Message of the [TypeError] raised by destructuring [null]. *)
  null_destructure_message : string
}.

(** [String(v)], as used by a template literal. *)
Fixpoint toString `{Host} (v : json) : string :=
  match v with
  | JNull => "null"
  | JBool true => "true"
  | JBool false => "false"
  | JNum q => Number_toString q
  | JStr s => s
  | JArr items =>
      join "," (map (fun i => match i with JNull => "" | _ => toString i end) items)
  | JObj _ => "[object Object]"
  end.

(** A thrown value: an [Error] with its message, or anything else. *)
Inductive thrown : Type :=
| ErrorObj (message : string)
| NonError.

End JS.

Import JS.

(* ===================================================================== *)
(** ** services/geminiService.ts                                         *)
(* ===================================================================== *)

Module GeminiService.

Section Service.
Context `{Host}.

Definition maxRetries : nat := 3.
Definition initialDelayMs : Z := 2000.

Definition nodeTypes : list string := ["start"; "process"; "decision"; "end"].

(** Body of the callback given to [flowchart.nodes.map]: the node's id, or
    the message of the [Error] it throws. *)
Definition checkNode (node : json) : string + string :=
  if negb (truthy node)
     || negb (is_string (get node "id"))
     || negb (is_string (get node "label"))
     || negb (is_string (get node "type"))
  then inl "Invalid node data: Each node must have a valid 'id', 'label', and 'type'."
  else
    match get node "id", get node "type" with
    | Some (JStr id), Some (JStr ty) =>
        if negb (existsb (String.eqb ty) nodeTypes)
        then inl ("Invalid node type: Node '" ++ id
                  ++ "' has an unsupported type '" ++ ty ++ "'.")
        else inr id
    | _, _ => inl "Invalid node data: Each node must have a valid 'id', 'label', and 'type'."
    end.

(** [flowchart.nodes.map(...)]: stops at the first node that throws. *)
Fixpoint mapNodes (nodes : list json) : string + list string :=
  match nodes with
  | [] => inr []
  | node :: rest =>
      match checkNode node with
      | inl msg => inl msg
      | inr id =>
          match mapNodes rest with
          | inl msg => inl msg
          | inr ids => inr (id :: ids)
          end
      end
  end.

(** Body of [for (const edge of flowchart.edges)]. *)
Definition checkEdge (nodeIds : gset string) (edge : json) : option string :=
  if negb (truthy edge)
     || negb (is_string (get edge "source"))
     || negb (is_string (get edge "target"))
  then Some "Invalid edge data: Each edge must have a 'source' and 'target'."
  else
    match get edge "source", get edge "target" with
    | Some (JStr source), Some (JStr target) =>
        if negb (bool_decide (source ∈ nodeIds))
        then Some ("Data integrity issue: Edge references a non-existent source node with ID '"
                   ++ source ++ "'.")
        else if negb (bool_decide (target ∈ nodeIds))
        then Some ("Data integrity issue: Edge references a non-existent target node with ID '"
                   ++ target ++ "'.")
        else None
    | _, _ => Some "Invalid edge data: Each edge must have a 'source' and 'target'."
    end.

Fixpoint checkEdges (nodeIds : gset string) (edges : list json) : option string :=
  match edges with
  | [] => None
  | edge :: rest =>
      match checkEdge nodeIds edge with
      | Some msg => Some msg
      | None => checkEdges nodeIds rest
      end
  end.

(** Lines 101-133: the "comprehensive validation" of [parsedData].  The
    result is the value returned to the caller or the [Error] thrown. *)
Definition validate (parsedData : json) : thrown + json :=
  match parsedData with
  | JNull => inl (ErrorObj null_destructure_message)
  | _ =>
      let flowchart := get parsedData "flowchart" in
      let functions := get parsedData "functions" in
      match flowchart with
      | Some fc =>
          if negb (truthy fc)
             || negb (typeof_object flowchart)
             || negb (isArray (get fc "nodes"))
             || negb (isArray (get fc "edges"))
             || negb (isArray functions)
          then inl (ErrorObj "Invalid data structure: The AI response is missing key components or has incorrect types.")
          else
            match get fc "nodes", get fc "edges" with
            | Some (JArr nodes), Some (JArr edges) =>
                match mapNodes nodes with
                | inl msg => inl (ErrorObj msg)
                | inr ids =>
                    match checkEdges (list_to_set ids) edges with
                    | Some msg => inl (ErrorObj msg)
                    | None => inr parsedData
                    end
                end
            | _, _ => inl (ErrorObj "Invalid data structure: The AI response is missing key components or has incorrect types.")
            end
      | None => inl (ErrorObj "Invalid data structure: The AI response is missing key components or has incorrect types.")
      end
  end.

(** What one pass through lines 89-99 yields: either something is thrown
    (the provider call rejects, [response.text.trim()] or [JSON.parse]
    throws) or [parsedData] is obtained. *)
Inductive attempt_outcome : Type :=
| Rejected (e : thrown)
| Parsed (parsedData : json).

(** The [try] block. *)
Definition tryBlock (o : attempt_outcome) : thrown + json :=
  match o with
  | Rejected e => inl e
  | Parsed parsedData => validate parsedData
  end.

(** [error instanceof Error && error.message.includes('429')]. *)
Definition isRateLimitError (e : thrown) : bool :=
  match e with
  | ErrorObj message => includes message "429"
  | NonError => false
  end.

(** [s.match(/({.*})/s)]: the capture runs from the first opening brace to
    the last closing brace after it. *)
Fixpoint from_first_brace (s : string) : option string :=
  match s with
  | EmptyString => None
  | String c rest =>
      if Ascii.eqb c "{"%char then Some s else from_first_brace rest
  end.

(** Longest prefix of [s] that ends with a closing brace. *)
Fixpoint upto_last_brace (s : string) : option string :=
  match s with
  | EmptyString => None
  | String c rest =>
      match upto_last_brace rest with
      | Some r => Some (String c r)
      | None => if Ascii.eqb c "}"%char then Some (String c EmptyString) else None
      end
  end.

Definition braceMatch (s : string) : option string :=
  match from_first_brace s with
  | Some t => upto_last_brace t
  | None => None
  end.

(** [errorJson?.error?.message]. *)
Definition nestedMessage (errorJson : json) : option json :=
  match get errorJson "error" with
  | Some JNull | None => None
  | Some e => get e "message"
  end.

(** Lines 147-162. *)
Definition finalErrorMessage (e : thrown) : string :=
  match e with
  | NonError => "An unknown error occurred while communicating with the AI."
  | ErrorObj message =>
      match braceMatch message with
      | Some captured =>
          if negb (String.eqb captured "") then
            match JSON_parse captured with
            | Some errorJson =>
                match nestedMessage errorJson with
                | Some m => if truthy m then toString m else message
                | None => message
                end
            | None => message
            end
          else message
      | None => message
      end
  end.

(** How a call of [generateFlowFromScript] settles. *)
Inductive settled : Type :=
| Resolved (value : json)
| Threw (message : string).

Record run : Type := {
  outcome : settled;
  (** arguments of the [setTimeout] waits, in order *)
  delays : list Z;
  (** number of provider calls made *)
  attempts : nat
}.

(** The [while (attempt < maxRetries)] loop.  [provider n] is what the
    [n]-th pass through the [try] block meets.  [None]: out of fuel. *)
Fixpoint retryLoop (provider : nat -> attempt_outcome)
  (fuel attempt : nat) (delayMs : Z) (slept : list Z) : option run :=
  if (attempt <? maxRetries)%nat then
    match fuel with
    | O => None
    | S fuel' =>
        match tryBlock (provider attempt) with
        | inr value =>
            Some {| outcome := Resolved value; delays := slept; attempts := S attempt |}
        | inl error =>
            let attempt := S attempt in
            if isRateLimitError error && (attempt <? maxRetries)%nat then
              retryLoop provider fuel' attempt (delayMs * 2) (slept ++ [delayMs])
            else
              Some {| outcome := Threw ("Failed to generate flowchart: " ++ finalErrorMessage error);
                      delays := slept; attempts := attempt |}
        end
    end
  else
    Some {| outcome := Threw "Failed to generate flowchart after multiple attempts. The API is busy, please try again later.";
            delays := slept; attempts := attempt |}.

Definition generateFlowFromScript (provider : string -> nat -> attempt_outcome)
  (script : string) : option run :=
  retryLoop (provider script) maxRetries 0 initialDelayMs [].

End Service.

End GeminiService.

(* ===================================================================== *)
(** ** App.tsx                                                           *)
(* ===================================================================== *)

Module App.

Import GeminiService.

Section App.
Context `{Host}.

(** The [useState] cells of [App]. *)
Record state : Type := {
  script : string;
  flowData : option json;          (* [null] is [None] *)
  generatedFunctions : json;
  isLoading : bool;
  error : option string
}.

Definition initial (defaultScript : string) : state :=
  {| script := defaultScript; flowData := None; generatedFunctions := JArr [];
     isLoading := false; error := None |}.



(** State once [handleAnalyzeScript] has run to completion.  [None]: the
    retry loop ran out of fuel (it never does, see
    [generateFlowFromScript_total]). *)
Definition handleAnalyzeScript (provider : string -> nat -> attempt_outcome)
  (st : state) : option state :=
  if String.eqb (String_trim (script st)) "" then Some st
  else
    (* setIsLoading(true); setError(null); setFlowData(null); setGeneratedFunctions([]) *)
    let st1 := {| script := script st; flowData := None; generatedFunctions := JArr [];
                  isLoading := true; error := None |} in
    match generateFlowFromScript provider (script st) with
    | None => None
    | Some r =>
        match outcome r with
        | Resolved result =>
            Some {| script := script st1;
                    flowData := get result "flowchart";
                    generatedFunctions :=
                      match get result "functions" with Some f => f | None => JNull end;
                    isLoading := false;
                    error := error st1 |}
        | Threw message =>
            Some {| script := script st1; flowData := flowData st1;
                    generatedFunctions := generatedFunctions st1;
                    isLoading := false;
                    error := Some message |}
        end
    end.

End App.

End App.

(* ===================================================================== *)
(** ** types.ts                                                          *)
(* ===================================================================== *)

Module Types.

(** [enum NodeType]; the constructors stand for the strings ['start'],
    ['process'], ['decision'], ['end']. *)
Inductive NodeType : Type := TStart | TProcess | TDecision | TEnd.

Definition type_key (t : NodeType) : string :=
  match t with
  | TStart => "start" | TProcess => "process"
  | TDecision => "decision" | TEnd => "end"
  end.

Record NodeData : Type := {
  id : string;
  label : string;
  type : NodeType;
  description : option string
}.

(** [EdgeData]; [edgeLabel] is the optional field [label]. *)
Record EdgeData : Type := {
  source : string;
  target : string;
  edgeLabel : option string
}.

Record FlowData : Type := {
  nodes : list NodeData;
  edges : list EdgeData
}.

End Types.

(* ===================================================================== *)
(** ** The graph object handed to the layout oracle                      *)
(* ===================================================================== *)

(** [new dagre.graphlib.Graph()] with no options: directed, not a
    multigraph, not compound.  The library is loaded from a CDN; the
    model follows its documented interface: [setNode] creates or updates
    the value of a node, [setEdge] creates the two end nodes when they are
    missing and creates or updates the value of the edge keyed by its
    (source, target) pair, [nodes()]/[edges()] enumerate what is stored.
    The enumeration order of a JavaScript object is not modelled: the
    stores are finite maps. *)
Module Graphlib.

Section Graph.
Variables N E : Type.

Record Graph : Type := {
  (** [_nodes]: id to node value; [None] is the [undefined] value of a
      node that [setEdge] had to create. *)
  nodeValues : gmap string (option N);
  (** [_edgeLabels]: edge key to edge value. *)
  edgeValues : gmap string E;
  (** [_edgeObjs]: edge key to the frozen [{v, w}] descriptor. *)
  edgeObjs : gmap string (string * string)
}.

Definition empty : Graph :=
  {| nodeValues := ∅; edgeValues := ∅; edgeObjs := ∅ |}.

Definition EDGE_KEY_DELIM : string := String (ascii_of_nat 1) EmptyString.
Definition DEFAULT_EDGE_NAME : string := String (ascii_of_nat 0) EmptyString.

(** Key of the edge (v, w) in a directed graph when no name is given. *)
Definition edgeArgsToId (v w : string) : string :=
  v ++ EDGE_KEY_DELIM ++ w ++ EDGE_KEY_DELIM ++ DEFAULT_EDGE_NAME.

(** [g.setNode(v, value)]. *)
Definition setNode (v : string) (value : N) (g : Graph) : Graph :=
  {| nodeValues := <[v := Some value]> (nodeValues g);
     edgeValues := edgeValues g;
     edgeObjs := edgeObjs g |}.

(** [g.setNode(v)]: keeps an existing node as it is. *)
Definition ensureNode (v : string) (m : gmap string (option N)) : gmap string (option N) :=
  match m !! v with
  | Some _ => m
  | None => <[v := None]> m
  end.

(** [g.setEdge(v, w, value)]. *)
Definition setEdge (v w : string) (value : E) (g : Graph) : Graph :=
  let e := edgeArgsToId v w in
  match edgeValues g !! e with
  | Some _ =>
      {| nodeValues := nodeValues g;
         edgeValues := <[e := value]> (edgeValues g);
         edgeObjs := edgeObjs g |}
  | None =>
      {| nodeValues := ensureNode w (ensureNode v (nodeValues g));
         edgeValues := <[e := value]> (edgeValues g);
         edgeObjs := <[e := (v, w)]> (edgeObjs g) |}
  end.

(** [g.nodes()] and [g.edges()], as sets. *)
Definition nodeIds (g : Graph) : gset string := dom (nodeValues g).
Definition edgeIds (g : Graph) : gset string := dom (edgeObjs g).

End Graph.

Arguments nodeValues {N E} _.
Arguments edgeValues {N E} _.
Arguments edgeObjs {N E} _.
Arguments empty {N E}.
Arguments setNode {N E} _ _ _.
Arguments setEdge {N E} _ _ _ _.
Arguments nodeIds {N E} _.
Arguments edgeIds {N E} _.

End Graphlib.

(* ===================================================================== *)
(** ** components/FlowChart.tsx                                          *)
(* ===================================================================== *)

Module FlowChart.

Import Graphlib.

Local Open Scope Q_scope.

Definition NODE_WIDTH : Q := 150.
Definition NODE_HEIGHT : Q := 60.

Record point : Type := { px : Q; py : Q }.

(** *** Layout adapter (lines 335-346) *)

(** The object given to [g.setNode]. *)
Record NodeInput : Type := {
  label : string;
  width : Q;
  height : Q;
  type : Types.NodeType;
  description : option string
}.

(** The same object once [dagre.layout] has written [x] and [y] into it. *)
Record LayoutNode : Type := {
  input : NodeInput;
  x : Q;
  y : Q
}.

(** The object given to [g.setEdge] is [{ label: edge.label }]; after
    [dagre.layout] it also has [points] and, when the oracle provides one,
    the label anchor [x], [y]. *)
Record LayoutEdge : Type := {
  edge_label : option string;
  points : list point;
  anchor : option point
}.

Abbreviation InputGraph := (Graph NodeInput (option string)).
Abbreviation LaidOutGraph := (Graph LayoutNode LayoutEdge).

(** What [dagre.layout] decides: the coordinates.  They are a parameter of
    the model; the adapter only relies on where they are written. *)
Class LayoutOracle := {
  node_center : InputGraph -> string -> point;
  edge_points : InputGraph -> string -> list point;
  edge_anchor : InputGraph -> string -> option point;
  graph_width : InputGraph -> Q;
  graph_height : InputGraph -> Q
}.

Definition nodeInput (node : Types.NodeData) : NodeInput :=
  {| label := Types.label node; width := NODE_WIDTH; height := NODE_HEIGHT;
     type := Types.type node; description := Types.description node |}.

(** [nodes.forEach(g.setNode ...)] then [edges.forEach(g.setEdge ...)]. *)
Definition addNodes (nodes : list Types.NodeData) (g : InputGraph) : InputGraph :=
  foldl (fun g node => setNode (Types.id node) (nodeInput node) g) g nodes.

Definition addEdges (edges : list Types.EdgeData) (g : InputGraph) : InputGraph :=
  foldl (fun g edge =>
           setEdge (Types.source edge) (Types.target edge) (Types.edgeLabel edge) g)
        g edges.

Definition buildGraph (data : Types.FlowData) : InputGraph :=
  addEdges (Types.edges data) (addNodes (Types.nodes data) empty).

(** Two invariants of the graph under construction: every stored edge
    value has a descriptor, and every descriptor names two stored nodes. *)
Definition keyed (g : InputGraph) : Prop :=
  dom (edgeValues g) = dom (edgeObjs g).

Definition endpointsStored (g : InputGraph) : Prop :=
  map_Forall (fun _ vw => is_Some (nodeValues g !! fst vw) /\
                          is_Some (nodeValues g !! snd vw))
             (edgeObjs g).

(** [dagre.layout(g)]: every node that has a value receives its centre,
    every edge its routing points (and possibly an anchor); no node or
    edge is added or removed. *)
Definition layout `{LayoutOracle} (g : InputGraph) : LaidOutGraph :=
  {| nodeValues :=
       map_imap (M := gmap string)
                (fun v o =>
                   Some (fmap (fun n => {| input := n;
                                           x := px (node_center g v);
                                           y := py (node_center g v) |}) o))
                (nodeValues g);
     edgeValues :=
       map_imap (M := gmap string)
                (fun e l => Some {| edge_label := l;
                                    points := edge_points g e;
                                    anchor := edge_anchor g e |})
                (edgeValues g);
     edgeObjs := edgeObjs g |}.

Definition layoutAdapter `{LayoutOracle} (data : Types.FlowData) : LaidOutGraph :=
  layout (buildGraph data).

(** The key under which [g.setEdge] files an edge of the Diagram. *)
Definition edgeKey (edge : Types.EdgeData) : string :=
  edgeArgsToId (Types.source edge) (Types.target edge).

Definition endpoints (edge : Types.EdgeData) : string * string :=
  (Types.source edge, Types.target edge).

(** The LayoutNodes are the entries of [g.nodes()], the LayoutEdges those
    of [g.edges()]. *)
Definition layoutNodeCount (g : LaidOutGraph) : nat := size (nodeValues g).
Definition layoutEdgeCount (g : LaidOutGraph) : nat := size (edgeObjs g).

(** The id contains no occurrence of the key delimiter U+0001. *)
Fixpoint delimiterFree (s : string) : bool :=
  match s with
  | EmptyString => true
  | String c rest => negb (Ascii.eqb c (ascii_of_nat 1)) && delimiterFree rest
  end.

(** The data-model invariants of a Diagram. *)
Definition validDiagram (data : Types.FlowData) : Prop :=
  NoDup (map Types.id (Types.nodes data)) /\
  Forall (fun e => In (Types.source e) (map Types.id (Types.nodes data)) /\
                   In (Types.target e) (map Types.id (Types.nodes data)))
         (Types.edges data).

(** *** What is painted (lines 385-484) *)

(** A node group: its datum's value in the graph and its [transform]. *)
Record NodeView : Type := {
  nodeData : LayoutNode;
  nodeTranslate : point
}.

(** An edge: the descriptor [{v, w}] bound to its path, its value in the
    graph, the points its path was generated from (the [d] attribute is
    [lineGenerator] of them) and, when a label element exists, the
    argument of that element's [translate(...)] ([None] inside: the
    coordinates were [undefined]). *)
Record EdgeView : Type := {
  v : string;
  w : string;
  edgeData : LayoutEdge;
  pathPoints : list point;
  labelTranslate : option (option point)
}.

Record Canvas : Type := {
  nodeViews : gmap string NodeView;
  edgeViews : gmap string EdgeView
}.

(** Truthiness of an optional string. *)
Definition truthy_label (l : option string) : bool :=
  match l with
  | Some s => negb (String.eqb s "")
  | None => false
  end.

Definition paintEdge (g : LaidOutGraph) (e : string) (vw : string * string) : option EdgeView :=
  match edgeValues g !! e with
  | Some d =>
      Some {| v := fst vw; w := snd vw; edgeData := d;
              pathPoints := points d;
              labelTranslate :=
                if truthy_label (edge_label d) then Some (anchor d) else None |}
  | None => None
  end.

Definition paintNode (n : LayoutNode) : NodeView :=
  {| nodeData := n; nodeTranslate := {| px := x n; py := y n |} |}.

(** Painting throws (a property of [undefined] is read) when a node of the
    graph has no value; [None] stands for that. *)
Definition paint (g : LaidOutGraph) : option Canvas :=
  if bool_decide (map_Forall (fun _ o => is_Some o) (nodeValues g)) then
    Some {| nodeViews := omap (fmap paintNode) (nodeValues g);
            edgeViews := map_imap (M := gmap string) (paintEdge g) (edgeObjs g) |}
  else None.

(** *** Drag (lines 486-528) *)

Definition incident (nodeId : string) (e : EdgeView) : bool :=
  String.eqb (v e) nodeId || String.eqb (w e) nodeId.

Definition center (views : gmap string NodeView) (id : string) : option point :=
  (fun n => {| px := x (nodeData n); py := y (nodeData n) |}) <$> views !! id.

Definition midpoint (s t : point) : point :=
  {| px := (px s + px t) / 2; py := (py s + py t) / 2 |}.

Definition moveNode (n : NodeView) (ex ey : Q) : NodeView :=
  {| nodeData := {| input := input (nodeData n); x := ex; y := ey |};
     nodeTranslate := {| px := ex; py := ey |} |}.

(** Both callbacks of the [drag] event applied to one edge: its path is
    regenerated from the two centres; its label, if it has an element, is
    re-anchored. *)
Definition redrawEdge (views : gmap string NodeView) (nodeId : string)
  (e : EdgeView) : EdgeView :=
  if incident nodeId e then
    match center views (v e), center views (w e) with
    | Some s, Some t =>
        {| v := v e; w := w e;
           edgeData :=
             match labelTranslate e with
             | Some _ => {| edge_label := edge_label (edgeData e);
                            points := points (edgeData e);
                            anchor := Some (midpoint s t) |}
             | None => edgeData e
             end;
           pathPoints := [s; t];
           labelTranslate :=
             match labelTranslate e with
             | Some _ => Some (Some (midpoint s t))
             | None => None
             end |}
    | _, _ => e
    end
  else e.

Definition endpointsPresent (views : gmap string NodeView) (nodeId : string)
  (e : EdgeView) : bool :=
  negb (incident nodeId e)
  || (bool_decide (is_Some (views !! v e)) && bool_decide (is_Some (views !! w e))).

(** The [drag] event on the group of [nodeId] with pointer position
    [(ex, ey)].  [None]: the handler throws because [g.node] returned
    [undefined]. *)
Definition drag (c : Canvas) (nodeId : string) (ex ey : Q) : option Canvas :=
  match nodeViews c !! nodeId with
  | None => None
  | Some n =>
      let views := <[nodeId := moveNode n ex ey]> (nodeViews c) in
      if bool_decide (map_Forall (fun _ e => endpointsPresent views nodeId e = true)
                                 (edgeViews c))
      then Some {| nodeViews := views;
                   edgeViews := redrawEdge views nodeId <$> edgeViews c |}
      else None
  end.

(** Every edge that is drawn joins two nodes that are drawn. *)
Definition wellFormed (c : Canvas) : Prop :=
  map_Forall (fun _ e => is_Some (nodeViews c !! v e) /\ is_Some (nodeViews c !! w e))
             (edgeViews c).

(** *** Word wrap (lines 443-470) *)

(** A DOM string: UTF-16 code units. *)
Abbreviation ustring := (list N).

(** The class [\s] of a regular expression. *)
Definition is_ws (c : N) : bool :=
  ((c =? 9) || (c =? 10) || (c =? 11) || (c =? 12) || (c =? 13) || (c =? 32)
   || (c =? 160) || (c =? 5760) || ((8192 <=? c) && (c <=? 8202))
   || (c =? 8232) || (c =? 8233) || (c =? 8239) || (c =? 8287)
   || (c =? 12288) || (c =? 65279))%N.

(** [s.split(/\s+/)]: [cur] is the piece being read (reversed), [in_ws]
    tells that the previous unit was white space. *)
Fixpoint split_from (cur : ustring) (in_ws : bool) (s : ustring) : list ustring :=
  match s with
  | [] => [rev cur]
  | c :: rest =>
      if is_ws c then
        if in_ws then split_from cur true rest
        else rev cur :: split_from [] true rest
      else split_from (c :: cur) false rest
  end.

Definition split_ws (s : ustring) : list ustring := split_from [] false s.

(** [line.join(" ")]. *)
Fixpoint join_space (line : list ustring) : ustring :=
  match line with
  | [] => []
  | [word] => word
  | word :: rest => (word ++ 32%N :: join_space rest)%list
  end.

Definition is_empty (s : ustring) : bool :=
  match s with [] => true | _ => false end.

(** [a > b] on numbers. *)
Definition Qgtb (a b : Q) : bool := negb (Qle_bool a b).

Section Wrap.
(** [getComputedTextLength()] of a tspan holding the given text, at the
    font size of the node. *)
Variable getComputedTextLength : ustring -> Q.
Variable width : Q.

(** The [while (word = words.pop())] loop.  [words] is the array in its
    original order (the code reverses it and pops from the end); [line]
    is the array [line]; [finished] lists, in document order, the [line]
    arrays of the tspans already left behind.  The result lists the
    [line] array of every tspan; the text of a tspan is [join_space] of
    its array. *)
Fixpoint wrapLoop (words : list ustring) (line : list ustring)
  (finished : list (list ustring)) : list (list ustring) :=
  match words with
  | [] => (finished ++ [line])%list
  | word :: rest =>
      if is_empty word then (finished ++ [line])%list
      else
        let pushed := (line ++ [word])%list in
        if Qgtb (getComputedTextLength (join_space pushed)) width
           && (1 <? length pushed)%nat
        then wrapLoop rest [word] (finished ++ [line])%list
        else wrapLoop rest pushed finished
  end.

Definition wrapLines (text : ustring) : list (list ustring) :=
  wrapLoop (split_ws text) [] [].

(** Text content of the tspans of the label, top to bottom. *)
Definition wrapText (text : ustring) : list ustring :=
  map join_space (wrapLines text).

End Wrap.

(** The white-space delimited words of a label. *)
Definition words_of (text : ustring) : list ustring :=
  filter (fun word => negb (is_empty word)) (split_ws text).

(** Code units of an ASCII literal. *)
Definition units (s : string) : ustring :=
  map N_of_ascii (list_ascii_of_string s).

(** The words the loop gets to see: those before the first empty piece. *)
Fixpoint leadingWords (words : list ustring) : list ustring :=
  match words with
  | [] => []
  | word :: rest => if is_empty word then [] else word :: leadingWords rest
  end.

(** A list of pieces in which only the last one may be empty. *)
Inductive tidy : list ustring -> Prop :=
| tidy_last (piece : ustring) : tidy [piece]
| tidy_cons (piece : ustring) (rest : list ustring) :
    is_empty piece = false -> tidy rest -> tidy (piece :: rest).

(** *** Style state (lines 31-36, 149, 154-162, 636) *)

(** A style field holds a string or a number; the numbers that reach it
    are results of [parseInt]: an integer or [NaN]. *)
Inductive value : Type :=
| VStr (s : string)
| VNum (n : Z)
| VNaN.

Abbreviation loc := positive.

(** Objects are shared by reference: a [NodeStyles] object maps type names
    to references of [NodeStyle] objects. *)
Inductive object : Type :=
| StyleObj (fields : gmap string value)
| StylesObj (entries : gmap string loc).

Definition mkStyle (color1 color2 stroke textColor : string) (fontSize : Z)
  : gmap string value :=
  <["color1" := VStr color1]> (<["color2" := VStr color2]> (<["stroke" := VStr stroke]>
    (<["textColor" := VStr textColor]> (<["fontSize" := VNum fontSize]> ∅)))).

(** The module-level constant [defaultNodeStyles] and the objects it
    refers to. *)
Definition defaultNodeStyles : loc := 1%positive.

Definition moduleHeap : gmap loc object :=
  <[1%positive := StylesObj (<["start" := 2%positive]> (<["end" := 3%positive]>
      (<["decision" := 4%positive]> (<["process" := 5%positive]> ∅))))]>
  (<[2%positive := StyleObj (mkStyle "#a3e635" "#16a34a" "#15803d" "#ffffff" 14)]>
  (<[3%positive := StyleObj (mkStyle "#f87171" "#e11d48" "#be123c" "#ffffff" 14)]>
  (<[4%positive := StyleObj (mkStyle "#fbbf24" "#f97316" "#ea580c" "#ffffff" 14)]>
  (<[5%positive := StyleObj (mkStyle "#38bdf8" "#2563eb" "#1d4ed8" "#ffffff" 14)]> ∅)))).

(** The heap and the [customNodeStyles] state cell. *)
Record StyleState : Type := {
  heap : gmap loc object;
  customNodeStyles : loc
}.

(** [useState<NodeStyles>(defaultNodeStyles)]. *)
Definition initialStyles : StyleState :=
  {| heap := moduleHeap; customNodeStyles := defaultNodeStyles |}.

Definition entriesAt (h : gmap loc object) (l : loc) : gmap string loc :=
  match h !! l with
  | Some (StylesObj entries) => entries
  | _ => ∅
  end.

Definition fieldsAt (h : gmap loc object) (l : loc) : gmap string value :=
  match h !! l with
  | Some (StyleObj fields) => fields
  | _ => ∅
  end.

(** [handleStyleChange]: two object literals are allocated; spreading
    [undefined] contributes no field. *)
Definition handleStyleChange (nodeType property : string) (val : value)
  (st : StyleState) : StyleState :=
  let prevStyles := entriesAt (heap st) (customNodeStyles st) in
  let prevStyle :=
    match prevStyles !! nodeType with
    | Some l => fieldsAt (heap st) l
    | None => ∅
    end in
  let inner := fresh (dom (heap st)) in
  let heap1 := <[inner := StyleObj (<[property := val]> prevStyle)]> (heap st) in
  let outer := fresh (dom heap1) in
  {| heap := <[outer := StylesObj (<[nodeType := inner]> prevStyles)]> heap1;
     customNodeStyles := outer |}.

(** [onReset]: [setCustomNodeStyles(defaultNodeStyles)]. *)
Definition reset (st : StyleState) : StyleState :=
  {| heap := heap st; customNodeStyles := defaultNodeStyles |}.

(** Reading the StyleSet through its references. *)
Definition readStyles (st : StyleState) : gmap string (gmap string value) :=
  fieldsAt (heap st) <$> entriesAt (heap st) (customNodeStyles st).

(** [parseInt(s, 10)]. *)
Definition digit (c : ascii) : option Z :=
  let n := Z.of_nat (nat_of_ascii c) in
  if ((48 <=? n) && (n <=? 57))%Z then Some (n - 48)%Z else None.

Fixpoint digits (s : string) (acc : option Z) : option Z :=
  match s with
  | EmptyString => acc
  | String c rest =>
      match digit c with
      | Some d => digits rest (Some (10 * default 0%Z acc + d)%Z)
      | None => acc
      end
  end.

Definition is_ascii_space (c : ascii) : bool :=
  let n := nat_of_ascii c in
  ((9 <=? n) && (n <=? 13) || (n =? 32))%nat.

Fixpoint skip_space (s : string) : string :=
  match s with
  | String c rest => if is_ascii_space c then skip_space rest else s
  | EmptyString => s
  end.

Definition parseInt10 (s : string) : value :=
  let of_digits (sign : Z) (t : string) :=
    match digits t None with
    | Some n => VNum (sign * n)
    | None => VNaN
    end in
  match skip_space s with
  | String "-" rest => of_digits (-1)%Z rest
  | String "+" rest => of_digits 1%Z rest
  | t => of_digits 1%Z t
  end.

(** [onChange] of the font-size field of the editor (line 129). *)
Definition fontSizeChange (nodeType raw : string) (st : StyleState) : StyleState :=
  handleStyleChange nodeType "fontSize" (parseInt10 raw) st.

(** What the Style Editor can do to the state. *)
Inductive styleOp : Type :=
| Change (nodeType property : string) (val : value)
| FontSize (nodeType raw : string)
| Reset.

Definition applyOp (st : StyleState) (op : styleOp) : StyleState :=
  match op with
  | Change nodeType property val => handleStyleChange nodeType property val st
  | FontSize nodeType raw => fontSizeChange nodeType raw st
  | Reset => reset st
  end.

Definition applyOps (ops : list styleOp) (st : StyleState) : StyleState :=
  foldl applyOp st ops.

(** The bound announced by the font-size field. *)
Definition fontSizeInRange (v : value) : bool :=
  match v with
  | VNum n => ((8 <=? n) && (n <=? 24))%Z
  | _ => false
  end.

Definition fontSizeOf (st : StyleState) (nodeType : string) : option value :=
  match readStyles st !! nodeType with
  | Some fields => fields !! "fontSize"
  | None => None
  end.

(** *** Export geometry (lines 42-57 and 164-178) *)

(** [getBBox()] of the live content group. *)
Record BBox : Type := {
  bbox_x : Q;
  bbox_y : Q;
  bbox_width : Q;
  bbox_height : Q
}.

(** The attributes the exporters write on the cloned document: [width]
    and [height] of the root, and the [transform] of its content group,
    [translate(tx, ty)] optionally followed by [scale(k)]. *)
Record ExportedSvg : Type := {
  svgWidth : Q;
  svgHeight : Q;
  translateX : Q;
  translateY : Q;
  scaleFactor : option Q
}.

Definition padding : Q := 20.

(** [getSVGString]; [None] when a ref is empty. *)
Definition getSVGString (live : option BBox) : option ExportedSvg :=
  match live with
  | None => None
  | Some bbox =>
      Some {| svgWidth := bbox_width bbox + padding * 2;
              svgHeight := bbox_height bbox + padding * 2;
              translateX := - bbox_x bbox + padding;
              translateY := - bbox_y bbox + padding;
              scaleFactor := None |}
  end.

(** [createCanvasFromSVG], up to the serialisation of the clone. *)
Definition createCanvasFromSVG (bbox : BBox) (scale : Q) : ExportedSvg :=
  let canvasWidth := (bbox_width bbox + padding * 2) * scale in
  let canvasHeight := (bbox_height bbox + padding * 2) * scale in
  {| svgWidth := canvasWidth;
     svgHeight := canvasHeight;
     translateX := (- bbox_x bbox + padding) * scale;
     translateY := (- bbox_y bbox + padding) * scale;
     scaleFactor := Some scale |}.

(** [handleExportPNG] and [handleExportPDF] ask for a factor of 2. *)
Definition rasterScale : Q := 2.

(** Where the content group's transform sends a point of the diagram. *)
Definition placed (doc : ExportedSvg) (p : point) : point :=
  let k := match scaleFactor doc with Some k => k | None => 1 end in
  {| px := translateX doc + k * px p; py := translateY doc + k * py p |}.

(** The exported document shows the bounding box with 20 units of padding
    on every side at scale [s]: its size, the translation of its content
    group, and where that group puts the two corners of the box. *)
Definition paddedAt (bbox : BBox) (s : Q) (doc : ExportedSvg) : Prop :=
  let topLeft := {| px := bbox_x bbox; py := bbox_y bbox |} in
  let bottomRight := {| px := bbox_x bbox + bbox_width bbox;
                        py := bbox_y bbox + bbox_height bbox |} in
  svgWidth doc == (bbox_width bbox + 40) * s /\
  svgHeight doc == (bbox_height bbox + 40) * s /\
  translateX doc == (- bbox_x bbox + 20) * s /\
  translateY doc == (- bbox_y bbox + 20) * s /\
  px (placed doc topLeft) == 20 * s /\
  py (placed doc topLeft) == 20 * s /\
  px (placed doc bottomRight) == svgWidth doc - 20 * s /\
  py (placed doc bottomRight) == svgHeight doc - 20 * s.

(** *** PDF export (lines 229-284) *)

Record HTMLCanvas : Type := {
  canvas_width : Z;
  canvas_height : Z
}.

Inductive Orientation : Type := Landscape | Portrait.

(** The arguments of [new jsPDF(...)] that matter and of [doc.addImage]. *)
Record PdfPage : Type := {
  orientation : Orientation;
  pageWidth : Q;
  pageHeight : Q;
  image_x : Q;
  image_y : Q;
  imgWidth : Q;
  imgHeight : Q
}.

Definition PADDING_MM : Q := 10.
Definition A4_WIDTH_MM : Q := 210.
Definition A4_HEIGHT_MM : Q := 297.

Definition canvasAspectRatio (canvas : HTMLCanvas) : Q :=
  inject_Z (canvas_width canvas) / inject_Z (canvas_height canvas).

(** The [fitToA4] branch. *)
Definition fitToPage (canvas : HTMLCanvas) : PdfPage :=
  let ratio := canvasAspectRatio canvas in
  let isLandscape := Qgtb ratio 1 in
  let pageWidth := if isLandscape then A4_HEIGHT_MM else A4_WIDTH_MM in
  let pageHeight := if isLandscape then A4_WIDTH_MM else A4_HEIGHT_MM in
  let usableWidth := pageWidth - PADDING_MM * 2 in
  let usableHeight := pageHeight - PADDING_MM * 2 in
  let imgWidth0 := usableWidth in
  let imgHeight0 := imgWidth0 / ratio in
  let '(imgWidth, imgHeight) :=
    if Qgtb imgHeight0 usableHeight
    then (usableHeight * ratio, usableHeight)
    else (imgWidth0, imgHeight0) in
  {| orientation := if isLandscape then Landscape else Portrait;
     pageWidth := pageWidth;
     pageHeight := pageHeight;
     image_x := (pageWidth - imgWidth) / 2;
     image_y := (pageHeight - imgHeight) / 2;
     imgWidth := imgWidth;
     imgHeight := imgHeight |}.

(** The other branch: a page of the size of the canvas. *)
Definition nativeSize (canvas : HTMLCanvas) : PdfPage :=
  let cw := inject_Z (canvas_width canvas) in
  let ch := inject_Z (canvas_height canvas) in
  {| orientation := if Qgtb cw ch then Landscape else Portrait;
     pageWidth := cw;
     pageHeight := ch;
     image_x := 0;
     image_y := 0;
     imgWidth := cw;
     imgHeight := ch |}.

Definition handleExportPDF (fitToA4 : bool) (canvas : HTMLCanvas) : PdfPage :=
  if fitToA4 then fitToPage canvas else nativeSize canvas.

(** *** The paint effect and the view (lines 323-333 and 550-573) *)

(** A d3 zoom transform. *)
Record Transform : Type := {
  zoom_k : Q;
  zoom_x : Q;
  zoom_y : Q
}.

Definition zoomIdentity : Transform := {| zoom_k := 1; zoom_x := 0; zoom_y := 0 |}.

Definition translateBy (t : Transform) (dx dy : Q) : Transform :=
  {| zoom_k := zoom_k t;
     zoom_x := zoom_x t + zoom_k t * dx;
     zoom_y := zoom_y t + zoom_k t * dy |}.

Definition scaleBy (t : Transform) (k : Q) : Transform :=
  {| zoom_k := zoom_k t * k; zoom_x := zoom_x t; zoom_y := zoom_y t |}.

(** The view: the transform the zoom behaviour keeps on the svg element
    and the [transform] attribute of the current content group. *)
Record View : Type := {
  zoomState : Transform;
  groupTransform : option Transform
}.

(** The ['zoom'] listener (line 552), fired by a gesture that brings the
    behaviour to [t]. *)
Definition onZoom (t : Transform) : View :=
  {| zoomState := t; groupTransform := Some t |}.

(** Lines 558-571. *)
Definition autoFit (containerWidth containerHeight graphWidth graphHeight : Q)
  : Transform :=
  let scale := Qmin (Qmin ((containerWidth - 80) / graphWidth)
                          ((containerHeight - 80) / graphHeight))
                    (3 # 2) in
  let translateX := (containerWidth - graphWidth * scale) / 2 in
  let translateY := (containerHeight - graphHeight * scale) / 2 in
  scaleBy (translateBy zoomIdentity translateX translateY) scale.

Record Painted : Type := {
  canvas : option Canvas;      (* [None]: the svg is empty *)
  view : View
}.

Definition Qpositive (q : Q) : bool := Qgtb q 0.

(** One run of the effect.  [None]: it throws while painting. *)
Definition effect `{LayoutOracle} (data : option Types.FlowData)
  (containerWidth containerHeight : Q) (before : View) : option Painted :=
  let cleared := {| canvas := None;
                    view := {| zoomState := zoomState before;
                               groupTransform := None |} |} in
  match data with
  | None => Some cleared
  | Some d =>
      match Types.nodes d with
      | [] => Some cleared
      | _ :: _ =>
          let g := buildGraph d in
          match paint (layout g) with
          | None => None
          | Some c =>
              let graphWidth := graph_width g in
              let graphHeight := graph_height g in
              if Qpositive graphWidth && Qpositive graphHeight then
                Some {| canvas := Some c;
                        view := onZoom (autoFit containerWidth containerHeight
                                                graphWidth graphHeight) |}
              else
                Some {| canvas := Some c;
                        view := {| zoomState := zoomState before;
                                   groupTransform := None |} |}
          end
      end
  end.

(** A render after which React compares the dependency array
    [[data, customNodeStyles]] with the previous one by identity, and runs
    the effect when an entry differs. *)
Definition afterRender `{LayoutOracle} (dataChanged : bool)
  (stylesBefore stylesAfter : loc) (data : option Types.FlowData)
  (containerWidth containerHeight : Q) (before : Painted) : option Painted :=
  if dataChanged || negb (Pos.eqb stylesBefore stylesAfter)
  then effect data containerWidth containerHeight (view before)
  else Some before.

(** A change made in the Style Editor followed by the render it causes;
    the [data] prop is the same object as before. *)
Definition restyle `{LayoutOracle} (op : styleOp) (st : StyleState)
  (data : option Types.FlowData) (containerWidth containerHeight : Q)
  (before : Painted) : StyleState * option Painted :=
  let st' := applyOp st op in
  (st', afterRender false (customNodeStyles st) (customNodeStyles st') data
                    containerWidth containerHeight before).

End FlowChart.

(* ===================================================================== *)
(** ** The ingestion contract, stated on payloads                        *)
(* ===================================================================== *)

Module Ingestion.

Import GeminiService.

Definition stringField (v : json) (k : string) : option string :=
  match get v k with
  | Some (JStr s) => Some s
  | _ => None
  end.

(** The arrays [flowchart.nodes] and [flowchart.edges] of a payload. *)
Definition arrayOf (p : json) (k : string) : option (list json) :=
  match get p "flowchart" with
  | Some fc => match get fc k with Some (JArr items) => Some items | _ => None end
  | None => None
  end.

(** A node as the contract words it: non-empty string id, non-empty
    string label, type among the four. *)
Definition nodeWellFormed (n : json) : Prop :=
  exists id label ty,
    stringField n "id" = Some id /\ id <> "" /\
    stringField n "label" = Some label /\ label <> "" /\
    stringField n "type" = Some ty /\ In ty nodeTypes.

(** A node as the validation code takes it: the strings may be empty. *)
Definition nodeAccepted (n : json) : Prop :=
  exists id label ty,
    stringField n "id" = Some id /\
    stringField n "label" = Some label /\
    stringField n "type" = Some ty /\ In ty nodeTypes.

(** The ids the nodes declare. *)
Fixpoint declaredIds (ns : list json) : list string :=
  match ns with
  | [] => []
  | n :: rest =>
      match stringField n "id" with
      | Some id => id :: declaredIds rest
      | None => declaredIds rest
      end
  end.

Definition edgeResolves (ids : list string) (e : json) : Prop :=
  exists s t,
    stringField e "source" = Some s /\ stringField e "target" = Some t /\
    In s ids /\ In t ids.

(** Some node fails [nodeOk], or some edge does not resolve. *)
Definition violates (nodeOk : json -> Prop) (p : json) : Prop :=
  exists ns es,
    arrayOf p "nodes" = Some ns /\ arrayOf p "edges" = Some es /\
    (Exists (fun n => ~ nodeOk n) ns \/
     Exists (fun e => ~ edgeResolves (declaredIds ns) e) es).

(** The error a failed attempt surfaces as (lines 164-165). *)
Definition surfaced `{Host} (e : thrown) : settled :=
  Threw ("Failed to generate flowchart: " ++ finalErrorMessage e).

(** Total time spent waiting between attempts. *)
Definition total_delay (r : run) : Z := fold_right Z.add 0%Z (delays r).

End Ingestion.

(* ===================================================================== *)
(** ** Concrete data used by the examples                                *)
(* ===================================================================== *)

Module Samples.

Import GeminiService.

(** A host whose [JSON.parse] rejects everything. *)
Definition plainHost : Host :=
  {| JSON_parse := fun _ => None;
     Number_toString := fun _ => "0";
     String_trim := fun s => s;
     null_destructure_message :=
       "Cannot destructure property 'flowchart' of 'parsedData' as it is null." |}.

Definition node (id label ty : string) : json :=
  JObj [("id", JStr id); ("label", JStr label); ("type", JStr ty)].

Definition edge (s t : string) : json :=
  JObj [("source", JStr s); ("target", JStr t)].

Definition payload (ns es : list json) : json :=
  JObj [("flowchart", JObj [("nodes", JArr ns); ("edges", JArr es)]);
        ("functions", JArr [])].

(** One node whose id and label are empty strings. *)
Definition emptyIdPayload : json := payload [node "" "" "process"] [].

(** An edge whose source is not declared. *)
Definition danglingPayload : json :=
  payload [node "a" "Begin" "start"] [edge "b" "a"].

(** The same, with an id that contains the digits 429. *)
Definition dangling429Payload : json :=
  payload [node "a" "Begin" "start"] [edge "429" "a"].

Definition goodPayload : json :=
  payload [node "a" "Begin" "start"; node "b" "Finish" "end"] [edge "a" "b"].

Definition rateLimited : attempt_outcome :=
  Rejected (ErrorObj "got status: 429 Too Many Requests").

(** Scenario 3: two rate-limit failures, then a good payload. *)
Definition thirdTimeLucky (_ : string) (n : nat) : attempt_outcome :=
  match n with
  | 0%nat | 1%nat => rateLimited
  | _ => Parsed goodPayload
  end.

Definition appState (s : string) : App.state :=
  App.initial s.

(** An oracle that puts everything at the origin of a 150 x 60 graph. *)
Definition flatOracle : FlowChart.LayoutOracle :=
  {| FlowChart.node_center := fun _ _ => {| FlowChart.px := 0; FlowChart.py := 0 |};
     FlowChart.edge_points := fun _ _ => [];
     FlowChart.edge_anchor := fun _ _ => None;
     FlowChart.graph_width := fun _ => 150%Q;
     FlowChart.graph_height := fun _ => 60%Q |}.

Definition nodeData (id label : string) (t : Types.NodeType) : Types.NodeData :=
  {| Types.id := id; Types.label := label; Types.type := t;
     Types.description := None |}.

Definition edgeData (s t : string) (l : option string) : Types.EdgeData :=
  {| Types.source := s; Types.target := t; Types.edgeLabel := l |}.

(** A decision with its two outcomes leading to the same step. *)
Definition parallelEdges : Types.FlowData :=
  {| Types.nodes := [nodeData "a" "Key found?" Types.TDecision;
                     nodeData "b" "Next room" Types.TProcess];
     Types.edges := [edgeData "a" "b" (Some "Yes"); edgeData "a" "b" (Some "No")] |}.

Definition chain : Types.FlowData :=
  {| Types.nodes := [nodeData "a" "Begin" Types.TStart;
                     nodeData "b" "Search the cell" Types.TProcess;
                     nodeData "c" "Finish" Types.TEnd];
     Types.edges := [edgeData "a" "b" None; edgeData "b" "c" (Some "done")] |}.

(** A text metric of ten units per code unit. *)
Definition tenPerUnit (s : FlowChart.ustring) : Q :=
  inject_Z (10 * Z.of_nat (length s)).

(** A label that begins with a space. *)
Definition indentedLabel : FlowChart.ustring := FlowChart.units " alpha beta gamma".

Definition plainLabel : FlowChart.ustring := FlowChart.units "alpha beta gamma".

(** A view the user has reached by zooming in and panning. *)
Definition userTransform : FlowChart.Transform :=
  {| FlowChart.zoom_k := 3; FlowChart.zoom_x := 7; FlowChart.zoom_y := 9 |}.

Definition initialView : FlowChart.View :=
  {| FlowChart.zoomState := FlowChart.zoomIdentity; FlowChart.groupTransform := None |}.

(** An oracle that stacks the nodes of [chain] top to bottom. *)
Definition stackOracle : FlowChart.LayoutOracle :=
  {| FlowChart.node_center := fun _ id =>
       {| FlowChart.px := 75;
          FlowChart.py := if String.eqb id "a" then 30
                          else if String.eqb id "b" then 170 else 310 |};
     FlowChart.edge_points := fun _ _ => [];
     FlowChart.edge_anchor := fun _ _ => None;
     FlowChart.graph_width := fun _ => 150%Q;
     FlowChart.graph_height := fun _ => 340%Q |}.

End Samples.

(* ===================================================================== *)
(** ** components/ResizablePanels.tsx                                    *)
(* ===================================================================== *)

Module ResizablePanels.

Local Open Scope Q_scope.

(** The part of [getBoundingClientRect()] that is read. *)
Record DOMRect : Type := {
  rect_left : Q;
  rect_width : Q
}.

(** [leftWidth] is the state cell, [isResizing] the ref, [minWidth] the
    prop of the last render (the one [handleMouseMove] is memoised on);
    [listening] tells whether the effect has its two listeners on
    [window]. *)
Record state : Type := {
  leftWidth : Q;
  isResizing : bool;
  minWidth : Q;
  listening : bool
}.

(** After the first render and its effect: the ref is [false], so the
    effect adds no listener. *)
Definition mounted (initialLeftWidth minWidth0 : Q) : state :=
  {| leftWidth := initialLeftWidth; isResizing := false;
     minWidth := minWidth0; listening := false |}.

(** [handleMouseDown]: only the ref is written; no state is set, so no
    render follows. *)
Definition handleMouseDown (st : state) : state :=
  {| leftWidth := leftWidth st; isResizing := true;
     minWidth := minWidth st; listening := listening st |}.

(** [Math.max(minWidth, Math.min(newLeftWidth, 100 - minWidth))]. *)
Definition clamp (minWidth0 newLeftWidth : Q) : Q :=
  Qmax minWidth0 (Qmin newLeftWidth (100 - minWidth0)).

(** [handleMouseMove]; [rect] is [None] when [containerRef.current] is
    null. *)
Definition handleMouseMove (clientX : Q) (rect : option DOMRect)
  (st : state) : state :=
  match isResizing st, rect with
  | true, Some containerRect =>
      let newLeftWidth :=
        (clientX - rect_left containerRect) / rect_width containerRect * 100 in
      {| leftWidth := clamp (minWidth st) newLeftWidth;
         isResizing := isResizing st; minWidth := minWidth st;
         listening := listening st |}
  | _, _ => st
  end.

(** [handleMouseUp]: the two [removeEventListener] calls name functions
    that were never registered (the effect registers its own wrappers),
    so only the ref changes. *)
Definition handleMouseUp (st : state) : state :=
  {| leftWidth := leftWidth st; isResizing := false;
     minWidth := minWidth st; listening := listening st |}.

(** What can happen to the mounted component. *)
Inductive event : Type :=
| MouseDown                                         (* on the separator *)
| WindowMouseMove (clientX : Q) (rect : option DOMRect)
| WindowMouseUp
| Render (minWidthProp : Q).                        (* a render by the parent *)

(** [handleMouseMove] is memoised on [minWidth] and [handleMouseUp] on
    nothing; the effect depends on both.  A render therefore re-runs the
    effect (clean-up, then listeners added when the ref is [true]) only
    when [minWidth] is another number than at the render before. *)
Definition step (st : state) (e : event) : state :=
  match e with
  | MouseDown => handleMouseDown st
  | WindowMouseMove clientX rect =>
      if listening st then handleMouseMove clientX rect st else st
  | WindowMouseUp =>
      if listening st then handleMouseUp st else st
  | Render minWidthProp =>
      if Qeq_bool minWidthProp (minWidth st) then st
      else {| leftWidth := leftWidth st; isResizing := isResizing st;
              minWidth := minWidthProp; listening := isResizing st |}
  end.

Definition run (events : list event) (st : state) : state :=
  foldl step st events.

(** The event is not a render with another [minWidth] than [minWidth0]. *)
Definition keepsMinWidth (minWidth0 : Q) (e : event) : bool :=
  match e with
  | Render minWidthProp => Qeq_bool minWidthProp minWidth0
  | _ => true
  end.

End ResizablePanels.

(* ===================================================================== *)
(** ** components/FlowChart.tsx: export menu, tooltip, drag sessions     *)
(* ===================================================================== *)

Module ExportMenu.

Inductive CopyStatus : Type := idle | svg | png.

(** The two state cells, and what the handlers leave behind: the delays
    of the pending [setTimeout(() => setCopyStatus('idle'), ...)] calls,
    the [alert] messages, the first argument of each [console.error], and
    the names of the downloaded files. *)
Record state : Type := {
  isExportMenuOpen : bool;
  copyStatus : CopyStatus;
  pendingResets : list Z;
  alerts : list string;
  errors : list string;
  downloads : list string
}.

Definition closeMenu (st : state) : state :=
  {| isExportMenuOpen := false; copyStatus := copyStatus st;
     pendingResets := pendingResets st; alerts := alerts st;
     errors := errors st; downloads := downloads st |}.

Definition download (name : string) (st : state) : state :=
  {| isExportMenuOpen := isExportMenuOpen st; copyStatus := copyStatus st;
     pendingResets := pendingResets st; alerts := alerts st;
     errors := errors st; downloads := (downloads st ++ [name])%list |}.

Definition logError (what : string) (st : state) : state :=
  {| isExportMenuOpen := isExportMenuOpen st; copyStatus := copyStatus st;
     pendingResets := pendingResets st; alerts := alerts st;
     errors := (errors st ++ [what])%list; downloads := downloads st |}.

Definition alert (message : string) (st : state) : state :=
  {| isExportMenuOpen := isExportMenuOpen st; copyStatus := copyStatus st;
     pendingResets := pendingResets st; alerts := (alerts st ++ [message])%list;
     errors := errors st; downloads := downloads st |}.

(** [setCopyStatus(s); setTimeout(() => setCopyStatus('idle'), 2000)]. *)
Definition copied (s : CopyStatus) (st : state) : state :=
  {| isExportMenuOpen := isExportMenuOpen st; copyStatus := s;
     pendingResets := (pendingResets st ++ [2000%Z])%list; alerts := alerts st;
     errors := errors st; downloads := downloads st |}.

(** [handleExportSVG]; [svgString] is the result of [getSVGString()]. *)
Definition handleExportSVG (svgString : option string) (st : state) : state :=
  match svgString with
  | None => st
  | Some _ => closeMenu (download "flowchart.svg" st)
  end.

(** [handleExportPNG].  [refs]: both refs are set.  [rendered]: the
    [try] block ran to its end ([false]: something in it threw, such as a
    rejected [createCanvasFromSVG]). *)
Definition handleExportPNG (refs rendered : bool) (st : state) : state :=
  if negb refs then st
  else closeMenu (if rendered then download "flowchart.png" st
                  else logError "Failed to export PNG:" st).

(** [handleExportPDF]. *)
Definition handleExportPDF (refs rendered fitToA4 : bool) (st : state) : state :=
  if negb refs then st
  else closeMenu (if rendered
                  then download (if fitToA4 then "flowchart-a4.pdf" else "flowchart.pdf") st
                  else logError "Failed to export PDF:" st).

(** [handleCopySVG]; [written]: [navigator.clipboard.writeText] resolved. *)
Definition handleCopySVG (svgString : option string) (written : bool)
  (st : state) : state :=
  match svgString with
  | None => st
  | Some _ =>
      closeMenu (if written then copied svg st
                 else alert "Failed to copy SVG. See console for details."
                        (logError "Failed to copy SVG to clipboard:" st))
  end.

(** [handleCopyPNG].  [rendered]: [createCanvasFromSVG] resolved and
    [toBlob] was called.  The callback given to [toBlob] is an [async]
    function that nobody awaits: when [blob] is null or the clipboard
    write rejects ([written = false]) its promise rejects outside the
    [try], so neither the [catch] nor anything else in this handler
    runs. *)
Definition handleCopyPNG (refs rendered blob written : bool) (st : state) : state :=
  if negb refs then st
  else if rendered then
    let st1 := closeMenu st in
    if blob && written then copied png st1 else st1
  else
    closeMenu
      (alert "Failed to copy image. Your browser might not support this feature. See console for details."
             (logError "Failed to copy image to clipboard:" st)).

(** The oldest pending reset fires. *)
Definition timerFires (st : state) : state :=
  match pendingResets st with
  | [] => st
  | _ :: rest =>
      {| isExportMenuOpen := isExportMenuOpen st; copyStatus := idle;
         pendingResets := rest; alerts := alerts st;
         errors := errors st; downloads := downloads st |}
  end.

(** The export button toggles the menu; a mouse-down outside closes it. *)
Definition toggleMenu (st : state) : state :=
  {| isExportMenuOpen := negb (isExportMenuOpen st); copyStatus := copyStatus st;
     pendingResets := pendingResets st; alerts := alerts st;
     errors := errors st; downloads := downloads st |}.

Inductive action : Type :=
| ExportSVG (svgString : option string)
| ExportPNG (refs rendered : bool)
| ExportPDF (refs rendered fitToA4 : bool)
| CopySVG (svgString : option string) (written : bool)
| CopyPNG (refs rendered blob written : bool)
| TimerFires
| ToggleMenu
| ClickOutside.

Definition perform (st : state) (a : action) : state :=
  match a with
  | ExportSVG svgString => handleExportSVG svgString st
  | ExportPNG refs rendered => handleExportPNG refs rendered st
  | ExportPDF refs rendered fitToA4 => handleExportPDF refs rendered fitToA4 st
  | CopySVG svgString written => handleCopySVG svgString written st
  | CopyPNG refs rendered blob written => handleCopyPNG refs rendered blob written st
  | TimerFires => timerFires st
  | ToggleMenu => toggleMenu st
  | ClickOutside => closeMenu st
  end.

Definition initial : state :=
  {| isExportMenuOpen := false; copyStatus := idle; pendingResets := [];
     alerts := []; errors := []; downloads := [] |}.

(** The canvas was there for the handler to work on. *)
Definition ready (a : action) : bool :=
  match a with
  | ExportSVG s | CopySVG s _ => match s with Some _ => true | None => false end
  | ExportPNG refs _ | ExportPDF refs _ _ | CopyPNG refs _ _ _ => refs
  | TimerFires | ToggleMenu | ClickOutside => false
  end.

End ExportMenu.

Module Tooltip.

Local Open Scope Q_scope.

Record TooltipState : Type := {
  visible : bool;
  content : string;
  tip_x : Q;
  tip_y : Q
}.

Definition initial : TooltipState :=
  {| visible := false; content := ""; tip_x := 0; tip_y := 0 |}.

(** The three listeners (lines 532-548); [(px, py)] is [d3.pointer]. *)
Inductive event : Type :=
| MouseOver (description : option string) (px py : Q)
| MouseMove (px py : Q)
| MouseOut.

Definition step (st : TooltipState) (e : event) : TooltipState :=
  match e with
  | MouseOver description x y =>
      match description with
      | Some text =>
          if negb (String.eqb text "") then
            {| visible := true; content := text; tip_x := x + 15; tip_y := y + 15 |}
          else st
      | None => st
      end
  | MouseMove x y =>
      {| visible := visible st; content := content st;
         tip_x := x + 15; tip_y := y + 15 |}
  | MouseOut =>
      {| visible := false; content := content st;
         tip_x := tip_x st; tip_y := tip_y st |}
  end.

Definition run (events : list event) : TooltipState := foldl step initial events.

(** The event shows a description. *)
Definition shows (text : string) (e : event) : Prop :=
  exists x y, e = MouseOver (Some text) x y.

(** The event leaves [visible] and [content] alone: the pointer moves, or
    enters a node whose description is [undefined] or empty. *)
Definition quiet (e : event) : bool :=
  match e with
  | MouseOver (Some text) _ _ => String.eqb text ""
  | MouseOver None _ _ => true
  | MouseMove _ _ => true
  | MouseOut => false
  end.

End Tooltip.

Module DragSession.

Import FlowChart.

(** A succession of [drag] events, each on some node group. *)
Fixpoint drags (moves : list (string * (Q * Q))) (c : Canvas) : option Canvas :=
  match moves with
  | [] => Some c
  | (nodeId, (ex, ey)) :: rest =>
      match drag c nodeId ex ey with
      | Some c' => drags rest c'
      | None => None
      end
  end.

End DragSession.

(* ===================================================================== *)
(** ** More concrete data                                                *)
(* ===================================================================== *)

Module MoreSamples.

(** A Diagram whose second node reuses the id of the first. *)
Definition repeatedId : Types.FlowData :=
  {| Types.nodes := [Samples.nodeData "a" "First" Types.TStart;
                     Samples.nodeData "a" "Second" Types.TEnd];
     Types.edges := [] |}.

(** A Diagram with an edge to a node that is not declared. *)
Definition dangling : Types.FlowData :=
  {| Types.nodes := [Samples.nodeData "a" "Begin" Types.TStart];
     Types.edges := [Samples.edgeData "a" "ghost" None] |}.

Definition box : FlowChart.BBox :=
  {| FlowChart.bbox_x := 10; FlowChart.bbox_y := 20;
     FlowChart.bbox_width := 150; FlowChart.bbox_height := 340 |}.

Definition wideCanvas : FlowChart.HTMLCanvas :=
  {| FlowChart.canvas_width := 600; FlowChart.canvas_height := 400 |}.

Definition panelRect : ResizablePanels.DOMRect :=
  {| ResizablePanels.rect_left := 0; ResizablePanels.rect_width := 1000 |}.

End MoreSamples.

(* ===================================================================== *)
(** * Properties                                                         *)
(* ===================================================================== *)

(* ===================================================================== *)
(** ** Properties: retry policy                                          *)
(* ===================================================================== *)

Module RetryPolicy.

Import GeminiService Ingestion.

Section Retry.
Context `{Host}.

(** One unfolding of the loop, for an attempt that is still allowed. *)
Lemma retryLoop_step provider fuel attempt delayMs slept :
  (attempt < maxRetries)%nat ->
  retryLoop provider (S fuel) attempt delayMs slept =
  match tryBlock (provider attempt) with
  | inr value =>
      Some {| outcome := Resolved value; delays := slept; attempts := S attempt |}
  | inl error =>
      if isRateLimitError error && (S attempt <? maxRetries)%nat then
        retryLoop provider fuel (S attempt) (delayMs * 2) (slept ++ [delayMs])%list
      else
        Some {| outcome := surfaced error; delays := slept; attempts := S attempt |}
  end.
Proof.
  intros Hlt. cbn [retryLoop].
  apply Nat.ltb_lt in Hlt. rewrite Hlt. reflexivity.
Qed.

(** The loop always settles: three units of fuel are enough. *)
Lemma generateFlowFromScript_total provider script :
  exists r, generateFlowFromScript provider script = Some r.
Proof.
  unfold generateFlowFromScript.
  change maxRetries with (S 2) at 1.
  rewrite retryLoop_step by (unfold maxRetries; lia).
  destruct (tryBlock (provider script 0%nat)) as [e0|v0]; [|eauto].
  destruct (isRateLimitError e0); cbn [andb]; [|eauto].
  change (1 <? maxRetries)%nat with true. cbn match.
  rewrite retryLoop_step by (unfold maxRetries; lia).
  destruct (tryBlock (provider script 1%nat)) as [e1|v1]; [|eauto].
  destruct (isRateLimitError e1); cbn [andb]; [|eauto].
  change (2 <? maxRetries)%nat with true. cbn match.
  rewrite retryLoop_step by (unfold maxRetries; lia).
  destruct (tryBlock (provider script 2%nat)) as [e2|v2]; [|eauto].
  change (3 <? maxRetries)%nat with false. rewrite andb_false_r. eauto.
Qed.

(** The message that is surfaced is the message of the error itself,
    unless a JSON object found between the first opening brace and the
    last closing brace after it carries a truthy [error.message]. *)
Lemma finalErrorMessage_cases message :
  finalErrorMessage (ErrorObj message) = message \/
  exists captured errorJson m,
    braceMatch message = Some captured /\
    JSON_parse captured = Some errorJson /\
    nestedMessage errorJson = Some m /\ truthy m = true /\
    finalErrorMessage (ErrorObj message) = toString m.
Proof.
  unfold finalErrorMessage.
  destruct (braceMatch message) as [captured|]; [|now left].
  destruct (negb (String.eqb captured "")); [|now left].
  destruct (JSON_parse captured) as [errorJson|] eqn:Hparse; [|now left].
  destruct (nestedMessage errorJson) as [m|] eqn:Hnested; [|now left].
  destruct (truthy m) eqn:Hm; [|now left].
  right. exists captured, errorJson, m. auto.
Qed.

Lemma finalErrorMessage_plain message :
  braceMatch message = None -> finalErrorMessage (ErrorObj message) = message.
Proof. intros Hnone. unfold finalErrorMessage. now rewrite Hnone. Qed.

(** The loop as a whole.  [generateFlowFromScript] settles after at most
    three provider calls.  Every call but the last one failed with an
    error for which [isRateLimitError] holds; the waits are 2000 ms
    before the second call and 4000 ms before the third.  The last call
    decides: its value is returned, or its failure is thrown, and that
    failure fails the test unless it was the third call.  When calls one
    and two fail the test and the third succeeds, the value of the third
    is returned after 2000 + 4000 ms of waiting. *)
Lemma retry_policy (provider : string -> nat -> attempt_outcome)
  (script : string) :
  exists r,
    generateFlowFromScript provider script = Some r /\
    (1 <= attempts r <= 3)%nat /\
    (forall k, (S k < attempts r)%nat ->
       exists e, tryBlock (provider script k) = inl e /\ isRateLimitError e = true) /\
    delays r = firstn (attempts r - 1) [2000; 4000]%Z /\
    match tryBlock (provider script (attempts r - 1)) with
    | inr value => outcome r = Resolved value
    | inl e => outcome r = surfaced e /\
               (isRateLimitError e = false \/ attempts r = 3%nat)
    end /\
    (forall k e, (k < attempts r)%nat ->
       tryBlock (provider script k) = inl e -> isRateLimitError e = false ->
       attempts r = S k /\ outcome r = surfaced e) /\
    (forall e1 e2 value,
       tryBlock (provider script 0%nat) = inl e1 -> isRateLimitError e1 = true ->
       tryBlock (provider script 1%nat) = inl e2 -> isRateLimitError e2 = true ->
       tryBlock (provider script 2%nat) = inr value ->
       outcome r = Resolved value /\ attempts r = 3%nat /\
       delays r = [2000; 4000]%Z /\ (2000 + 4000 <= total_delay r)%Z).
Proof.
  unfold generateFlowFromScript.
  change maxRetries with (S 2) at 1.
  rewrite retryLoop_step by (unfold maxRetries; lia).
  destruct (tryBlock (provider script 0%nat)) as [e0|v0] eqn:T0;
    [destruct (isRateLimitError e0) eqn:R0; cbn [andb]|];
    [change (1 <? maxRetries)%nat with true; cbn match;
     rewrite retryLoop_step by (unfold maxRetries; lia);
     destruct (tryBlock (provider script 1%nat)) as [e1|v1] eqn:T1;
       [destruct (isRateLimitError e1) eqn:R1; cbn [andb]|];
       [change (2 <? maxRetries)%nat with true; cbn match;
        rewrite retryLoop_step by (unfold maxRetries; lia);
        destruct (tryBlock (provider script 2%nat)) as [e2|v2] eqn:T2;
          [change (3 <? maxRetries)%nat with false; rewrite andb_false_r|]
       | | ]
    | | ].
  all: eexists; split; [reflexivity|]; cbn [attempts outcome delays].
  all: split; [lia|].
  all: split; [intros [|[|k]] Hk; try lia; eauto|].
  all: split; [reflexivity|].
  all: split;
    [cbn [Nat.sub];
     first [rewrite T2 | rewrite T1 | rewrite T0]; auto|].
  all: split;
    [intros [|[|[|k]]] e Hk Ht Hr; try lia; try congruence;
     (split; [reflexivity|congruence])|].
  all: intros a1 a2 value A1 A2 A3 A4 A5; try congruence.
  all: repeat split; try congruence; unfold total_delay; cbn; first [reflexivity|lia].
Qed.

End Retry.

(** Scenario 3 on concrete data: two rate-limit failures, then a payload
    that passes validation. *)
Example retry_policy_third_time_lucky :
  generateFlowFromScript (H := Samples.plainHost) Samples.thirdTimeLucky
    "The game starts." =
  Some {| outcome := Resolved Samples.goodPayload;
          delays := [2000; 4000]%Z; attempts := 3 |}.
Proof. vm_compute. reflexivity. Qed.

(** C2 fails on the code.  The test for a rate-limit signal is
    [error.message.includes('429')], applied to whatever the [try] block
    threw, and the block's own validation errors quote ids of the
    payload.  A payload with an edge from an undeclared node "429" fails
    validation with a data-integrity error; that failure is no answer of
    the provider, yet the code waits 2000 ms and asks again, and here
    returns the second answer.  The same payload with the id "b" is
    surfaced at once, after one call and no wait, with the validation
    message. *)
Theorem C2_validation_failure_is_retried :
  tryBlock (H := Samples.plainHost) (Parsed Samples.dangling429Payload) =
    inl (ErrorObj "Data integrity issue: Edge references a non-existent source node with ID '429'.") /\
  generateFlowFromScript (H := Samples.plainHost)
    (fun _ n => match n with
                | 0%nat => Parsed Samples.dangling429Payload
                | _ => Parsed Samples.goodPayload
                end) "The game starts." =
  Some {| outcome := Resolved Samples.goodPayload;
          delays := [2000%Z]; attempts := 2 |} /\
  generateFlowFromScript (H := Samples.plainHost)
    (fun _ n => match n with
                | 0%nat => Parsed Samples.danglingPayload
                | _ => Parsed Samples.goodPayload
                end) "The game starts." =
  Some {| outcome :=
            Threw "Failed to generate flowchart: Data integrity issue: Edge references a non-existent source node with ID 'b'.";
          delays := []; attempts := 1 |}.
Proof. repeat split; vm_compute; reflexivity. Qed.

End RetryPolicy.

(* ===================================================================== *)
(** ** Properties: ingestion validation                                  *)
(* ===================================================================== *)

Module IngestionProperties.

Import GeminiService Ingestion RetryPolicy.

Section Validation.
Context `{Host}.

Lemma is_string_field v k :
  is_string (get v k) = true -> exists s, stringField v k = Some s /\ get v k = Some (JStr s).
Proof.
  unfold is_string, stringField.
  destruct (get v k) as [[]|]; try discriminate. eauto.
Qed.

Lemma existsb_eqb_In ty l : existsb (String.eqb ty) l = true -> In ty l.
Proof.
  intros Hex. apply existsb_exists in Hex as (x & Hin & Heq).
  apply String.eqb_eq in Heq. subst. exact Hin.
Qed.

(** A node that passes the callback is an accepted node, and the callback
    returns the id it declares. *)
Lemma checkNode_inr node id :
  checkNode node = inr id ->
  nodeAccepted node /\ stringField node "id" = Some id.
Proof.
  unfold checkNode.
  destruct (negb (truthy node)); [discriminate|].
  destruct (is_string (get node "id")) eqn:Hid; [|discriminate].
  destruct (is_string (get node "label")) eqn:Hlabel; [|discriminate].
  destruct (is_string (get node "type")) eqn:Htype; [|discriminate].
  cbn [negb orb].
  apply is_string_field in Hid as (i & Hi & Gi).
  apply is_string_field in Hlabel as (l & Hl & Gl).
  apply is_string_field in Htype as (t & Ht & Gt).
  rewrite Gi, Gt.
  destruct (existsb (String.eqb t) nodeTypes) eqn:Hex; [|discriminate].
  cbn [negb]. intros [= <-].
  split; [|exact Hi].
  exists i, l, t. auto using existsb_eqb_In.
Qed.

Lemma mapNodes_inr nodes ids :
  mapNodes nodes = inr ids ->
  Forall nodeAccepted nodes /\ declaredIds nodes = ids.
Proof.
  revert ids. induction nodes as [|node rest IH]; intros ids; cbn [mapNodes].
  - intros [= <-]. split; [constructor|reflexivity].
  - destruct (checkNode node) as [msg|id] eqn:Hnode; [discriminate|].
    destruct (mapNodes rest) as [msg|ids'] eqn:Hrest; [discriminate|].
    intros [= <-].
    apply checkNode_inr in Hnode as [Hacc Hid].
    destruct (IH ids' eq_refl) as [Hall Hids].
    split; [constructor; assumption|].
    cbn [declaredIds]. rewrite Hid. now rewrite Hids.
Qed.

Lemma checkEdge_None (ids : list string) edge :
  checkEdge (list_to_set ids) edge = None -> edgeResolves ids edge.
Proof.
  unfold checkEdge.
  destruct (negb (truthy edge)); [discriminate|].
  destruct (is_string (get edge "source")) eqn:Hs; [|discriminate].
  destruct (is_string (get edge "target")) eqn:Ht; [|discriminate].
  cbn [negb orb].
  apply is_string_field in Hs as (s & Hs & Gs).
  apply is_string_field in Ht as (t & Ht & Gt).
  rewrite Gs, Gt.
  destruct (bool_decide (s ∈ (list_to_set ids : gset string))) eqn:Is; [|discriminate].
  destruct (bool_decide (t ∈ (list_to_set ids : gset string))) eqn:It; [|discriminate].
  intros _.
  apply bool_decide_eq_true in Is, It.
  rewrite elem_of_list_to_set in Is, It.
  apply list_elem_of_In in Is, It.
  exists s, t. auto.
Qed.

Lemma checkEdges_None (ids : list string) edges :
  checkEdges (list_to_set ids) edges = None -> Forall (edgeResolves ids) edges.
Proof.
  induction edges as [|edge rest IH]; cbn [checkEdges]; [constructor|].
  destruct (checkEdge (list_to_set ids) edge) eqn:He; [discriminate|].
  intros Hrest. constructor; [now apply checkEdge_None|now apply IH].
Qed.

Lemma Exists_not_Forall {A} (P : A -> Prop) l :
  Exists (fun a => ~ P a) l -> Forall P l -> False.
Proof.
  intros Hex Hall. apply Exists_exists in Hex as (a & Hin & Hnot).
  rewrite Forall_forall in Hall. eauto.
Qed.

(** Whatever [validate] lets through has only accepted nodes and
    resolving edges. *)
Lemma validate_inr parsedData value ns es :
  validate parsedData = inr value ->
  arrayOf parsedData "nodes" = Some ns ->
  arrayOf parsedData "edges" = Some es ->
  value = parsedData /\ Forall nodeAccepted ns /\
  Forall (edgeResolves (declaredIds ns)) es.
Proof.
  unfold validate, arrayOf.
  destruct parsedData; try discriminate;
    destruct (get _ "flowchart") as [fc|] eqn:Hfc; try discriminate.
  all: destruct (negb (truthy fc) || negb (typeof_object (Some fc))
                 || negb (isArray (get fc "nodes")) || negb (isArray (get fc "edges"))
                 || negb (isArray (get _ "functions"))); try discriminate.
  all: destruct (get fc "nodes") as [[]|]; try discriminate.
  all: destruct (get fc "edges") as [[]|]; try discriminate.
  all: destruct (mapNodes items) as [msg|ids] eqn:Hnodes; try discriminate.
  all: destruct (checkEdges (list_to_set ids) items0) as [msg|] eqn:Hedges; try discriminate.
  all: intros [= <-] [= <-] [= <-].
  all: apply mapNodes_inr in Hnodes as [Hall <-].
  all: apply checkEdges_None in Hedges.
  all: auto.
Qed.

(** [validate] never returns anything but an [Error] or its argument. *)
Lemma validate_throws_Error parsedData e :
  validate parsedData = inl e -> exists msg, e = ErrorObj msg.
Proof.
  unfold validate.
  destruct parsedData;
    repeat match goal with
      | |- context [match ?x with _ => _ end] => destruct x
      end; intros [= <-]; eauto.
Qed.

(** A payload with a node that is not accepted or an edge that does not
    resolve makes the validation throw. *)
Lemma validate_rejects parsedData :
  violates nodeAccepted parsedData ->
  exists msg, validate parsedData = inl (ErrorObj msg).
Proof.
  intros (ns & es & Hns & Hes & Hbad).
  destruct (validate parsedData) as [e|value] eqn:Hv.
  - apply validate_throws_Error in Hv as [msg ->]. eauto.
  - exfalso.
    destruct (validate_inr _ _ _ _ Hv Hns Hes) as (_ & Hall & Hres).
    destruct Hbad as [Hbad|Hbad]; eauto using Exists_not_Forall.
Qed.

Lemma stringField_get v k s : stringField v k = Some s -> get v k = Some (JStr s).
Proof.
  unfold stringField. destruct (get v k) as [[]|]; try discriminate.
  now intros [= ->].
Qed.

Lemma checkNode_accepted node :
  nodeAccepted node ->
  exists id, stringField node "id" = Some id /\ checkNode node = inr id.
Proof.
  intros (id & label & ty & Hid & Hlabel & Hty & Hin).
  exists id. split; [exact Hid|].
  apply stringField_get in Hid, Hlabel, Hty.
  unfold checkNode. rewrite Hid, Hlabel, Hty.
  destruct node; try discriminate. cbn [truthy negb orb is_string].
  assert (Hex : existsb (String.eqb ty) nodeTypes = true).
  { apply existsb_exists. exists ty. split; [exact Hin|apply String.eqb_refl]. }
  now rewrite Hex.
Qed.

Lemma mapNodes_accepted nodes :
  Forall nodeAccepted nodes -> mapNodes nodes = inr (declaredIds nodes).
Proof.
  induction 1 as [|node rest Hnode Hrest IH]; cbn [mapNodes declaredIds].
  - reflexivity.
  - destruct (checkNode_accepted node Hnode) as (id & Hid & Hcheck).
    now rewrite Hcheck, IH, Hid.
Qed.

Lemma checkEdges_resolving ids edges :
  Forall (edgeResolves ids) edges -> checkEdges (list_to_set ids) edges = None.
Proof.
  induction 1 as [|edge rest Hedge Hrest IH]; cbn [checkEdges]; [reflexivity|].
  destruct Hedge as (s & t & Hs & Ht & Ins & Int).
  apply stringField_get in Hs, Ht.
  unfold checkEdge. rewrite Hs, Ht.
  destruct edge; try discriminate. cbn [truthy negb orb is_string].
  rewrite !bool_decide_eq_true_2
    by (apply elem_of_list_to_set, list_elem_of_In; assumption).
  exact IH.
Qed.

(** Conversely, a payload whose nodes are all accepted and whose edges all
    resolve is returned as it is: the two conditions are exactly what the
    validation checks on the elements of the two arrays. *)
Lemma validate_accepts parsedData ns es :
  arrayOf parsedData "nodes" = Some ns ->
  arrayOf parsedData "edges" = Some es ->
  isArray (get parsedData "functions") = true ->
  Forall nodeAccepted ns ->
  Forall (edgeResolves (declaredIds ns)) es ->
  validate parsedData = inr parsedData.
Proof.
  unfold arrayOf, validate. intros Hns Hes Hfun Hnodes Hedges.
  destruct parsedData; try discriminate.
  destruct (get (JObj fields) "flowchart") as [fc|]; [|discriminate].
  destruct (get fc "nodes") as [[]|] eqn:Gn; try discriminate.
  destruct (get fc "edges") as [[]|] eqn:Ge; try discriminate.
  injection Hns as ->. injection Hes as ->.
  destruct fc; try discriminate.
  rewrite Hfun. cbn [truthy typeof_object isArray negb orb].
  now rewrite (mapNodes_accepted _ Hnodes), (checkEdges_resolving _ _ Hedges).
Qed.

(** The run up to the attempt that meets the bad payload. *)
Lemma run_until_violation provider script k e :
  (k < maxRetries)%nat ->
  (forall j, (j < k)%nat ->
     exists e', tryBlock (provider script j) = inl e' /\ isRateLimitError e' = true) ->
  tryBlock (provider script k) = inl e ->
  isRateLimitError e = false ->
  generateFlowFromScript provider script =
  Some {| outcome := surfaced e; delays := firstn k [2000; 4000]%Z; attempts := S k |}.
Proof.
  intros Hk Hprev Hlast Hrl.
  unfold generateFlowFromScript. change maxRetries with (S 2) at 1.
  unfold maxRetries in Hk.
  destruct k as [|[|[|k]]]; [| | |lia].
  - rewrite retryLoop_step by (unfold maxRetries; lia).
    rewrite Hlast, Hrl. reflexivity.
  - destruct (Hprev 0%nat ltac:(lia)) as (e0 & T0 & R0).
    rewrite retryLoop_step by (unfold maxRetries; lia).
    rewrite T0, R0. change (1 <? maxRetries)%nat with true. cbn [andb].
    rewrite retryLoop_step by (unfold maxRetries; lia).
    rewrite Hlast, Hrl. reflexivity.
  - destruct (Hprev 0%nat ltac:(lia)) as (e0 & T0 & R0).
    destruct (Hprev 1%nat ltac:(lia)) as (e1 & T1 & R1).
    rewrite retryLoop_step by (unfold maxRetries; lia).
    rewrite T0, R0. change (1 <? maxRetries)%nat with true. cbn [andb].
    rewrite retryLoop_step by (unfold maxRetries; lia).
    rewrite T1, R1. change (2 <? maxRetries)%nat with true. cbn [andb].
    rewrite retryLoop_step by (unfold maxRetries; lia).
    rewrite Hlast, Hrl. reflexivity.
Qed.

(** C1, as the code has it.  Take a payload in which some node is not an
    object with a string id, a string label and a type among start,
    process, decision, end (the strings may be empty), or in which some
    edge's source or target is not the id of a declared node.  Its
    validation throws an [Error].  When the message of that error does
    not contain 429, [generateFlowFromScript] makes no further attempt and
    throws [Failed to generate flowchart: ...]; [handleAnalyzeScript]
    then leaves [flowData] null, stores the message and clears the
    loading flag. *)
Theorem C1_violation_surfaces (provider : string -> nat -> attempt_outcome)
  (st : App.state) (k : nat) (p : json) :
  String_trim (App.script st) <> "" ->
  (k < maxRetries)%nat ->
  (forall j, (j < k)%nat ->
     exists e, tryBlock (provider (App.script st) j) = inl e /\
               isRateLimitError e = true) ->
  provider (App.script st) k = Parsed p ->
  violates nodeAccepted p ->
  exists msg,
    validate p = inl (ErrorObj msg) /\
    (includes msg "429" = false ->
     generateFlowFromScript provider (App.script st) =
       Some {| outcome := surfaced (ErrorObj msg);
               delays := firstn k [2000; 4000]%Z;
               attempts := S k |} /\
     exists st',
       App.handleAnalyzeScript provider st = Some st' /\
       App.flowData st' = None /\
       App.error st' =
         Some ("Failed to generate flowchart: " ++ finalErrorMessage (ErrorObj msg)) /\
       App.isLoading st' = false).
Proof.
  intros Hscript Hk Hprev Hp Hbad.
  destruct (validate_rejects p Hbad) as [msg Hmsg].
  exists msg. split; [exact Hmsg|]. intros H429.
  assert (Hrun : generateFlowFromScript provider (App.script st) =
                 Some {| outcome := surfaced (ErrorObj msg);
                         delays := firstn k [2000; 4000]%Z;
                         attempts := S k |}).
  { apply run_until_violation; auto.
    unfold tryBlock. rewrite Hp. exact Hmsg. }
  split; [exact Hrun|].
  unfold App.handleAnalyzeScript.
  apply String.eqb_neq in Hscript. rewrite Hscript, Hrun.
  cbn [outcome surfaced]. eexists. split; [reflexivity|].
  cbn. auto.
Qed.

End Validation.

(** The statement at a payload whose only edge starts at an undeclared
    node: the first answer is rejected for good and the diagram stays
    empty. *)
Lemma C1_violation_surfaces_witness :
  generateFlowFromScript (H := Samples.plainHost)
    (fun _ _ => Parsed Samples.danglingPayload) "The game starts." =
    Some {| outcome :=
              Threw "Failed to generate flowchart: Data integrity issue: Edge references a non-existent source node with ID 'b'.";
            delays := [];
            attempts := 1 |} /\
  exists st',
    App.handleAnalyzeScript (H := Samples.plainHost)
      (fun _ _ => Parsed Samples.danglingPayload)
      (Samples.appState "The game starts.") = Some st' /\
    App.flowData st' = None /\ App.isLoading st' = false.
Proof.
  destruct (C1_violation_surfaces (H := Samples.plainHost)
              (fun _ _ => Parsed Samples.danglingPayload)
              (Samples.appState "The game starts.") 0 Samples.danglingPayload)
    as (msg & Hmsg & Hrest).
  - discriminate.
  - unfold maxRetries. lia.
  - intros j Hj. lia.
  - reflexivity.
  - exists [Samples.node "a" "Begin" "start"], [Samples.edge "b" "a"].
    split; [reflexivity|]. split; [reflexivity|].
    right. apply Exists_cons_hd.
    intros (s & t & Hs & Ht & Ins & Int).
    vm_compute in Hs. injection Hs as <-.
    vm_compute in Ins. destruct Ins as [Heq|[]]. discriminate Heq.
  - vm_compute in Hmsg. injection Hmsg as <-.
    destruct (Hrest eq_refl) as (Hrun & st' & Hst & Hflow & _ & Hload).
    split; [exact Hrun|]. exists st'. auto.
Defined.

(** C1, as worded, fails: a node whose id and label are empty strings
    lacks a non-empty id, yet the payload is returned and becomes the
    diagram. *)
Lemma C1_empty_id_is_accepted :
  violates nodeWellFormed Samples.emptyIdPayload /\
  generateFlowFromScript (H := Samples.plainHost)
    (fun _ _ => Parsed Samples.emptyIdPayload) "The game starts." =
    Some {| outcome := Resolved Samples.emptyIdPayload; delays := []; attempts := 1 |} /\
  exists st',
    App.handleAnalyzeScript (H := Samples.plainHost)
      (fun _ _ => Parsed Samples.emptyIdPayload)
      (Samples.appState "The game starts.") = Some st' /\
    App.flowData st' <> None /\ App.error st' = None.
Proof.
  split; [|split].
  - exists [Samples.node "" "" "process"], [].
    split; [reflexivity|]. split; [reflexivity|].
    left. apply Exists_cons_hd.
    intros (id & label & ty & Hid & Hne & _).
    vm_compute in Hid. injection Hid as <-. now apply Hne.
  - vm_compute. reflexivity.
  - eexists. split; [vm_compute; reflexivity|].
    split; [discriminate|reflexivity].
Qed.

(** A validation error whose message quotes an id containing 429 is taken
    for a rate-limit signal: the provider is asked again, and a later
    answer can be returned. *)
Example validation_error_quoting_429_is_retried :
  generateFlowFromScript (H := Samples.plainHost)
    (fun _ n => match n with
                | 0%nat => Parsed Samples.dangling429Payload
                | _ => Parsed Samples.goodPayload
                end) "The game starts." =
  Some {| outcome := Resolved Samples.goodPayload; delays := [2000%Z]; attempts := 2 |}.
Proof. vm_compute. reflexivity. Qed.

End IngestionProperties.

(* ===================================================================== *)
(** ** Properties: layout adapter                                        *)
(* ===================================================================== *)

Module LayoutProperties.

Import Graphlib FlowChart.

#[local] Set Warnings "-clear-no-such-hyp".

Lemma ensureNode_present (m : gmap string (option NodeInput)) v :
  v ∈ dom m -> ensureNode NodeInput v m = m.
Proof.
  intros Hin. apply elem_of_dom in Hin as [o Ho].
  unfold ensureNode. now rewrite Ho.
Qed.

(** *** Nodes *)

Lemma addNodes_edges ns (g : InputGraph) :
  edgeValues (addNodes ns g) = edgeValues g /\
  edgeObjs (addNodes ns g) = edgeObjs g.
Proof.
  revert g. induction ns as [|n ns IH]; intros g; [easy|].
  cbn [addNodes foldl]. destruct (IH (setNode (Types.id n) (nodeInput n) g)) as [H1 H2].
  unfold addNodes in *. rewrite H1, H2. easy.
Qed.

Lemma addNodes_dom ns (g : InputGraph) :
  dom (nodeValues (addNodes ns g)) =
  list_to_set (map Types.id ns) ∪ dom (nodeValues g).
Proof.
  revert g. induction ns as [|n ns IH]; intros g.
  - cbn. set_solver.
  - cbn [addNodes foldl]. unfold addNodes in IH. rewrite IH.
    cbn [setNode nodeValues map list_to_set]. rewrite dom_insert_L. set_solver.
Qed.

Lemma addNodes_labelled ns (g : InputGraph) :
  map_Forall (fun _ o => is_Some o) (nodeValues g) ->
  map_Forall (fun _ o => is_Some o) (nodeValues (addNodes ns g)).
Proof.
  revert g. induction ns as [|n ns IH]; intros g Hg; [exact Hg|].
  cbn [addNodes foldl]. apply IH. cbn [setNode nodeValues].
  apply map_Forall_insert_2; [eauto|exact Hg].
Qed.

(** *** Edges *)

Lemma setEdge_keyed v w l (g : InputGraph) : keyed g -> keyed (setEdge v w l g).
Proof.
  unfold keyed, setEdge. intros Hk.
  destruct (edgeValues g !! edgeArgsToId v w) as [old|] eqn:He;
    cbn [edgeValues edgeObjs]; rewrite !dom_insert_L.
  - assert (edgeArgsToId v w ∈ dom (edgeValues g)) by (apply elem_of_dom; eauto).
    set_solver.
  - now rewrite Hk.
Qed.

Lemma setEdge_edgeIds v w l (g : InputGraph) :
  keyed g ->
  dom (edgeObjs (setEdge v w l g)) = {[ edgeArgsToId v w ]} ∪ dom (edgeObjs g).
Proof.
  unfold keyed, setEdge. intros Hk.
  destruct (edgeValues g !! edgeArgsToId v w) as [old|] eqn:He; cbn [edgeObjs].
  - assert (edgeArgsToId v w ∈ dom (edgeValues g)) by (apply elem_of_dom; eauto).
    set_solver.
  - now rewrite dom_insert_L.
Qed.

Lemma setEdge_nodes v w (l : option string) (g : InputGraph) :
  v ∈ dom (nodeValues g) -> w ∈ dom (nodeValues g) ->
  nodeValues (setEdge v w l g) = nodeValues g.
Proof.
  intros Hv Hw. unfold setEdge.
  destruct (edgeValues g !! edgeArgsToId v w); cbn [nodeValues]; [reflexivity|].
  rewrite (ensureNode_present _ v Hv). now apply ensureNode_present.
Qed.

Lemma addEdges_keyed es (g : InputGraph) : keyed g -> keyed (addEdges es g).
Proof.
  revert g. induction es as [|e es IH]; intros g Hk; [exact Hk|].
  cbn [addEdges foldl]. apply IH. now apply setEdge_keyed.
Qed.

Lemma addEdges_edgeIds es (g : InputGraph) :
  keyed g ->
  dom (edgeObjs (addEdges es g)) = list_to_set (map edgeKey es) ∪ dom (edgeObjs g).
Proof.
  revert g. induction es as [|e es IH]; intros g Hk.
  - cbn. set_solver.
  - cbn [addEdges foldl]. unfold addEdges in IH.
    rewrite IH by now apply setEdge_keyed.
    rewrite setEdge_edgeIds by exact Hk.
    cbn [map list_to_set]. unfold edgeKey. set_solver.
Qed.

Lemma addEdges_nodes es (g : InputGraph) :
  Forall (fun e => Types.source e ∈ dom (nodeValues g) /\
                   Types.target e ∈ dom (nodeValues g)) es ->
  nodeValues (addEdges es g) = nodeValues g.
Proof.
  revert g. induction es as [|e es IH]; intros g Hall; [reflexivity|].
  inversion Hall as [|? ? [Hs Ht] Hrest]; subst.
  cbn [addEdges foldl]. unfold addEdges in IH.
  assert (Hn : nodeValues (setEdge (Types.source e) (Types.target e)
                                   (Types.edgeLabel e) g) = nodeValues g)
    by now apply setEdge_nodes.
  rewrite IH; [exact Hn|]. now rewrite Hn.
Qed.

(** *** Edge keys *)

Lemma string_app_nil (t : string) : "" ++ t = t.
Proof. reflexivity. Qed.

Lemma string_app_cons c (s t : string) : String c s ++ t = String c (s ++ t).
Proof. reflexivity. Qed.

Lemma string_length_app s t :
  String.length (s ++ t) = (String.length s + String.length t)%nat.
Proof.
  induction s as [|c s IH]; [reflexivity|].
  rewrite string_app_cons. cbn [String.length]. now rewrite IH.
Qed.

Lemma string_app_inj_r s s' t : s ++ t = s' ++ t -> s = s'.
Proof.
  revert s'. induction s as [|c s IH]; intros [|c' s'] Heq.
  - reflexivity.
  - apply (f_equal String.length) in Heq.
    rewrite !string_length_app in Heq. cbn [String.length] in Heq. lia.
  - apply (f_equal String.length) in Heq.
    rewrite !string_length_app in Heq. cbn [String.length] in Heq. lia.
  - rewrite !string_app_cons in Heq. injection Heq as -> Heq.
    f_equal. now apply IH.
Qed.

Lemma split_at_delimiter a a' r r' :
  delimiterFree a = true -> delimiterFree a' = true ->
  a ++ EDGE_KEY_DELIM ++ r = a' ++ EDGE_KEY_DELIM ++ r' ->
  a = a' /\ r = r'.
Proof.
  unfold EDGE_KEY_DELIM.
  revert a'. induction a as [|c a IH]; intros [|c' a'] Ha Ha' Heq;
    cbn [delimiterFree] in Ha, Ha';
    rewrite ?string_app_cons, ?string_app_nil in Heq.
  - injection Heq as ->. auto.
  - injection Heq as <- _. apply andb_prop in Ha' as [Hc _].
    rewrite Ascii.eqb_refl in Hc. discriminate.
  - injection Heq as -> _. apply andb_prop in Ha as [Hc _].
    rewrite Ascii.eqb_refl in Hc. discriminate.
  - injection Heq as -> Heq.
    apply andb_prop in Ha as [_ Ha]. apply andb_prop in Ha' as [_ Ha'].
    rewrite <- (string_app_nil r), <- (string_app_nil r') in Heq.
    rewrite <- !string_app_cons in Heq.
    destruct (IH a' Ha Ha' Heq) as [-> ->]. auto.
Qed.

(** Two edges with delimiter-free sources have the same key only when
    they join the same pair of nodes. *)
Lemma edgeArgsToId_inj v w v' w' :
  delimiterFree v = true -> delimiterFree v' = true ->
  edgeArgsToId v w = edgeArgsToId v' w' -> v = v' /\ w = w'.
Proof.
  unfold edgeArgsToId. intros Hv Hv' Heq.
  destruct (split_at_delimiter _ _ _ _ Hv Hv' Heq) as [-> Hrest].
  split; [reflexivity|]. now apply string_app_inj_r in Hrest.
Qed.

Lemma NoDup_edgeKeys (es : list Types.EdgeData) :
  Forall (fun e => delimiterFree (Types.source e) = true) es ->
  NoDup (map endpoints es) -> NoDup (map edgeKey es).
Proof.
  induction es as [|e es IH]; intros Hfree Hnd; cbn [map] in *.
  - constructor.
  - inversion Hfree as [|? ? He Hes]; subst.
    apply NoDup_cons in Hnd as [Hnotin Hnd].
    apply NoDup_cons. split; [|now apply IH].
    intros Hin. apply Hnotin.
    apply list_elem_of_fmap in Hin as (e' & Hkey & Hin').
    apply list_elem_of_fmap. exists e'. split; [|exact Hin'].
    rewrite Forall_forall in Hes.
    destruct (edgeArgsToId_inj _ _ _ _ He (Hes e' Hin') Hkey) as [Hs Ht].
    unfold endpoints. now rewrite Hs, Ht.
Qed.

(** *** The graph of a valid Diagram *)

Lemma empty_keyed : keyed (empty : InputGraph).
Proof. reflexivity. Qed.

Lemma addNodes_keyed ns (g : InputGraph) : keyed g -> keyed (addNodes ns g).
Proof.
  unfold keyed. destruct (addNodes_edges ns g) as [-> ->]. auto.
Qed.

Lemma buildGraph_nodes data :
  validDiagram data ->
  nodeValues (buildGraph data) = nodeValues (addNodes (Types.nodes data) empty).
Proof.
  intros [_ Hedges]. unfold buildGraph. apply addEdges_nodes.
  eapply Forall_impl; [exact Hedges|].
  intros e [Hs Ht]. rewrite addNodes_dom.
  split; apply elem_of_union_l, elem_of_list_to_set, list_elem_of_In; assumption.
Qed.

Lemma buildGraph_nodeIds data :
  validDiagram data ->
  dom (nodeValues (buildGraph data)) = list_to_set (map Types.id (Types.nodes data)).
Proof.
  intros Hv. rewrite buildGraph_nodes by exact Hv.
  rewrite addNodes_dom. cbn. set_solver.
Qed.

Lemma buildGraph_labelled data :
  validDiagram data ->
  map_Forall (fun _ o => is_Some o) (nodeValues (buildGraph data)).
Proof.
  intros Hv. rewrite buildGraph_nodes by exact Hv.
  apply addNodes_labelled. apply map_Forall_empty.
Qed.

Lemma buildGraph_edgeIds data :
  dom (edgeObjs (buildGraph data)) = list_to_set (map edgeKey (Types.edges data)).
Proof.
  unfold buildGraph. rewrite addEdges_edgeIds by apply addNodes_keyed, empty_keyed.
  destruct (addNodes_edges (Types.nodes data) empty) as [_ ->]. cbn. set_solver.
Qed.

Section Oracle.
Context `{LayoutOracle}.

Lemma layout_nodeIds (g : InputGraph) : dom (nodeValues (layout g)) = dom (nodeValues g).
Proof.
  cbn [layout nodeValues]. apply dom_imap_L. intros v.
  rewrite elem_of_dom. split.
  - intros [o Ho]. exists o. split; [exact Ho|eauto].
  - intros (o & Ho & _). eauto.
Qed.

Lemma layout_labelled (g : InputGraph) :
  map_Forall (fun _ o => is_Some o) (nodeValues g) ->
  map_Forall (fun _ o => is_Some o) (nodeValues (layout g)).
Proof.
  intros Hg v o. cbn [layout nodeValues]. rewrite map_lookup_imap.
  destruct (nodeValues g !! v) as [i|] eqn:Hv; cbn; [|discriminate].
  intros [= <-]. destruct (Hg v i Hv) as [n ->]. cbn. eauto.
Qed.

(** C3, as the code has it.  For a valid Diagram with N nodes the adapter
    yields exactly N LayoutNodes, whose ids are the ids of the Diagram.
    The LayoutEdges are keyed by (source, target): their keys are the
    keys of the Diagram's edges, so there are exactly M of them when the
    M edges have distinct keys, in particular when no two edges join the
    same pair of nodes and no node id contains the delimiter U+0001. *)
Theorem C3_layout_counts (data : Types.FlowData) :
  validDiagram data ->
  layoutNodeCount (layoutAdapter data) = length (Types.nodes data) /\
  nodeIds (layoutAdapter data) = list_to_set (map Types.id (Types.nodes data)) /\
  edgeIds (layoutAdapter data) = list_to_set (map edgeKey (Types.edges data)) /\
  (NoDup (map edgeKey (Types.edges data)) ->
   layoutEdgeCount (layoutAdapter data) = length (Types.edges data)) /\
  (NoDup (map endpoints (Types.edges data)) ->
   Forall (fun n => delimiterFree (Types.id n) = true) (Types.nodes data) ->
   layoutEdgeCount (layoutAdapter data) = length (Types.edges data)).
Proof.
  intros Hvalid.
  assert (Hids : nodeIds (layoutAdapter data) =
                 list_to_set (map Types.id (Types.nodes data))).
  { unfold nodeIds, layoutAdapter. rewrite layout_nodeIds.
    now apply buildGraph_nodeIds. }
  assert (Hkeys : edgeIds (layoutAdapter data) =
                  list_to_set (map edgeKey (Types.edges data))).
  { unfold edgeIds, layoutAdapter. cbn [layout edgeObjs].
    apply buildGraph_edgeIds. }
  assert (Hcount : NoDup (map edgeKey (Types.edges data)) ->
                   layoutEdgeCount (layoutAdapter data) = length (Types.edges data)).
  { intros Hnd. unfold layoutEdgeCount.
    rewrite <- size_dom. fold (edgeIds (layoutAdapter data)). rewrite Hkeys.
    rewrite size_list_to_set by exact Hnd. apply length_map. }
  split; [|split; [exact Hids|split; [exact Hkeys|split; [exact Hcount|]]]].
  - unfold layoutNodeCount. rewrite <- size_dom.
    fold (nodeIds (layoutAdapter data)). rewrite Hids.
    destruct Hvalid as [Hnd _].
    rewrite size_list_to_set by exact Hnd. apply length_map.
  - intros Hpairs Hfree. apply Hcount. apply NoDup_edgeKeys; [|exact Hpairs].
    destruct Hvalid as [_ Hedges].
    rewrite Forall_forall in Hedges. rewrite Forall_forall in Hfree.
    apply Forall_forall.
    intros e He. destruct (Hedges e He) as [Hsrc _].
    apply list_elem_of_In, list_elem_of_fmap in Hsrc as (n & -> & Hn). auto.
Qed.

End Oracle.

Lemma chain_valid : validDiagram Samples.chain.
Proof.
  split.
  - apply (bool_decide_unpack _). vm_compute. exact I.
  - repeat (constructor; [cbn; tauto|]). constructor.
Qed.

(** The statement at a three-node chain. *)
Lemma C3_layout_counts_witness :
  layoutNodeCount (layoutAdapter (H := Samples.flatOracle) Samples.chain) = 3%nat /\
  nodeIds (layoutAdapter (H := Samples.flatOracle) Samples.chain) =
    list_to_set ["a"; "b"; "c"] /\
  layoutEdgeCount (layoutAdapter (H := Samples.flatOracle) Samples.chain) = 2%nat.
Proof.
  destruct (C3_layout_counts (H := Samples.flatOracle) Samples.chain chain_valid)
    as (Hn & Hids & _ & Hm & _).
  split; [exact Hn|]. split; [exact Hids|].
  apply Hm. apply (bool_decide_unpack _). vm_compute. exact I.
Defined.

(** C3, as worded, fails: a valid Diagram with two edges from a to b has
    M = 2 edges but a single LayoutEdge. *)
Lemma C3_parallel_edges_collapse :
  validDiagram Samples.parallelEdges /\
  length (Types.edges Samples.parallelEdges) = 2%nat /\
  layoutEdgeCount (layoutAdapter (H := Samples.flatOracle) Samples.parallelEdges) = 1%nat.
Proof.
  split; [|split].
  - split.
    + apply (bool_decide_unpack _). vm_compute. exact I.
    + repeat (constructor; [cbn; tauto|]). constructor.
  - reflexivity.
  - vm_compute. reflexivity.
Qed.

End LayoutProperties.

(* ===================================================================== *)
(** ** Properties: export geometry                                       *)
(* ===================================================================== *)

Module ExportProperties.

Import FlowChart.

Local Open Scope Q_scope.

(** C5.  For every bounding box, the SVG export (scale 1) and the raster
    export (scale 2) produce a document of size ((w + 40) s, (h + 40) s)
    whose content group is translated by ((-x + 20) s, (-y + 20) s); the
    box lands 20 s inside the document on every side. *)
Theorem C5_export_padding (bbox : BBox) :
  (exists doc, getSVGString (Some bbox) = Some doc /\ paddedAt bbox 1 doc) /\
  paddedAt bbox 2 (createCanvasFromSVG bbox rasterScale).
Proof.
  split.
  - eexists. split; [reflexivity|].
    unfold paddedAt, placed, padding; cbn.
    repeat split; ring.
  - unfold paddedAt, placed, createCanvasFromSVG, rasterScale, padding; cbn.
    repeat split; ring.
Qed.

Lemma Qgtb_true a b : Qgtb a b = true <-> b < a.
Proof.
  unfold Qgtb. rewrite negb_true_iff.
  split.
  - intros Hle. apply Qnot_le_lt. intros Hab.
    apply Qle_bool_iff in Hab. congruence.
  - intros Hlt. destruct (Qle_bool a b) eqn:Hle; [|reflexivity].
    apply Qle_bool_iff in Hle. exfalso. eapply Qlt_not_le; eauto.
Qed.

Lemma Qgtb_false a b : Qgtb a b = false <-> a <= b.
Proof.
  unfold Qgtb. rewrite negb_false_iff. apply Qle_bool_iff.
Qed.

Lemma ratio_positive (canvas : HTMLCanvas) :
  (0 < canvas_width canvas)%Z -> (0 < canvas_height canvas)%Z ->
  0 < canvasAspectRatio canvas.
Proof.
  intros Hw Hh. unfold canvasAspectRatio.
  apply Qlt_shift_div_l.
  - change 0 with (inject_Z 0). now rewrite <- Zlt_Qlt.
  - rewrite Qmult_0_l. change 0 with (inject_Z 0). now rewrite <- Zlt_Qlt.
Qed.

(** The two cases of the fit, for a usable area [uw] x [uh]. *)
Lemma fit_within (uw uh r : Q) :
  0 < uw -> 0 < uh -> 0 < r ->
  let iw := if Qgtb (uw / r) uh then uh * r else uw in
  let ih := if Qgtb (uw / r) uh then uh else uw / r in
  0 < ih /\ iw / ih == r /\ iw <= uw /\ ih <= uh.
Proof.
  intros Huw Huh Hr. cbv zeta.
  assert (Hr0 : ~ r == 0) by (intros E; rewrite E in Hr; now apply Qlt_irrefl in Hr).
  assert (Hdiv : 0 < uw / r) by (apply Qlt_shift_div_l; [exact Hr|now rewrite Qmult_0_l]).
  destruct (Qgtb (uw / r) uh) eqn:Hcase.
  - apply Qgtb_true in Hcase.
    assert (Huh0 : ~ uh == 0) by (intros E; rewrite E in Huh; now apply Qlt_irrefl in Huh).
    repeat split.
    + exact Huh.
    + field. exact Huh0.
    + apply Qlt_le_weak.
      apply (Qmult_lt_compat_r _ _ r Hr) in Hcase.
      assert (E : uw / r * r == uw) by (field; exact Hr0).
      rewrite E in Hcase.
      exact Hcase.
    + apply Qle_refl.
  - apply Qgtb_false in Hcase.
    assert (Huw0 : ~ uw == 0) by (intros E; rewrite E in Huw; now apply Qlt_irrefl in Huw).
    repeat split.
    + exact Hdiv.
    + field. split; assumption.
    + apply Qle_refl.
    + exact Hcase.
Qed.

(** C6.  Fit-to-page export of a canvas with positive width and height:
    the page is landscape exactly when the width of the canvas divided
    by its height is above 1; it measures 297 x 210 mm in landscape and
    210 x 297 mm in portrait; the width of the image divided by its
    height is the width of the canvas divided by its height; the image
    fits in the page minus 10 mm on every side, and is centred. *)
Theorem C6_fit_to_page (canvas : HTMLCanvas) :
  (0 < canvas_width canvas)%Z -> (0 < canvas_height canvas)%Z ->
  let page := handleExportPDF true canvas in
  (orientation page = Landscape <->
   1 < inject_Z (canvas_width canvas) / inject_Z (canvas_height canvas)) /\
  match orientation page with
  | Landscape => pageWidth page = 297 /\ pageHeight page = 210
  | Portrait => pageWidth page = 210 /\ pageHeight page = 297
  end /\
  0 < imgHeight page /\
  imgWidth page / imgHeight page ==
    inject_Z (canvas_width canvas) / inject_Z (canvas_height canvas) /\
  imgWidth page <= pageWidth page - 2 * 10 /\
  imgHeight page <= pageHeight page - 2 * 10 /\
  image_x page == (pageWidth page - imgWidth page) / 2 /\
  image_y page == (pageHeight page - imgHeight page) / 2.
Proof.
  intros Hw Hh. cbv zeta.
  pose proof (ratio_positive canvas Hw Hh) as Hr.
  change (inject_Z (canvas_width canvas) / inject_Z (canvas_height canvas))
    with (canvasAspectRatio canvas).
  unfold handleExportPDF, fitToPage.
  set (r := canvasAspectRatio canvas) in *.
  destruct (Qgtb r 1) eqn:Hland.
  - pose proof (fit_within (A4_HEIGHT_MM - PADDING_MM * 2)
                           (A4_WIDTH_MM - PADDING_MM * 2) r
                           ltac:(reflexivity) ltac:(reflexivity) Hr) as Hfit.
    cbv zeta in Hfit.
    destruct (Qgtb ((A4_HEIGHT_MM - PADDING_MM * 2) / r)
                   (A4_WIDTH_MM - PADDING_MM * 2));
      cbn [orientation pageWidth pageHeight imgWidth imgHeight image_x image_y];
      destruct Hfit as (H1 & H2 & H3 & H4);
      (split; [split; [intros _; now apply Qgtb_true|reflexivity]|]);
      (split; [split; reflexivity|]);
      repeat split; try assumption; try reflexivity.
  - pose proof (fit_within (A4_WIDTH_MM - PADDING_MM * 2)
                           (A4_HEIGHT_MM - PADDING_MM * 2) r
                           ltac:(reflexivity) ltac:(reflexivity) Hr) as Hfit.
    cbv zeta in Hfit.
    destruct (Qgtb ((A4_WIDTH_MM - PADDING_MM * 2) / r)
                   (A4_HEIGHT_MM - PADDING_MM * 2));
      cbn [orientation pageWidth pageHeight imgWidth imgHeight image_x image_y];
      destruct Hfit as (H1 & H2 & H3 & H4);
      (split; [split; [discriminate|
                       intros Hgt; apply Qgtb_true in Hgt; congruence]|]);
      (split; [split; reflexivity|]);
      repeat split; try assumption; try reflexivity.
Qed.

(** The statement at a 600 x 400 canvas: landscape, image 277 mm wide. *)
Lemma C6_fit_to_page_witness :
  let page := handleExportPDF true {| canvas_width := 600; canvas_height := 400 |} in
  orientation page = Landscape /\
  imgWidth page <= 297 - 2 * 10 /\ imgHeight page <= 210 - 2 * 10 /\
  imgWidth page / imgHeight page == inject_Z 600 / inject_Z 400.
Proof.
  destruct (C6_fit_to_page {| canvas_width := 600; canvas_height := 400 |}
              ltac:(reflexivity) ltac:(reflexivity))
    as (Hor & _ & _ & Hratio & Hw & Hh & _).
  cbv zeta. split; [apply Hor; reflexivity|].
  split; [exact Hw|]. split; [exact Hh|].
  exact Hratio.
Defined.

End ExportProperties.

(* ===================================================================== *)
(** ** Properties: style state                                           *)
(* ===================================================================== *)

Module StyleProperties.

Import FlowChart.

(** A fresh location is not allocated. *)
Lemma fresh_unallocated (h : gmap loc object) : h !! fresh (dom h) = None.
Proof. apply not_elem_of_dom, is_fresh. Qed.

(** [handleStyleChange] only allocates: every object of the heap is still
    there, unchanged. *)
Lemma handleStyleChange_extends nodeType property val st :
  heap st ⊆ heap (handleStyleChange nodeType property val st).
Proof.
  unfold handleStyleChange. cbn [heap].
  etransitivity; [|apply insert_subseteq, fresh_unallocated].
  apply insert_subseteq, fresh_unallocated.
Qed.

Lemma applyOp_extends st op : heap st ⊆ heap (applyOp st op).
Proof.
  destruct op; cbn [applyOp]; unfold fontSizeChange;
    auto using handleStyleChange_extends.
Qed.

Lemma applyOps_extends ops st : heap st ⊆ heap (applyOps ops st).
Proof.
  revert st. induction ops as [|op ops IH]; intros st; [reflexivity|].
  cbn [applyOps foldl]. etransitivity; [apply applyOp_extends|apply IH].
Qed.

(** Reading through a reference gives the same object in a larger heap. *)
Lemma fieldsAt_weaken (h h' : gmap loc object) l :
  h ⊆ h' -> is_Some (h !! l) -> fieldsAt h' l = fieldsAt h l.
Proof.
  intros Hsub [o Ho]. unfold fieldsAt.
  now rewrite (lookup_weaken _ _ _ _ Ho Hsub), Ho.
Qed.

Lemma entriesAt_weaken (h h' : gmap loc object) l :
  h ⊆ h' -> is_Some (h !! l) -> entriesAt h' l = entriesAt h l.
Proof.
  intros Hsub [o Ho]. unfold entriesAt.
  now rewrite (lookup_weaken _ _ _ _ Ho Hsub), Ho.
Qed.

(** Every reference held by the default StyleSet points into the module
    heap. *)
Lemma default_entries_allocated :
  map_Forall (fun _ l => is_Some (moduleHeap !! l))
             (entriesAt moduleHeap defaultNodeStyles).
Proof. apply (bool_decide_unpack _). vm_compute. exact I. Qed.

(** C7.  After any sequence of Style Editor operations, reset followed by
    a read of the StyleSet yields the built-in defaults, and the objects
    of the built-in defaults are still in the heap as they were: no
    operation writes into them. *)
Theorem C7_reset_restores_defaults (ops : list styleOp) :
  readStyles (reset (applyOps ops initialStyles)) = readStyles initialStyles /\
  moduleHeap ⊆ heap (applyOps ops initialStyles).
Proof.
  assert (Hsub : moduleHeap ⊆ heap (applyOps ops initialStyles))
    by apply (applyOps_extends ops initialStyles).
  split; [|exact Hsub].
  unfold readStyles, reset. cbn [heap customNodeStyles initialStyles].
  rewrite (entriesAt_weaken moduleHeap) by (exact Hsub || (vm_compute; eauto)).
  apply map_fmap_ext. intros k l Hk.
  apply fieldsAt_weaken; [exact Hsub|].
  exact (default_entries_allocated k l Hk).
Qed.

(** The defaults read as the source writes them. *)
Example default_process_style :
  readStyles initialStyles !! "process" =
  Some (mkStyle "#38bdf8" "#2563eb" "#1d4ed8" "#ffffff" 14).
Proof. vm_compute. reflexivity. Qed.

(** A change is visible before the reset, so the round trip is not
    vacuous. *)
Example change_is_visible :
  fontSizeOf (applyOps [Change "process" "fontSize" (VNum 20)] initialStyles) "process"
    = Some (VNum 20) /\
  fontSizeOf (reset (applyOps [Change "process" "fontSize" (VNum 20)] initialStyles))
             "process" = Some (VNum 14).
Proof. split; vm_compute; reflexivity. Qed.

(** Every default font size is within the announced range. *)
Lemma default_font_sizes_in_range :
  map_Forall (fun _ fields =>
                exists v, fields !! "fontSize" = Some v /\ fontSizeInRange v = true)
             (readStyles initialStyles).
Proof.
  intros k fields Hk.
  assert (Hdec : map_Forall (fun _ fields =>
                   match fields !! "fontSize" with
                   | Some v => fontSizeInRange v
                   | None => false
                   end = true) (readStyles initialStyles)).
  { apply (bool_decide_unpack _). vm_compute. exact I. }
  specialize (Hdec k fields Hk). cbv beta in Hdec.
  destruct (fields !! "fontSize") as [v|]; [eauto|discriminate].
Qed.

(** C8 fails on the code: the font-size field hands [parseInt] of what was
    typed to [handleStyleChange] unclamped.  Typing 100 stores 100, and
    clearing the field stores NaN; neither is an integer in [8, 24]. *)
Theorem C8_font_size_not_clamped :
  fontSizeOf (fontSizeChange "process" "100" initialStyles) "process"
    = Some (VNum 100) /\
  fontSizeInRange (VNum 100) = false /\
  fontSizeOf (fontSizeChange "process" "" initialStyles) "process" = Some VNaN /\
  fontSizeInRange VNaN = false.
Proof. repeat split; vm_compute; reflexivity. Qed.

End StyleProperties.

(* ===================================================================== *)
(** ** Properties: word wrap                                             *)
(* ===================================================================== *)

Module WrapProperties.

Import FlowChart.

Local Open Scope Q_scope.

Section Wrap.
Variable getComputedTextLength : ustring -> Q.
Variable width : Q.

(** The lines hold, in order, the words the loop has seen: nothing is
    lost or reordered between the pieces of the split and the tspans. *)
Lemma wrapLoop_concat words line finished :
  concat (wrapLoop getComputedTextLength width words line finished) =
  (concat finished ++ line ++ leadingWords words)%list.
Proof.
  revert line finished.
  induction words as [|word rest IH]; intros line finished; cbn [wrapLoop leadingWords].
  - rewrite concat_app. cbn. now rewrite !app_nil_r.
  - destruct (is_empty word).
    + rewrite concat_app. cbn. now rewrite !app_nil_r.
    + destruct (Qgtb _ _ && _).
      * rewrite IH, concat_app. cbn. now rewrite app_nil_r, <- app_assoc.
      * rewrite IH. now rewrite <- app_assoc.
Qed.

(** When no prefix of the words is wider than the limit, there is no
    break. *)
Lemma wrapLoop_fits words line finished :
  (forall n,
     Qgtb (getComputedTextLength
             (join_space (line ++ firstn (S n) (leadingWords words))))
          width = false) ->
  wrapLoop getComputedTextLength width words line finished =
  (finished ++ [line ++ leadingWords words])%list.
Proof.
  revert line.
  induction words as [|word rest IH]; intros line Hfit; cbn [wrapLoop leadingWords].
  - now rewrite app_nil_r.
  - destruct (is_empty word) eqn:Hword.
    + now rewrite app_nil_r.
    + pose proof (Hfit 0%nat) as H0. cbn [leadingWords] in H0.
      rewrite Hword in H0. cbn [firstn] in H0. rewrite firstn_O in H0.
      rewrite H0. cbn [andb].
      rewrite IH.
      * now rewrite <- app_assoc.
      * intros n. specialize (Hfit (S n)). cbn [leadingWords] in Hfit.
        rewrite Hword in Hfit. cbn [firstn] in Hfit.
        now rewrite <- app_assoc.
Qed.

End Wrap.

(** *** What the split produces *)

Lemma split_from_tidy (s cur : ustring) (in_ws : bool) :
  (if in_ws then cur = [] else cur <> []) ->
  tidy (split_from cur in_ws s).
Proof.
  revert cur in_ws. induction s as [|c rest IH]; intros cur in_ws Hcur;
    cbn [split_from].
  - constructor.
  - destruct (is_ws c).
    + destruct in_ws.
      * now apply IH.
      * apply tidy_cons; [|now apply IH].
        destruct cur as [|x cur]; [contradiction|].
        cbn [rev]. now destruct (rev cur).
    + apply IH. discriminate.
Qed.

Lemma tidy_leadingWords pieces :
  tidy pieces -> leadingWords pieces = filter (fun w => negb (is_empty w)) pieces.
Proof.
  induction 1 as [piece|piece rest Hpiece Htidy IH]; cbn [leadingWords filter].
  - cbn. now destruct (is_empty piece).
  - cbn. rewrite Hpiece. cbn. now rewrite IH.
Qed.

(** A label that does not begin with white space loses no word. *)
Lemma leadingWords_split (c : N) (rest : ustring) :
  is_ws c = false -> leadingWords (split_ws (c :: rest)) = words_of (c :: rest).
Proof.
  intros Hc. unfold words_of. apply tidy_leadingWords.
  unfold split_ws. cbn [split_from]. rewrite Hc.
  apply split_from_tidy. discriminate.
Qed.

(** For a label that does not begin with white space, the words on the
    lines, read in order, are the words of the label. *)
Lemma wrapLines_keeps_words measure width (c : N) (rest : ustring) :
  is_ws c = false ->
  concat (wrapLines measure width (c :: rest)) = words_of (c :: rest).
Proof.
  intros Hc. unfold wrapLines. rewrite wrapLoop_concat. cbn.
  now apply leadingWords_split.
Qed.

(** A label none of whose word prefixes is wider than the limit stays on
    one line. *)
Lemma wrapLines_one_line measure width (text : ustring) :
  (forall n,
     Qgtb (measure (join_space (firstn (S n) (leadingWords (split_ws text)))))
          width = false) ->
  wrapLines measure width text = [leadingWords (split_ws text)].
Proof.
  intros Hfit. unfold wrapLines. now rewrite wrapLoop_fits.
Qed.

(** A label that begins with white space is rendered as one empty line,
    whatever it contains and however wide it is. *)
Lemma wrapLines_leading_space measure width (c : N) (rest : ustring) :
  is_ws c = true -> wrapLines measure width (c :: rest) = [[]].
Proof.
  intros Hc. unfold wrapLines, split_ws. cbn [split_from]. rewrite Hc.
  reflexivity.
Qed.

(** C4 fails on the code for a label that begins with white space: the
    split yields an empty first piece, the loop stops on it, and the one
    tspan stays empty.  With ten units per character the label below is
    wider than 150 - 25, has three words, and none of them is rendered. *)
Theorem C4_leading_space_drops_words :
  Qgtb (Samples.tenPerUnit Samples.indentedLabel) (NODE_WIDTH - 25) = true /\
  words_of Samples.indentedLabel = [units "alpha"; units "beta"; units "gamma"] /\
  wrapLines Samples.tenPerUnit (NODE_WIDTH - 25) Samples.indentedLabel = [[]] /\
  wrapText Samples.tenPerUnit (NODE_WIDTH - 25) Samples.indentedLabel = [[]].
Proof. repeat split; vm_compute; reflexivity. Qed.

(** The same label without the leading space wraps at a space and keeps
    its words. *)
Example plain_label_wraps :
  wrapText Samples.tenPerUnit (NODE_WIDTH - 25) Samples.plainLabel =
  [units "alpha beta"; units "gamma"].
Proof. vm_compute. reflexivity. Qed.

End WrapProperties.

(* ===================================================================== *)
(** ** Properties: repaint and view                                      *)
(* ===================================================================== *)

Module ViewProperties.

Import Graphlib FlowChart LayoutProperties StyleProperties ExportProperties.

Local Open Scope Q_scope.

(** The state cell always refers to an allocated object. *)
Lemma applyOps_allocated ops :
  is_Some (heap (applyOps ops initialStyles)
             !! customNodeStyles (applyOps ops initialStyles)).
Proof.
  induction ops as [|op ops IH] using rev_ind.
  - vm_compute. eauto.
  - unfold applyOps in *. rewrite foldl_app. cbn [foldl].
    set (st := foldl applyOp initialStyles ops) in *.
    destruct op; cbn [applyOp]; unfold fontSizeChange.
    + unfold handleStyleChange. cbn [heap customNodeStyles].
      rewrite lookup_insert_eq. eauto.
    + unfold handleStyleChange. cbn [heap customNodeStyles].
      rewrite lookup_insert_eq. eauto.
    + cbn [reset heap customNodeStyles].
      assert (Hsub : moduleHeap ⊆ heap st) by apply (applyOps_extends ops initialStyles).
      assert (Hd : is_Some (moduleHeap !! defaultNodeStyles)) by (vm_compute; eauto).
      destruct Hd as [o Ho]. rewrite (lookup_weaken _ _ _ _ Ho Hsub). eauto.
Qed.

(** [handleStyleChange] always yields a new object: the dependency array
    differs. *)
Lemma handleStyleChange_new_reference nodeType property val st :
  is_Some (heap st !! customNodeStyles st) ->
  customNodeStyles (handleStyleChange nodeType property val st) <> customNodeStyles st.
Proof.
  intros Halloc. unfold handleStyleChange. cbn [customNodeStyles].
  set (h1 := <[fresh (dom (heap st)) := _]> (heap st)).
  intros Heq.
  assert (Hin : customNodeStyles st ∈ dom h1).
  { subst h1. rewrite dom_insert_L. apply elem_of_union_r, elem_of_dom, Halloc. }
  rewrite <- Heq in Hin. exact (is_fresh (dom h1) Hin).
Qed.

Section Oracle.
Context `{LayoutOracle}.

(** Painting the graph of a valid Diagram does not throw. *)
Lemma paint_valid data :
  validDiagram data -> exists c, paint (layoutAdapter data) = Some c.
Proof.
  intros Hvalid. unfold paint, layoutAdapter.
  rewrite bool_decide_eq_true_2; [eauto|].
  now apply layout_labelled, buildGraph_labelled.
Qed.

Lemma effect_fits data cw ch before :
  validDiagram data -> Types.nodes data <> [] ->
  0 < graph_width (buildGraph data) -> 0 < graph_height (buildGraph data) ->
  exists c,
    paint (layoutAdapter data) = Some c /\
    effect (Some data) cw ch before =
    Some {| canvas := Some c;
            view := onZoom (autoFit cw ch (graph_width (buildGraph data))
                                          (graph_height (buildGraph data))) |}.
Proof.
  intros Hvalid Hnodes Hw Hh.
  destruct (paint_valid data Hvalid) as [c Hc].
  exists c. split; [exact Hc|].
  unfold effect. destruct (Types.nodes data) as [|n ns]; [contradiction|].
  unfold layoutAdapter in Hc. rewrite Hc.
  unfold Qpositive.
  apply Qgtb_true in Hw, Hh. rewrite Hw, Hh. reflexivity.
Qed.

(** The object a field change leaves in the state cell is never the
    module's default StyleSet. *)
Lemma handleStyleChange_not_default nodeType property val st :
  moduleHeap ⊆ heap st ->
  customNodeStyles (handleStyleChange nodeType property val st) <> defaultNodeStyles.
Proof.
  intros Hsub. unfold handleStyleChange. cbn [customNodeStyles].
  set (h1 := <[fresh (dom (heap st)) := _]> (heap st)).
  intros Heq.
  assert (Hd : is_Some (moduleHeap !! defaultNodeStyles)) by (vm_compute; eauto).
  destruct Hd as [o Ho].
  assert (Hin : defaultNodeStyles ∈ dom h1).
  { subst h1. rewrite dom_insert_L. apply elem_of_union_r, elem_of_dom.
    rewrite (lookup_weaken _ _ _ _ Ho Hsub). eauto. }
  rewrite <- Heq in Hin. exact (is_fresh (dom h1) Hin).
Qed.

(** Every operation of the Style Editor that changes the StyleSet puts
    another object in the state cell: a change of a field always, a
    reset whenever the operation before it was a change of a field. *)
Lemma applyOp_new_reference (ops : list styleOp) (op : styleOp) :
  op <> Reset \/ (exists earlier change, ops = (earlier ++ [change])%list /\ change <> Reset) ->
  customNodeStyles (applyOp (applyOps ops initialStyles) op)
    <> customNodeStyles (applyOps ops initialStyles).
Proof.
  intros Hchange.
  destruct op as [nodeType property val|nodeType raw|].
  - apply handleStyleChange_new_reference, applyOps_allocated.
  - cbn [applyOp]. unfold fontSizeChange.
    apply handleStyleChange_new_reference, applyOps_allocated.
  - destruct Hchange as [Hop|(earlier & change & -> & Hchange)]; [contradiction|].
    cbn [applyOp reset customNodeStyles].
    unfold applyOps. rewrite foldl_app. cbn [foldl].
    fold (applyOps earlier initialStyles).
    pose proof (applyOps_extends earlier initialStyles) as Hsub.
    cbn [heap initialStyles] in Hsub.
    apply not_eq_sym.
    destruct change as [nodeType property val|nodeType raw|]; [| |contradiction];
      cbn [applyOp]; unfold fontSizeChange;
      now apply handleStyleChange_not_default.
Qed.

(** A reset while the default StyleSet is in place sets the state cell
    to the object it holds: the dependency array is the same and the
    effect does not run. *)
Lemma reset_at_defaults_is_idle (st : StyleState)
  (data : option Types.FlowData) (cw ch : Q) (before : Painted) :
  customNodeStyles st = defaultNodeStyles ->
  snd (restyle Reset st data cw ch before) = Some before.
Proof.
  intros Hdefault. unfold restyle. cbn [snd applyOp reset customNodeStyles].
  unfold afterRender. rewrite Hdefault, Pos.eqb_refl. reflexivity.
Qed.

(** C9, as the code has it.  With a valid, non-empty Diagram whose laid
    out graph has positive width and height, every operation of the
    Style Editor that changes the StyleSet (a change of a field, or a
    reset after a change of a field) re-runs the whole effect: the
    canvas is repainted and the view becomes the auto-fit transform,
    whatever view was set before.  The same auto-fit runs when the
    effect paints a new Diagram. *)
Theorem C9_restyle_refits (ops : list styleOp) (op : styleOp)
  (data : Types.FlowData) (cw ch : Q) (before : Painted) :
  op <> Reset \/ (exists earlier change, ops = (earlier ++ [change])%list /\ change <> Reset) ->
  validDiagram data -> Types.nodes data <> [] ->
  0 < graph_width (buildGraph data) -> 0 < graph_height (buildGraph data) ->
  exists c,
    paint (layoutAdapter data) = Some c /\
    snd (restyle op (applyOps ops initialStyles) (Some data) cw ch before) =
      Some {| canvas := Some c;
              view := onZoom (autoFit cw ch (graph_width (buildGraph data))
                                            (graph_height (buildGraph data))) |} /\
    forall stylesBefore stylesAfter,
      afterRender true stylesBefore stylesAfter (Some data) cw ch before =
      Some {| canvas := Some c;
              view := onZoom (autoFit cw ch (graph_width (buildGraph data))
                                            (graph_height (buildGraph data))) |}.
Proof.
  intros Hop Hvalid Hnodes Hw Hh.
  destruct (effect_fits data cw ch (view before) Hvalid Hnodes Hw Hh) as (c & Hc & He).
  exists c. split; [exact Hc|]. split.
  - unfold restyle. cbn [snd]. unfold afterRender. cbn [orb].
    pose proof (applyOp_new_reference ops op Hop) as Hnew.
    apply not_eq_sym, Pos.eqb_neq in Hnew. rewrite Hnew. cbn [negb]. exact He.
  - intros sb sa. unfold afterRender. cbn [orb]. exact He.
Qed.

End Oracle.

(** The statement at the three-node chain in an 800 x 600 container,
    for a reset that follows a colour change: the view after the reset
    is the fit at scale 3/2, not the one the user had set. *)
Lemma C9_restyle_refits_witness :
  exists c,
    snd (restyle (H := Samples.flatOracle) Reset
           (applyOps [Change "process" "color1" (VStr "#000000")] initialStyles)
           (Some Samples.chain) 800 600
           {| canvas := None; view := onZoom Samples.userTransform |}) =
    Some {| canvas := Some c; view := onZoom (autoFit 800 600 150 60) |}.
Proof.
  destruct (C9_restyle_refits (H := Samples.flatOracle)
              [Change "process" "color1" (VStr "#000000")] Reset
              Samples.chain 800 600
              {| canvas := None; view := onZoom Samples.userTransform |}
              ltac:(right; exists [], (Change "process" "color1" (VStr "#000000"));
                    split; [reflexivity|discriminate])
              chain_valid ltac:(discriminate)
              ltac:(reflexivity) ltac:(reflexivity))
    as (c & _ & Hrestyle & _).
  exists c. exact Hrestyle.
Defined.

(** C9, as worded, fails: the user has zoomed to scale 3; a colour change
    with the same Diagram repaints the same canvas and replaces that view
    by the auto-fit one. *)
Lemma C9_restyle_resets_view :
  exists painted repainted,
    effect (H := Samples.flatOracle) (Some Samples.chain) 800 600 Samples.initialView
      = Some painted /\
    snd (restyle (H := Samples.flatOracle)
           (Change "process" "color1" (VStr "#000000")) initialStyles
           (Some Samples.chain) 800 600
           {| canvas := canvas painted; view := onZoom Samples.userTransform |})
      = Some repainted /\
    canvas repainted = canvas painted /\
    view repainted <> onZoom Samples.userTransform.
Proof.
  eexists. eexists.
  split; [vm_compute; reflexivity|].
  split; [vm_compute; reflexivity|].
  split; [reflexivity|].
  cbn. intros [=].
Qed.

End ViewProperties.

(* ===================================================================== *)
(** ** Properties: drag                                                  *)
(* ===================================================================== *)

Module DragProperties.

Import Graphlib FlowChart.

Local Open Scope Q_scope.

Lemma incident_true nodeId e :
  incident nodeId e = true <-> v e = nodeId \/ w e = nodeId.
Proof.
  unfold incident. rewrite orb_true_iff, !String.eqb_eq. tauto.
Qed.

Lemma center_moved (views : gmap string NodeView) nodeId n ex ey :
  center (<[nodeId := moveNode n ex ey]> views) nodeId = Some {| px := ex; py := ey |}.
Proof. unfold center. now rewrite lookup_insert_eq. Qed.

Lemma center_is_Some (views : gmap string NodeView) id :
  is_Some (views !! id) -> exists p, center views id = Some p.
Proof. intros [n Hn]. unfold center. rewrite Hn. cbn. eauto. Qed.

Lemma insert_keeps_Some (views : gmap string NodeView) nodeId n id :
  is_Some (views !! id) -> is_Some (<[nodeId := n]> views !! id).
Proof.
  intros Hid. destruct (decide (nodeId = id)) as [->|Hne].
  - rewrite lookup_insert_eq. eauto.
  - now rewrite lookup_insert_ne.
Qed.

(** *** Painted canvases are well formed *)

Lemma ensureNode_keeps (m : gmap string (option NodeInput)) a id :
  is_Some (m !! id) -> is_Some (ensureNode NodeInput a m !! id).
Proof.
  intros Hid. unfold ensureNode. destruct (m !! a) eqn:Ha; [exact Hid|].
  destruct (decide (a = id)) as [->|Hne].
  - rewrite lookup_insert_eq. eauto.
  - now rewrite lookup_insert_ne.
Qed.

Lemma ensureNode_has (m : gmap string (option NodeInput)) a :
  is_Some (ensureNode NodeInput a m !! a).
Proof.
  unfold ensureNode. destruct (m !! a) eqn:Ha.
  - rewrite Ha. eauto.
  - rewrite lookup_insert_eq. eauto.
Qed.

Lemma setNode_endpointsStored id n (g : InputGraph) :
  endpointsStored g -> endpointsStored (setNode id n g).
Proof.
  intros Hg k vw Hk. cbn [setNode edgeObjs nodeValues] in *.
  destruct (Hg k vw Hk) as [Hv Hw].
  split.
  - destruct (decide (id = fst vw)) as [->|Hne];
      [rewrite lookup_insert_eq; eauto|now rewrite lookup_insert_ne].
  - destruct (decide (id = snd vw)) as [->|Hne];
      [rewrite lookup_insert_eq; eauto|now rewrite lookup_insert_ne].
Qed.

Lemma setEdge_endpointsStored a b l (g : InputGraph) :
  endpointsStored g -> endpointsStored (setEdge a b l g).
Proof.
  intros Hg. unfold setEdge.
  destruct (edgeValues g !! edgeArgsToId a b); [exact Hg|].
  intros k vw Hk. cbn [edgeObjs nodeValues] in *.
  apply lookup_insert_Some in Hk as [[_ <-]|[_ Hk]]; cbn [fst snd].
  - split; [apply ensureNode_keeps, ensureNode_has|apply ensureNode_has].
  - destruct (Hg k vw Hk) as [Hv Hw].
    split; now apply ensureNode_keeps, ensureNode_keeps.
Qed.

Lemma buildGraph_endpointsStored data : endpointsStored (buildGraph data).
Proof.
  unfold buildGraph, addEdges, addNodes.
  generalize (Types.edges data). intros es.
  assert (Hnodes : endpointsStored
                     (foldl (fun g node => setNode (Types.id node) (nodeInput node) g)
                            empty (Types.nodes data))).
  { generalize (Types.nodes data). intros ns.
    assert (Hempty : endpointsStored (empty : InputGraph)) by apply map_Forall_empty.
    revert Hempty. generalize (empty : InputGraph).
    induction ns as [|n ns IH]; intros g Hg; [exact Hg|].
    cbn [foldl]. apply IH. now apply setNode_endpointsStored. }
  revert Hnodes.
  generalize (foldl (fun g node => setNode (Types.id node) (nodeInput node) g)
                    (empty : InputGraph) (Types.nodes data)).
  induction es as [|e es IH]; intros g Hg; [exact Hg|].
  cbn [foldl]. apply IH. now apply setEdge_endpointsStored.
Qed.

Section Oracle.
Context `{LayoutOracle}.

(** Whatever Diagram was laid out, a canvas that could be painted joins
    drawn nodes only. *)
Lemma paint_wellFormed data c :
  paint (layoutAdapter data) = Some c -> wellFormed c.
Proof.
  unfold paint, layoutAdapter.
  destruct (bool_decide _) eqn:Hlab; [|discriminate].
  apply bool_decide_eq_true in Hlab. intros [= <-].
  intros k e He. cbn [edgeViews nodeViews] in *.
  rewrite map_lookup_imap in He.
  cbn [layout edgeObjs] in He.
  destruct (edgeObjs (buildGraph data) !! k) as [vw|] eqn:Hk; [|discriminate].
  cbn in He. unfold paintEdge in He.
  destruct (edgeValues (layout (buildGraph data)) !! k); [|discriminate].
  injection He as <-. cbn [v w].
  destruct (buildGraph_endpointsStored data k vw Hk) as [Hv Hw].
  assert (Hdrawn : forall id,
             is_Some (nodeValues (buildGraph data) !! id) ->
             is_Some (omap (fmap paintNode) (nodeValues (layout (buildGraph data))) !! id)).
  { intros id [o Ho].
    rewrite lookup_omap.
    destruct (nodeValues (layout (buildGraph data)) !! id) as [o'|] eqn:Hid.
    - destruct (Hlab id o' Hid) as [n ->]. cbn. eauto.
    - cbn [layout nodeValues] in Hid. rewrite map_lookup_imap, Ho in Hid.
      discriminate. }
  split; now apply Hdrawn.
Qed.

End Oracle.

(** C10.  On a canvas whose edges join drawn nodes, the drag event that
    brings node A to (ex, ey) succeeds and:
    - A's centre is (ex, ey);
    - every edge with source or target A is drawn as the two-point line
      from the current centre of its source to the current centre of its
      target, one of which is (ex, ey); when it has a label element,
      the anchor of its label is the point half-way between the two
      centres, ((sx + tx) / 2, (sy + ty) / 2), and the label text is
      kept; when it has none, its data in the graph stay as they were;
    - every other edge is exactly as before, and no edge appears or
      disappears;
    - every other node is exactly as before. *)
Theorem C10_drag (c : Canvas) (A : string) (ex ey : Q) :
  wellFormed c -> is_Some (nodeViews c !! A) ->
  exists c',
    drag c A ex ey = Some c' /\
    center (nodeViews c') A = Some {| px := ex; py := ey |} /\
    (forall k e,
       edgeViews c !! k = Some e -> v e = A \/ w e = A ->
       exists e' s t,
         edgeViews c' !! k = Some e' /\
         v e' = v e /\ w e' = w e /\
         center (nodeViews c') (v e) = Some s /\
         center (nodeViews c') (w e) = Some t /\
         pathPoints e' = [s; t] /\
         (s = {| px := ex; py := ey |} \/ t = {| px := ex; py := ey |}) /\
         (labelTranslate e <> None ->
          labelTranslate e' =
            Some (Some {| px := (px s + px t) / 2; py := (py s + py t) / 2 |}) /\
          anchor (edgeData e') =
            Some {| px := (px s + px t) / 2; py := (py s + py t) / 2 |} /\
          edge_label (edgeData e') = edge_label (edgeData e)) /\
         (labelTranslate e = None ->
          labelTranslate e' = None /\ edgeData e' = edgeData e)) /\
    (forall k e,
       edgeViews c !! k = Some e -> v e <> A -> w e <> A ->
       edgeViews c' !! k = Some e) /\
    dom (edgeViews c') = dom (edgeViews c) /\
    (forall id, id <> A -> nodeViews c' !! id = nodeViews c !! id).
Proof.
  intros Hwf [n Hn]. unfold drag. rewrite Hn.
  set (views := <[A := moveNode n ex ey]> (nodeViews c)).
  assert (Hpresent : map_Forall (fun _ e => endpointsPresent views A e = true)
                                (edgeViews c)).
  { intros k e He. destruct (Hwf k e He) as [Hv Hw].
    unfold endpointsPresent. apply orb_true_iff. right.
    apply andb_true_iff. split; apply bool_decide_eq_true_2;
      now apply insert_keeps_Some. }
  rewrite (bool_decide_eq_true_2 _ Hpresent).
  eexists. split; [reflexivity|]. cbn [nodeViews edgeViews].
  split; [apply center_moved|].
  split; [|split; [|split]].
  - intros k e He Hinc.
    destruct (Hwf k e He) as [Hv Hw].
    destruct (center_is_Some views (v e) (insert_keeps_Some _ A _ _ Hv)) as [s Hs].
    destruct (center_is_Some views (w e) (insert_keeps_Some _ A _ _ Hw)) as [t Ht].
    exists (redrawEdge views A e), s, t.
    split; [now rewrite lookup_fmap, He|].
    unfold redrawEdge.
    rewrite (proj2 (incident_true A e) Hinc), Hs, Ht.
    cbn [v w pathPoints labelTranslate edgeData].
    repeat split; try reflexivity.
    + destruct Hinc as [Hinc|Hinc]; rewrite Hinc in *;
        subst views; rewrite center_moved in *; [left|right]; congruence.
    + destruct (labelTranslate e); [reflexivity|contradiction].
    + destruct (labelTranslate e); [reflexivity|contradiction].
    + destruct (labelTranslate e); [reflexivity|contradiction].
    + destruct (labelTranslate e); [discriminate|reflexivity].
    + destruct (labelTranslate e); [discriminate|reflexivity].
  - intros k e He Hv Hw. rewrite lookup_fmap, He. cbn.
    unfold redrawEdge.
    destruct (incident A e) eqn:Hinc; [|reflexivity].
    apply incident_true in Hinc. tauto.
  - apply dom_fmap_L.
  - intros id Hid. subst views. now rewrite lookup_insert_ne.
Qed.

(** The statement on the painted three-node chain: dragging the middle
    node to (200, 100) redraws both edges from and to that point. *)
Lemma C10_drag_witness :
  exists c c',
    paint (layoutAdapter (H := Samples.stackOracle) Samples.chain) = Some c /\
    drag c "b" 200 100 = Some c' /\
    center (nodeViews c') "b" = Some {| px := 200; py := 100 |} /\
    dom (edgeViews c') = dom (edgeViews c).
Proof.
  destruct (ViewProperties.paint_valid (H := Samples.stackOracle) Samples.chain
              LayoutProperties.chain_valid) as [c Hc].
  assert (Hb : is_Some (nodeViews c !! "b")).
  { revert Hc. vm_compute. intros [= <-]. eauto. }
  destruct (C10_drag c "b" 200 100
              (paint_wellFormed (H := Samples.stackOracle) _ _ Hc) Hb)
    as (c' & Hdrag & Hcenter & _ & _ & Hdom & _).
  exists c, c'. auto.
Defined.

(** The same drag, computed: the edge from a to b now ends at the new
    centre, the edge from b to c starts there and its label sits at the
    midpoint. *)
Example drag_chain_computed :
  exists c c' ab bc,
    paint (layoutAdapter (H := Samples.stackOracle) Samples.chain) = Some c /\
    drag c "b" 200 100 = Some c' /\
    edgeViews c' !! edgeArgsToId "a" "b" = Some ab /\
    edgeViews c' !! edgeArgsToId "b" "c" = Some bc /\
    pathPoints ab = [{| px := 75; py := 30 |}; {| px := 200; py := 100 |}] /\
    labelTranslate ab = None /\
    pathPoints bc = [{| px := 200; py := 100 |}; {| px := 75; py := 310 |}] /\
    labelTranslate bc =
      Some (Some (midpoint {| px := 200; py := 100 |} {| px := 75; py := 310 |})).
Proof.
  eexists. eexists. eexists. eexists.
  split; [vm_compute; reflexivity|].
  split; [vm_compute; reflexivity|].
  split; [vm_compute; reflexivity|].
  split; [vm_compute; reflexivity|].
  repeat split.
Qed.

(** C10, as worded, fails for an edge that has no label: the edge from a
    to b of the chain is redrawn when b is dragged to (200, 100), but its
    data in the graph are not touched, so its label anchor is not the
    point half-way between (75, 30) and (200, 100); it has none. *)
Lemma C10_unlabelled_edge_keeps_anchor :
  exists c c' ab ab',
    paint (layoutAdapter (H := Samples.stackOracle) Samples.chain) = Some c /\
    drag c "b" 200 100 = Some c' /\
    edgeViews c !! edgeArgsToId "a" "b" = Some ab /\
    edgeViews c' !! edgeArgsToId "a" "b" = Some ab' /\
    w ab' = "b" /\
    pathPoints ab' = [{| px := 75; py := 30 |}; {| px := 200; py := 100 |}] /\
    edgeData ab' = edgeData ab /\
    anchor (edgeData ab') = None /\
    anchor (edgeData ab') <>
      Some {| px := (75 + 200) / 2; py := (30 + 100) / 2 |}.
Proof.
  eexists. eexists. eexists. eexists.
  split; [vm_compute; reflexivity|].
  split; [vm_compute; reflexivity|].
  split; [vm_compute; reflexivity|].
  split; [vm_compute; reflexivity|].
  repeat split. discriminate.
Qed.

End DragProperties.

(* ===================================================================== *)
(** ** More properties: ingestion and the application state              *)
(* ===================================================================== *)

Module IngestionMore.

Import GeminiService Ingestion RetryPolicy IngestionProperties LayoutProperties.

Section Service.
Context `{Host}.

(** What [validate] lets through has the three arrays. *)
Lemma validate_inr_structure parsedData value :
  validate parsedData = inr value ->
  isArray (get parsedData "functions") = true /\
  exists ns es,
    arrayOf parsedData "nodes" = Some ns /\ arrayOf parsedData "edges" = Some es.
Proof.
  unfold validate, arrayOf.
  destruct parsedData; try discriminate;
    destruct (get _ "flowchart") as [fc|]; try discriminate.
  all: destruct (isArray (get _ "functions")); [|now rewrite !orb_true_r].
  all: destruct (get fc "nodes") as [[]|];
    try (cbn [isArray negb]; rewrite ?orb_true_r; cbn [orb]; discriminate).
  all: destruct (get fc "edges") as [[]|];
    try (cbn [isArray negb]; rewrite ?orb_true_r; cbn [orb]; discriminate).
  all: intros _; split; [reflexivity|eauto].
Qed.

(** X1.  [validate] returns a value exactly when [functions],
    [flowchart.nodes] and [flowchart.edges] are arrays, every node is an
    object with string [id] and [label] and a [type] among the four, and
    every edge has string [source] and [target] that are declared ids;
    the value returned is then the payload itself, untouched. *)
Theorem X1_validate_exact (parsedData value : json) :
  validate parsedData = inr value <->
  value = parsedData /\
  isArray (get parsedData "functions") = true /\
  exists ns es,
    arrayOf parsedData "nodes" = Some ns /\
    arrayOf parsedData "edges" = Some es /\
    Forall nodeAccepted ns /\
    Forall (edgeResolves (declaredIds ns)) es.
Proof.
  split.
  - intros Hv.
    destruct (validate_inr_structure _ _ Hv) as (Hfun & ns & es & Hns & Hes).
    destruct (validate_inr _ _ _ _ Hv Hns Hes) as (-> & Hnodes & Hedges).
    split; [reflexivity|]. split; [exact Hfun|].
    exists ns, es. auto.
  - intros (-> & Hfun & ns & es & Hns & Hes & Hnodes & Hedges).
    now apply (validate_accepts parsedData ns es).
Qed.

(** How a call settles: with the value of an attempt that passed the
    [try] block, or with the surfaced error of a failed attempt. *)
Lemma generateFlowFromScript_outcome provider script :
  exists r,
    generateFlowFromScript provider script = Some r /\
    ((exists k v, tryBlock (provider script k) = inr v /\ outcome r = Resolved v) \/
     (exists e, outcome r = surfaced e)).
Proof.
  unfold generateFlowFromScript. change maxRetries with (S 2) at 1.
  rewrite retryLoop_step by (unfold maxRetries; lia).
  destruct (tryBlock (provider script 0%nat)) as [e0|v0] eqn:T0;
    [|eexists; split; [reflexivity|left; eauto]].
  destruct (isRateLimitError e0); cbn [andb];
    [|eexists; split; [reflexivity|right; eauto]].
  change (1 <? maxRetries)%nat with true. cbn match.
  rewrite retryLoop_step by (unfold maxRetries; lia).
  destruct (tryBlock (provider script 1%nat)) as [e1|v1] eqn:T1;
    [|eexists; split; [reflexivity|left; eauto]].
  destruct (isRateLimitError e1); cbn [andb];
    [|eexists; split; [reflexivity|right; eauto]].
  change (2 <? maxRetries)%nat with true. cbn match.
  rewrite retryLoop_step by (unfold maxRetries; lia).
  destruct (tryBlock (provider script 2%nat)) as [e2|v2] eqn:T2;
    [|eexists; split; [reflexivity|left; eauto]].
  change (3 <? maxRetries)%nat with false. rewrite andb_false_r.
  eexists; split; [reflexivity|right; eauto].
Qed.

(** X2.  The throw after the loop is dead code: whatever the provider
    does, the call settles, and never with the message that announces a
    busy API after multiple attempts. *)
Theorem X2_busy_message_never_thrown (provider : string -> nat -> attempt_outcome)
  (script : string) :
  exists r,
    generateFlowFromScript provider script = Some r /\
    outcome r <>
      Threw "Failed to generate flowchart after multiple attempts. The API is busy, please try again later.".
Proof.
  destruct (generateFlowFromScript_outcome provider script) as (r & Hr & Hshape).
  exists r. split; [exact Hr|].
  destruct Hshape as [(k & v & _ & ->)|[e ->]]; [discriminate|].
  unfold surfaced. intros Heq. injection Heq as Hbit. discriminate Hbit.
Qed.

(** An attempt that passes the [try] block met a payload that validates,
    and yields that payload. *)
Lemma tryBlock_inr o value :
  tryBlock o = inr value -> o = Parsed value /\ validate value = inr value.
Proof.
  destruct o as [e|p]; cbn [tryBlock]; [discriminate|].
  intros Hv.
  destruct (validate_inr_structure _ _ Hv) as (_ & ns & es & Hns & Hes).
  destruct (validate_inr _ _ _ _ Hv Hns Hes) as (-> & _). auto.
Qed.

(** X3.  Once [handleAnalyzeScript] has run on a script that is not
    blank, the loading flag is off and exactly one of two things holds:
    there is no error and the diagram is the [flowchart] of a payload
    that passed validation (with its [functions] array beside it), or
    there is an error message, no diagram and no functions.  A failed
    analysis never leaves an earlier diagram on screen. *)
Theorem X3_analysis_outcome (provider : string -> nat -> attempt_outcome)
  (st : App.state) :
  String_trim (App.script st) <> "" ->
  exists st',
    App.handleAnalyzeScript provider st = Some st' /\
    App.isLoading st' = false /\
    App.script st' = App.script st /\
    ((App.error st' = None /\
      exists k p fc fns,
        provider (App.script st) k = Parsed p /\
        validate p = inr p /\
        get p "flowchart" = Some fc /\ App.flowData st' = Some fc /\
        get p "functions" = Some (JArr fns) /\
        App.generatedFunctions st' = JArr fns) \/
     (exists message,
        App.error st' = Some message /\
        App.flowData st' = None /\
        App.generatedFunctions st' = JArr [])).
Proof.
  intros Hscript. unfold App.handleAnalyzeScript.
  apply String.eqb_neq in Hscript. rewrite Hscript.
  destruct (generateFlowFromScript_outcome provider (App.script st))
    as (r & -> & [(k & p & Htry & ->)|[e ->]]).
  - eexists. split; [reflexivity|]. cbn.
    split; [reflexivity|]. split; [reflexivity|]. left.
    split; [reflexivity|].
    apply tryBlock_inr in Htry as [Hk Hv].
    destruct (validate_inr_structure _ _ Hv) as (Hfun & ns & es & Hns & _).
    unfold arrayOf in Hns.
    destruct (get p "flowchart") as [fc|] eqn:Hfc; [|discriminate].
    destruct (get p "functions") as [[]|] eqn:Hf; try discriminate.
    exists k, p, fc, items. repeat split; auto.
  - eexists. split; [reflexivity|]. cbn.
    split; [reflexivity|]. split; [reflexivity|]. right. eauto.
Qed.

End Service.

(** X1 at a two-node payload. *)
Lemma X1_validate_exact_witness :
  validate (H := Samples.plainHost) Samples.goodPayload = inr Samples.goodPayload.
Proof.
  apply (proj2 (X1_validate_exact (H := Samples.plainHost)
                  Samples.goodPayload Samples.goodPayload)).
  split; [reflexivity|]. split; [reflexivity|].
  exists [Samples.node "a" "Begin" "start"; Samples.node "b" "Finish" "end"],
         [Samples.edge "a" "b"].
  split; [reflexivity|]. split; [reflexivity|]. split.
  - repeat constructor.
    + exists "a", "Begin", "start". cbn. tauto.
    + exists "b", "Finish", "end". cbn. tauto.
  - repeat constructor. exists "a", "b". cbn. tauto.
Defined.

(** X3 on scenario 3: the diagram of the third answer is shown. *)
Lemma X3_analysis_outcome_witness :
  exists st',
    App.handleAnalyzeScript (H := Samples.plainHost) Samples.thirdTimeLucky
      (Samples.appState "The game starts.") = Some st' /\
    App.isLoading st' = false /\
    (App.error st' = None \/ App.flowData st' = None).
Proof.
  destruct (X3_analysis_outcome (H := Samples.plainHost) Samples.thirdTimeLucky
              (Samples.appState "The game starts.") ltac:(discriminate))
    as (st' & Hst & Hload & _ & [[Herr _]|(m & _ & Hflow & _)]);
    exists st'; auto.
Defined.

End IngestionMore.

(* ===================================================================== *)
(** ** More properties: what the layout adapter stores                   *)
(* ===================================================================== *)

Module LayoutMore.

Import Graphlib FlowChart LayoutProperties DragProperties.

#[local] Set Warnings "-clear-no-such-hyp".

(** *** Node values *)

Lemma addNodes_app ns1 ns2 (g : InputGraph) :
  addNodes (ns1 ++ ns2) g = addNodes ns2 (addNodes ns1 g).
Proof. unfold addNodes. apply foldl_app. Qed.

Lemma addNodes_lookup_other ns (g : InputGraph) id :
  ~ In id (map Types.id ns) ->
  nodeValues (addNodes ns g) !! id = nodeValues g !! id.
Proof.
  revert g. induction ns as [|n ns IH]; intros g Hnot; [reflexivity|].
  cbn [addNodes foldl]. unfold addNodes in IH. rewrite IH.
  - cbn [setNode nodeValues]. apply lookup_insert_ne.
    intros Heq. apply Hnot. left. exact Heq.
  - intros Hin. apply Hnot. right. exact Hin.
Qed.

Lemma ensureNode_lookup_Some (m : gmap string (option NodeInput)) a id o :
  m !! id = Some o -> ensureNode NodeInput a m !! id = Some o.
Proof.
  intros Hid. unfold ensureNode. destruct (m !! a) eqn:Ha; [exact Hid|].
  rewrite lookup_insert_ne; [exact Hid|]. intros ->. congruence.
Qed.

Lemma setEdge_lookup_Some a b (l : option string) (g : InputGraph) id o :
  nodeValues g !! id = Some o -> nodeValues (setEdge a b l g) !! id = Some o.
Proof.
  intros Hid. unfold setEdge.
  destruct (edgeValues g !! edgeArgsToId a b); cbn [nodeValues]; [exact Hid|].
  now apply ensureNode_lookup_Some, ensureNode_lookup_Some.
Qed.

Lemma addEdges_lookup_Some es (g : InputGraph) id o :
  nodeValues g !! id = Some o -> nodeValues (addEdges es g) !! id = Some o.
Proof.
  revert g. induction es as [|e es IH]; intros g Hid; [exact Hid|].
  cbn [addEdges foldl]. apply IH. now apply setEdge_lookup_Some.
Qed.

(** Edges only ever add nodes without a value. *)
Lemma ensureNode_valued (m : gmap string (option NodeInput)) a id n :
  ensureNode NodeInput a m !! id = Some (Some n) -> m !! id = Some (Some n).
Proof.
  unfold ensureNode. destruct (m !! a) eqn:Ha; [auto|].
  destruct (decide (a = id)) as [->|Hne].
  - rewrite lookup_insert_eq. discriminate.
  - now rewrite lookup_insert_ne.
Qed.

Lemma addEdges_valued es (g : InputGraph) id n :
  nodeValues (addEdges es g) !! id = Some (Some n) ->
  nodeValues g !! id = Some (Some n).
Proof.
  revert g. induction es as [|e es IH]; intros g Hid; [exact Hid|].
  cbn [addEdges foldl] in Hid. apply IH in Hid.
  unfold setEdge in Hid.
  destruct (edgeValues g !! _); cbn [nodeValues] in Hid; [exact Hid|].
  now apply ensureNode_valued, ensureNode_valued in Hid.
Qed.

Lemma addNodes_valued ns id n :
  nodeValues (addNodes ns (empty : InputGraph)) !! id = Some (Some n) ->
  In id (map Types.id ns).
Proof.
  intros Hid.
  destruct (In_dec String.string_dec id (map Types.id ns)) as [Hin|Hnot];
    [exact Hin|].
  rewrite addNodes_lookup_other in Hid by exact Hnot.
  cbn in Hid. rewrite lookup_empty in Hid. discriminate.
Qed.

(** A node with a value in the graph is a declared node. *)
Lemma buildGraph_valued data id n :
  nodeValues (buildGraph data) !! id = Some (Some n) ->
  In id (map Types.id (Types.nodes data)).
Proof.
  unfold buildGraph. intros Hid.
  now apply addEdges_valued, addNodes_valued in Hid.
Qed.

Section Oracle.
Context `{LayoutOracle}.

Lemma layout_lookup (g : InputGraph) id :
  nodeValues (layout g) !! id =
  fmap (fmap (fun n => {| input := n;
                          x := px (node_center g id);
                          y := py (node_center g id) |}))
       (nodeValues g !! id).
Proof.
  cbn [layout nodeValues]. rewrite map_lookup_imap.
  now destruct (nodeValues g !! id).
Qed.

(** X4.  Whatever the Diagram, the node laid out under an id is the last
    node declared with that id: its label, type and description are read
    back from the graph, its box is 150 x 60, and its centre is the one
    the oracle chose.  Earlier nodes with the same id are overwritten and
    edges never alter it. *)
Theorem X4_last_node_wins (data : Types.FlowData) (before after : list Types.NodeData)
  (node : Types.NodeData) :
  Types.nodes data = (before ++ node :: after)%list ->
  ~ In (Types.id node) (map Types.id after) ->
  nodeValues (layoutAdapter data) !! Types.id node =
  Some (Some {| input := {| label := Types.label node;
                            width := 150; height := 60;
                            type := Types.type node;
                            description := Types.description node |};
                x := px (node_center (buildGraph data) (Types.id node));
                y := py (node_center (buildGraph data) (Types.id node)) |}).
Proof.
  intros Hnodes Hlast. unfold layoutAdapter. rewrite layout_lookup.
  assert (Hbuilt : nodeValues (buildGraph data) !! Types.id node
                   = Some (Some (nodeInput node))).
  { unfold buildGraph. apply addEdges_lookup_Some.
    rewrite Hnodes, addNodes_app. cbn [addNodes foldl].
    fold (addNodes after (setNode (Types.id node) (nodeInput node)
                                  (addNodes before empty))).
    rewrite addNodes_lookup_other by exact Hlast.
    cbn [setNode nodeValues]. apply lookup_insert_eq. }
  rewrite Hbuilt. reflexivity.
Qed.

End Oracle.

(** X4 on a Diagram that declares the id a twice: the second
    declaration is the one laid out. *)
Lemma X4_last_node_wins_witness :
  exists n,
    nodeValues (layoutAdapter (H := Samples.flatOracle) MoreSamples.repeatedId) !! "a"
      = Some (Some n) /\
    label (input n) = "Second" /\ type (input n) = Types.TEnd.
Proof.
  eexists. split.
  - apply (X4_last_node_wins (H := Samples.flatOracle) MoreSamples.repeatedId
             [Samples.nodeData "a" "First" Types.TStart] []
             (Samples.nodeData "a" "Second" Types.TEnd)).
    + reflexivity.
    + intros [].
  - split; reflexivity.
Defined.

(** *** Edge values and descriptors *)

Lemma setEdge_edgeValues a b (l : option string) (g : InputGraph) :
  edgeValues (setEdge a b l g) = <[edgeArgsToId a b := l]> (edgeValues g).
Proof. unfold setEdge. now destruct (edgeValues g !! edgeArgsToId a b). Qed.

Lemma addEdges_app es1 es2 (g : InputGraph) :
  addEdges (es1 ++ es2) g = addEdges es2 (addEdges es1 g).
Proof. unfold addEdges. apply foldl_app. Qed.

Lemma addEdges_value_other es (g : InputGraph) k :
  ~ In k (map edgeKey es) ->
  edgeValues (addEdges es g) !! k = edgeValues g !! k.
Proof.
  revert g. induction es as [|e es IH]; intros g Hnot; [reflexivity|].
  cbn [addEdges foldl]. unfold addEdges in IH. rewrite IH.
  - rewrite setEdge_edgeValues. apply lookup_insert_ne.
    intros Heq. apply Hnot. left. exact Heq.
  - intros Hin. apply Hnot. right. exact Hin.
Qed.

(** Every descriptor was filed by an edge of the list, under that edge's
    key, unless it was in the graph before. *)
Lemma addEdges_descriptor es (g : InputGraph) k vw :
  edgeObjs (addEdges es g) !! k = Some vw ->
  edgeObjs g !! k = Some vw \/
  exists e, In e es /\ vw = endpoints e /\ k = edgeKey e.
Proof.
  revert g. induction es as [|e es IH]; intros g Hk; [now left|].
  cbn [addEdges foldl] in Hk. apply IH in Hk as [Hk|(e' & Hin & Hvw & Hkey)].
  - unfold setEdge in Hk.
    destruct (edgeValues g !! _); cbn [edgeObjs] in Hk; [now left|].
    apply lookup_insert_Some in Hk as [[<- <-]|[_ Hk]]; [|now left].
    right. exists e. split; [now left|]. split; reflexivity.
  - right. exists e'. split; [now right|]. auto.
Qed.

Section Oracle.
Context `{LayoutOracle}.

(** X5.  Whatever the Diagram, the label of the LayoutEdge filed under a
    key is the label of the last edge with that key; its routing points
    and anchor are the oracle's.  When two edges join the same pair of
    nodes, the first one's label is lost. *)
Theorem X5_last_edge_label_wins (data : Types.FlowData)
  (before after : list Types.EdgeData) (edge : Types.EdgeData) :
  Types.edges data = (before ++ edge :: after)%list ->
  ~ In (edgeKey edge) (map edgeKey after) ->
  edgeValues (layoutAdapter data) !! edgeKey edge =
  Some {| edge_label := Types.edgeLabel edge;
          points := edge_points (buildGraph data) (edgeKey edge);
          anchor := edge_anchor (buildGraph data) (edgeKey edge) |}.
Proof.
  intros Hedges Hlast. unfold layoutAdapter.
  cbn [layout edgeValues]. rewrite map_lookup_imap.
  assert (Hbuilt : edgeValues (buildGraph data) !! edgeKey edge
                   = Some (Types.edgeLabel edge)).
  { unfold buildGraph. rewrite Hedges, addEdges_app. cbn [addEdges foldl].
    fold (addEdges after
            (setEdge (Types.source edge) (Types.target edge) (Types.edgeLabel edge)
                     (addEdges before (addNodes (Types.nodes data) empty)))).
    rewrite addEdges_value_other by exact Hlast.
    rewrite setEdge_edgeValues. apply lookup_insert_eq. }
  rewrite Hbuilt. reflexivity.
Qed.

(** The descriptor filed under the key of an edge whose source, like
    every other source, is free of the delimiter, names that edge's own
    end points. *)
Lemma buildGraph_descriptor data e :
  In e (Types.edges data) ->
  Forall (fun e' => delimiterFree (Types.source e') = true) (Types.edges data) ->
  edgeObjs (buildGraph data) !! edgeKey e = Some (endpoints e).
Proof.
  intros Hin Hfree.
  assert (Hdom : edgeKey e ∈ dom (edgeObjs (buildGraph data))).
  { rewrite buildGraph_edgeIds. apply elem_of_list_to_set, list_elem_of_fmap.
    exists e. split; [reflexivity|now apply list_elem_of_In]. }
  apply elem_of_dom in Hdom as [vw Hvw]. rewrite Hvw. f_equal.
  unfold buildGraph in Hvw.
  apply addEdges_descriptor in Hvw as [Hold|(e' & Hin' & -> & Hkey)].
  - destruct (addNodes_edges (Types.nodes data) empty) as [_ Heq].
    rewrite Heq in Hold. cbn in Hold. rewrite lookup_empty in Hold. discriminate.
  - rewrite Forall_forall in Hfree.
    apply list_elem_of_In in Hin, Hin'.
    destruct (edgeArgsToId_inj _ _ _ _ (Hfree e Hin) (Hfree e' Hin') Hkey) as [Hs Ht].
    unfold endpoints. now rewrite Hs, Ht.
Qed.

(** X6.  Painting a Diagram with an edge whose source or target is not a
    declared node throws: [setEdge] creates that node without a value and
    the class attribute of its group reads a property of [undefined].
    (Sources are assumed free of the key delimiter U+0001, so that the
    edge is filed under a key of its own.) *)
Theorem X6_dangling_edge_throws (data : Types.FlowData) (edge : Types.EdgeData)
  (containerWidth containerHeight : Q) (before : View) :
  In edge (Types.edges data) ->
  Forall (fun e => delimiterFree (Types.source e) = true) (Types.edges data) ->
  ~ In (Types.source edge) (map Types.id (Types.nodes data)) \/
  ~ In (Types.target edge) (map Types.id (Types.nodes data)) ->
  Types.nodes data <> [] ->
  paint (layoutAdapter data) = None /\
  effect (Some data) containerWidth containerHeight before = None.
Proof.
  intros Hin Hfree Hdangling Hnodes.
  assert (Hpaint : paint (layoutAdapter data) = None).
  { unfold paint. rewrite bool_decide_eq_false_2; [reflexivity|].
    intros Hall.
    pose proof (buildGraph_descriptor data edge Hin Hfree) as Hdesc.
    destruct (buildGraph_endpointsStored data _ _ Hdesc) as [[os Hs] [ot Ht]].
    cbn [endpoints fst snd] in Hs, Ht.
    assert (Hvalued : forall id o,
               nodeValues (buildGraph data) !! id = Some o ->
               ~ In id (map Types.id (Types.nodes data)) -> False).
    { intros id o Hid Hnot.
      assert (Hl : nodeValues (layoutAdapter data) !! id
                   = Some (fmap (fun n => {| input := n;
                                             x := px (node_center (buildGraph data) id);
                                             y := py (node_center (buildGraph data) id) |}) o)).
      { unfold layoutAdapter. rewrite layout_lookup, Hid. reflexivity. }
      destruct (Hall id _ Hl) as [n Hn].
      destruct o as [i|]; [|discriminate].
      apply Hnot. eapply buildGraph_valued. exact Hid. }
    destruct Hdangling as [Hd|Hd]; eauto. }
  split; [exact Hpaint|].
  unfold effect. destruct (Types.nodes data); [contradiction|].
  unfold layoutAdapter in Hpaint. now rewrite Hpaint.
Qed.

End Oracle.

(** X5 on the two parallel edges: the laid-out edge is labelled No. *)
Lemma X5_last_edge_label_wins_witness :
  exists d,
    edgeValues (layoutAdapter (H := Samples.flatOracle) Samples.parallelEdges)
      !! edgeArgsToId "a" "b" = Some d /\
    edge_label d = Some "No".
Proof.
  eexists. split.
  - apply (X5_last_edge_label_wins (H := Samples.flatOracle) Samples.parallelEdges
             [Samples.edgeData "a" "b" (Some "Yes")] []
             (Samples.edgeData "a" "b" (Some "No"))).
    + reflexivity.
    + intros [].
  - reflexivity.
Defined.

(** X6 on an edge from a to an undeclared node. *)
Lemma X6_dangling_edge_throws_witness :
  effect (H := Samples.flatOracle) (Some MoreSamples.dangling) 800 600
         Samples.initialView = None.
Proof.
  apply (X6_dangling_edge_throws (H := Samples.flatOracle) MoreSamples.dangling
           (Samples.edgeData "a" "ghost" None) 800 600 Samples.initialView).
  - left. reflexivity.
  - repeat constructor.
  - right. cbn. intros [Heq|[]]. discriminate Heq.
  - discriminate.
Defined.

(** *** The painted canvas *)

Lemma buildGraph_keyed data : keyed (buildGraph data).
Proof. unfold buildGraph. apply addEdges_keyed, addNodes_keyed, empty_keyed. Qed.

Section Painted.
Context `{LayoutOracle}.

Lemma layout_edge_lookup (g : InputGraph) k :
  edgeValues (layout g) !! k =
  fmap (fun l => {| edge_label := l; points := edge_points g k;
                    anchor := edge_anchor g k |})
       (edgeValues g !! k).
Proof.
  cbn [layout edgeValues]. rewrite map_lookup_imap.
  now destruct (edgeValues g !! k).
Qed.

(** X7.  For a valid Diagram painting succeeds and draws exactly one
    group per node id and one path per edge key.  Each group is
    translated to the centre of its node; each path follows the routing
    points the oracle gave for its key; an edge gets a label element
    exactly when its label is a non-empty string. *)
Theorem X7_painted_canvas (data : Types.FlowData) :
  validDiagram data ->
  exists c,
    paint (layoutAdapter data) = Some c /\
    dom (nodeViews c) = list_to_set (map Types.id (Types.nodes data)) /\
    dom (edgeViews c) = list_to_set (map edgeKey (Types.edges data)) /\
    (forall id n,
       nodeViews c !! id = Some n ->
       nodeTranslate n = {| px := x (nodeData n); py := y (nodeData n) |} /\
       nodeValues (layoutAdapter data) !! id = Some (Some (nodeData n))) /\
    (forall k e,
       edgeViews c !! k = Some e ->
       pathPoints e = edge_points (buildGraph data) k /\
       edgeObjs (layoutAdapter data) !! k = Some (v e, w e) /\
       (labelTranslate e = None <->
        truthy_label (edge_label (edgeData e)) = false)).
Proof.
  intros Hvalid.
  pose proof (layout_labelled _ (buildGraph_labelled data Hvalid)) as Hlab.
  unfold paint, layoutAdapter. rewrite (bool_decide_eq_true_2 _ Hlab).
  eexists. split; [reflexivity|]. cbn [nodeViews edgeViews].
  split; [|split; [|split]].
  - rewrite <- (buildGraph_nodeIds data Hvalid), <- layout_nodeIds.
    apply set_eq. intros id. rewrite !elem_of_dom, lookup_omap.
    destruct (nodeValues (layout (buildGraph data)) !! id) as [o|] eqn:Hid; cbn.
    + destruct (Hlab id o Hid) as [n ->]. cbn. split; eauto.
    + split; intros [? ?]; discriminate.
  - rewrite <- buildGraph_edgeIds.
    apply set_eq. intros k. rewrite !elem_of_dom, map_lookup_imap.
    cbn [layout edgeObjs].
    destruct (edgeObjs (buildGraph data) !! k) as [vw|] eqn:Hk; cbn.
    + unfold paintEdge. rewrite layout_edge_lookup.
      assert (Hin : k ∈ dom (edgeValues (buildGraph data))).
      { rewrite (buildGraph_keyed data). apply elem_of_dom. eauto. }
      apply elem_of_dom in Hin as [l ->]. cbn. split; eauto.
    + split; intros [? ?]; discriminate.
  - intros id n Hn. rewrite lookup_omap in Hn.
    destruct (nodeValues (layout (buildGraph data)) !! id) as [[ln|]|];
      cbn in Hn; try discriminate.
    injection Hn as <-. split; reflexivity.
  - intros k e He. rewrite map_lookup_imap in He. cbn [layout edgeObjs] in He.
    destruct (edgeObjs (buildGraph data) !! k) as [vw|] eqn:Hk; cbn in He;
      [|discriminate].
    unfold paintEdge in He. rewrite layout_edge_lookup in He.
    destruct (edgeValues (buildGraph data) !! k) as [l|]; cbn in He; [|discriminate].
    injection He as <-. cbn [pathPoints points v w labelTranslate edgeData edge_label].
    split; [reflexivity|].
    split; [cbn [layout edgeObjs]; rewrite Hk; now destruct vw|].
    destruct (truthy_label l); split; intros; congruence.
Qed.

End Painted.

(** X7 on the three-node chain. *)
Lemma X7_painted_canvas_witness :
  exists c,
    paint (layoutAdapter (H := Samples.stackOracle) Samples.chain) = Some c /\
    dom (nodeViews c) = list_to_set ["a"; "b"; "c"] /\
    dom (edgeViews c) = list_to_set [edgeArgsToId "a" "b"; edgeArgsToId "b" "c"].
Proof.
  destruct (X7_painted_canvas (H := Samples.stackOracle) Samples.chain chain_valid)
    as (c & Hc & Hnodes & Hedges & _).
  exists c. auto.
Defined.

End LayoutMore.

(* ===================================================================== *)
(** ** More properties: drag sessions                                    *)
(* ===================================================================== *)

Module DragMore.

Import Graphlib FlowChart DragProperties DragSession.

Local Open Scope Q_scope.

#[local] Set Warnings "-clear-no-such-hyp".

Lemma redrawEdge_ends views nodeId e :
  v (redrawEdge views nodeId e) = v e /\ w (redrawEdge views nodeId e) = w e.
Proof.
  unfold redrawEdge. destruct (incident nodeId e); [|auto].
  destruct (center views (v e)), (center views (w e)); auto.
Qed.

Lemma incident_redrawEdge views nodeId nodeId' e :
  incident nodeId' (redrawEdge views nodeId e) = incident nodeId' e.
Proof.
  unfold incident. destruct (redrawEdge_ends views nodeId e) as [-> ->].
  reflexivity.
Qed.

(** What the redrawing keeps of an edge. *)
Lemma redrawEdge_keeps views nodeId e :
  points (edgeData (redrawEdge views nodeId e)) = points (edgeData e) /\
  edge_label (edgeData (redrawEdge views nodeId e)) = edge_label (edgeData e) /\
  (labelTranslate (redrawEdge views nodeId e) = None <-> labelTranslate e = None).
Proof.
  unfold redrawEdge. destruct (incident nodeId e); [|tauto].
  destruct (center views (v e)), (center views (w e)); try tauto.
  cbn. destruct (labelTranslate e); cbn; repeat split; congruence.
Qed.

Lemma center_same_nodes (views views' : gmap string NodeView) id p :
  dom views = dom views' -> center views id = Some p ->
  exists p', center views' id = Some p'.
Proof.
  intros Hdom Hp. unfold center in *.
  destruct (views !! id) as [n|] eqn:Hn; [|discriminate].
  assert (Hin : id ∈ dom views') by (rewrite <- Hdom; apply elem_of_dom; eauto).
  apply elem_of_dom in Hin as [n' ->]. cbn. eauto.
Qed.

(** Redrawing after a second move of the same node forgets the first. *)
Lemma redrawEdge_twice views1 views2 nodeId e :
  dom views1 = dom views2 ->
  redrawEdge views2 nodeId (redrawEdge views1 nodeId e) = redrawEdge views2 nodeId e.
Proof.
  intros Hdom.
  unfold redrawEdge at 2. destruct (incident nodeId e) eqn:Hinc; [|reflexivity].
  destruct (center views1 (v e)) as [s|] eqn:Hs; [|reflexivity].
  destruct (center views1 (w e)) as [t|] eqn:Ht; [|reflexivity].
  destruct (center_same_nodes _ _ _ _ Hdom Hs) as [s' Hs'].
  destruct (center_same_nodes _ _ _ _ Hdom Ht) as [t' Ht'].
  unfold redrawEdge, incident in *. cbn [v w labelTranslate edgeData].
  rewrite Hinc, Hs', Ht'.
  destruct (labelTranslate e); reflexivity.
Qed.

Lemma endpointsPresent_same_nodes (views views' : gmap string NodeView) nodeId e :
  dom views = dom views' ->
  endpointsPresent views nodeId e = endpointsPresent views' nodeId e.
Proof.
  intros Hdom. unfold endpointsPresent. f_equal. f_equal.
  - apply bool_decide_ext. rewrite <- !elem_of_dom. now rewrite Hdom.
  - apply bool_decide_ext. rewrite <- !elem_of_dom. now rewrite Hdom.
Qed.

Lemma dom_move (views : gmap string NodeView) nodeId n n' :
  views !! nodeId = Some n -> dom (<[nodeId := n']> views) = dom views.
Proof.
  intros Hn. rewrite dom_insert_L.
  assert (nodeId ∈ dom views) by (apply elem_of_dom; eauto). set_solver.
Qed.

(** The result of a drag that does not throw. *)
Lemma drag_Some c nodeId ex ey c' :
  drag c nodeId ex ey = Some c' ->
  exists n,
    nodeViews c !! nodeId = Some n /\
    map_Forall (fun _ e => endpointsPresent
                             (<[nodeId := moveNode n ex ey]> (nodeViews c)) nodeId e = true)
               (edgeViews c) /\
    c' = {| nodeViews := <[nodeId := moveNode n ex ey]> (nodeViews c);
            edgeViews := redrawEdge (<[nodeId := moveNode n ex ey]> (nodeViews c)) nodeId
                         <$> edgeViews c |}.
Proof.
  unfold drag. destruct (nodeViews c !! nodeId) as [n|]; [|discriminate].
  destruct (bool_decide _) eqn:Hall; [|discriminate].
  apply bool_decide_eq_true in Hall. intros [= <-]. eauto.
Qed.

(** X8.  Within a drag session the last pointer position wins: a drag
    event that follows another one on the same node leaves the canvas as
    if it had been the only one. *)
Theorem X8_drag_last_position_wins (c c1 : Canvas) (nodeId : string)
  (x1 y1 x2 y2 : Q) :
  drag c nodeId x1 y1 = Some c1 ->
  drag c1 nodeId x2 y2 = drag c nodeId x2 y2.
Proof.
  intros Hdrag. apply drag_Some in Hdrag as (n & Hn & Hall & ->).
  unfold drag. cbn [nodeViews edgeViews]. rewrite lookup_insert_eq, Hn.
  rewrite insert_insert_eq.
  change (moveNode (moveNode n x1 y1) x2 y2) with (moveNode n x2 y2).
  set (views1 := <[nodeId := moveNode n x1 y1]> (nodeViews c)) in *.
  set (views2 := <[nodeId := moveNode n x2 y2]> (nodeViews c)).
  assert (Hdom : dom views1 = dom views2).
  { subst views1 views2. now rewrite !(dom_move _ _ n). }
  assert (Hiff : map_Forall (fun _ e => endpointsPresent views2 nodeId e = true)
                            (redrawEdge views1 nodeId <$> edgeViews c) <->
                 map_Forall (fun _ e => endpointsPresent views2 nodeId e = true)
                            (edgeViews c)).
  { rewrite map_Forall_fmap. unfold map_Forall. cbn.
    split; intros Hp k e He; specialize (Hp k e He);
      unfold endpointsPresent in *;
      rewrite ?incident_redrawEdge in *;
      destruct (redrawEdge_ends views1 nodeId e) as [Hv Hw];
      rewrite ?Hv, ?Hw in *; exact Hp. }
  rewrite (bool_decide_ext _ _ Hiff).
  destruct (bool_decide _); [|reflexivity].
  f_equal. f_equal. rewrite <- map_fmap_compose.
  apply map_fmap_ext. intros k e _. cbn. now apply redrawEdge_twice.
Qed.

(** A drag on a drawn node of a well-formed canvas succeeds and leaves a
    well-formed canvas with the same nodes and edges. *)
Lemma drag_succeeds c nodeId ex ey :
  wellFormed c -> is_Some (nodeViews c !! nodeId) ->
  exists c',
    drag c nodeId ex ey = Some c' /\ wellFormed c' /\
    dom (nodeViews c') = dom (nodeViews c) /\
    dom (edgeViews c') = dom (edgeViews c).
Proof.
  intros Hwf [n Hn]. unfold drag. rewrite Hn.
  set (views := <[nodeId := moveNode n ex ey]> (nodeViews c)).
  assert (Hpresent : map_Forall (fun _ e => endpointsPresent views nodeId e = true)
                                (edgeViews c)).
  { intros k e He. destruct (Hwf k e He) as [Hv Hw].
    unfold endpointsPresent. apply orb_true_iff. right.
    apply andb_true_iff. split; apply bool_decide_eq_true_2;
      now apply insert_keeps_Some. }
  rewrite (bool_decide_eq_true_2 _ Hpresent).
  eexists. split; [reflexivity|]. cbn [nodeViews edgeViews].
  split; [|split].
  - intros k e' He'. cbn [nodeViews edgeViews] in *.
    rewrite lookup_fmap in He'.
    destruct (edgeViews c !! k) as [e|] eqn:He; [|discriminate].
    injection He' as <-.
    destruct (redrawEdge_ends views nodeId e) as [-> ->].
    destruct (Hwf k e He) as [Hv Hw].
    split; now apply insert_keeps_Some.
  - subst views. now apply (dom_move _ _ n).
  - apply dom_fmap_L.
Qed.

(** X9.  On a well-formed canvas (every painted canvas is one), any
    succession of drag events on drawn nodes runs without throwing, and
    the canvas stays well formed with the same nodes and the same
    edges. *)
Theorem X9_drag_session_never_throws (moves : list (string * (Q * Q))) (c : Canvas) :
  wellFormed c ->
  Forall (fun m => is_Some (nodeViews c !! fst m)) moves ->
  exists c',
    drags moves c = Some c' /\ wellFormed c' /\
    dom (nodeViews c') = dom (nodeViews c) /\
    dom (edgeViews c') = dom (edgeViews c).
Proof.
  revert c. induction moves as [|[nodeId [ex ey]] rest IH]; intros c Hwf Hall.
  - exists c. auto.
  - inversion Hall as [|? ? Hhead Hrest]; subst. cbn [fst] in Hhead.
    destruct (drag_succeeds c nodeId ex ey Hwf Hhead) as (c1 & Hc1 & Hwf1 & Hn1 & He1).
    destruct (IH c1 Hwf1) as (c' & Hc' & Hwf' & Hn' & He').
    { eapply Forall_impl; [exact Hrest|]. intros m Hm. cbn beta in *.
      apply elem_of_dom. rewrite Hn1. now apply elem_of_dom. }
    exists c'. cbn [drags]. rewrite Hc1.
    split; [exact Hc'|]. split; [exact Hwf'|].
    split; congruence.
Qed.

(** X10.  A drag event changes no more than positions: every edge keeps
    its end points, its label, the routing points stored for it in the
    graph and the presence or absence of its label element; every node
    keeps its label, type, description and box; no node or edge is added
    or removed. *)
Theorem X10_drag_keeps_structure (c c' : Canvas) (nodeId : string) (ex ey : Q) :
  drag c nodeId ex ey = Some c' ->
  dom (nodeViews c') = dom (nodeViews c) /\
  dom (edgeViews c') = dom (edgeViews c) /\
  (forall id n',
     nodeViews c' !! id = Some n' ->
     exists n, nodeViews c !! id = Some n /\ input (nodeData n') = input (nodeData n)) /\
  (forall k e',
     edgeViews c' !! k = Some e' ->
     exists e,
       edgeViews c !! k = Some e /\ v e' = v e /\ w e' = w e /\
       points (edgeData e') = points (edgeData e) /\
       edge_label (edgeData e') = edge_label (edgeData e) /\
       (labelTranslate e' = None <-> labelTranslate e = None)).
Proof.
  intros Hdrag. apply drag_Some in Hdrag as (n & Hn & _ & ->).
  cbn [nodeViews edgeViews].
  split; [now apply (dom_move _ _ n)|].
  split; [apply dom_fmap_L|]. split.
  - intros id n' Hid. destruct (decide (nodeId = id)) as [->|Hne].
    + rewrite lookup_insert_eq in Hid. injection Hid as <-. eauto.
    + rewrite lookup_insert_ne in Hid by exact Hne. eauto.
  - intros k e' He'. rewrite lookup_fmap in He'.
    destruct (edgeViews c !! k) as [e|]; [|discriminate]. injection He' as <-.
    exists e. split; [reflexivity|].
    destruct (redrawEdge_ends (<[nodeId := moveNode n ex ey]> (nodeViews c)) nodeId e)
      as [Hv Hw].
    destruct (redrawEdge_keeps (<[nodeId := moveNode n ex ey]> (nodeViews c)) nodeId e)
      as (Hp & Hl & Ht).
    auto.
Qed.

Section Oracle.
Context `{LayoutOracle}.

(** The painted canvas of a valid Diagram, with what a drag needs. *)
Lemma painted_ready data id :
  validDiagram data -> In id (map Types.id (Types.nodes data)) ->
  exists c,
    paint (layoutAdapter data) = Some c /\ wellFormed c /\
    is_Some (nodeViews c !! id).
Proof.
  intros Hvalid Hid.
  destruct (ViewProperties.paint_valid data Hvalid) as [c Hc].
  exists c. split; [exact Hc|]. split; [now apply (paint_wellFormed data)|].
  pose proof (LayoutProperties.layout_labelled _
                (LayoutProperties.buildGraph_labelled data Hvalid)) as Hlab.
  assert (Hin : id ∈ dom (nodeValues (layout (buildGraph data)))).
  { rewrite LayoutProperties.layout_nodeIds,
            (LayoutProperties.buildGraph_nodeIds data Hvalid).
    now apply elem_of_list_to_set, list_elem_of_In. }
  apply elem_of_dom in Hin as [o Ho].
  unfold paint, layoutAdapter in Hc.
  set (g := layout (buildGraph data)) in *.
  rewrite (bool_decide_eq_true_2 _ Hlab) in Hc. injection Hc as <-.
  cbn [nodeViews]. rewrite lookup_omap.
  change (is_Some (nodeValues g !! id ≫= fmap paintNode)). rewrite Ho.
  destruct (Hlab id o Ho) as [n ->]. cbn. eauto.
Qed.

End Oracle.

(** X8 on the painted chain: drag b away, then back to (75, 170). *)
Lemma X8_drag_last_position_wins_witness :
  exists c c1,
    paint (layoutAdapter (H := Samples.stackOracle) Samples.chain) = Some c /\
    drag c "b" 200 100 = Some c1 /\
    drag c1 "b" 75 170 = drag c "b" 75 170.
Proof.
  destruct (painted_ready (H := Samples.stackOracle) Samples.chain "b"
              LayoutProperties.chain_valid ltac:(cbn; tauto)) as (c & Hc & Hwf & Hb).
  destruct (drag_succeeds c "b" 200 100 Hwf Hb) as (c1 & Hc1 & _).
  exists c, c1. split; [exact Hc|]. split; [exact Hc1|].
  exact (X8_drag_last_position_wins c c1 "b" 200 100 75 170 Hc1).
Defined.

(** X9 on the painted chain: three drags in a row. *)
Lemma X9_drag_session_never_throws_witness :
  exists c c',
    paint (layoutAdapter (H := Samples.stackOracle) Samples.chain) = Some c /\
    drags [("b", (200, 100)); ("a", (0, 0)); ("b", (10, 10))] c = Some c' /\
    wellFormed c'.
Proof.
  destruct (painted_ready (H := Samples.stackOracle) Samples.chain "b"
              LayoutProperties.chain_valid ltac:(cbn; tauto)) as (c & Hc & Hwf & Hb).
  destruct (painted_ready (H := Samples.stackOracle) Samples.chain "a"
              LayoutProperties.chain_valid ltac:(cbn; tauto)) as (c0 & Hc0 & _ & Ha).
  assert (c0 = c) by congruence. subst c0.
  destruct (X9_drag_session_never_throws
              [("b", (200, 100)); ("a", (0, 0)); ("b", (10, 10))] c Hwf)
    as (c' & Hc' & Hwf' & _).
  { repeat constructor; assumption. }
  exists c, c'. auto.
Defined.

(** X10 on the painted chain. *)
Lemma X10_drag_keeps_structure_witness :
  exists c c',
    paint (layoutAdapter (H := Samples.stackOracle) Samples.chain) = Some c /\
    drag c "b" 200 100 = Some c' /\
    dom (nodeViews c') = dom (nodeViews c) /\
    dom (edgeViews c') = dom (edgeViews c).
Proof.
  destruct (painted_ready (H := Samples.stackOracle) Samples.chain "b"
              LayoutProperties.chain_valid ltac:(cbn; tauto)) as (c & Hc & Hwf & Hb).
  destruct (drag_succeeds c "b" 200 100 Hwf Hb) as (c' & Hc' & _).
  destruct (X10_drag_keeps_structure c c' "b" 200 100 Hc') as (Hn & He & _).
  exists c, c'. auto.
Defined.

End DragMore.

(* ===================================================================== *)
(** ** More properties: auto-fit and export geometry                     *)
(* ===================================================================== *)

Module GeometryMore.

Import FlowChart ExportProperties.

Local Open Scope Q_scope.

(** X11.  For a graph of positive width and height in a container more
    than 80 units wide and high, the auto-fit transform has a positive
    scale of at most 3/2, the scaled graph is at most the container less
    80 units wide and high, and it is centred: the graph, which the
    transform sends to the span from [zoom_x] to [zoom_x] plus its
    scaled width (and likewise downwards), is at least 40 units away
    from every side of the container. *)
Theorem X11_autoFit_margins (containerWidth containerHeight graphWidth graphHeight : Q) :
  0 < graphWidth -> 0 < graphHeight ->
  80 < containerWidth -> 80 < containerHeight ->
  let t := autoFit containerWidth containerHeight graphWidth graphHeight in
  0 < zoom_k t /\ zoom_k t <= 3 # 2 /\
  graphWidth * zoom_k t <= containerWidth - 80 /\
  graphHeight * zoom_k t <= containerHeight - 80 /\
  zoom_x t + graphWidth * zoom_k t / 2 == containerWidth / 2 /\
  zoom_y t + graphHeight * zoom_k t / 2 == containerHeight / 2 /\
  40 <= zoom_x t /\ zoom_x t < zoom_x t + graphWidth * zoom_k t /\
  zoom_x t + graphWidth * zoom_k t <= containerWidth - 40 /\
  40 <= zoom_y t /\ zoom_y t < zoom_y t + graphHeight * zoom_k t /\
  zoom_y t + graphHeight * zoom_k t <= containerHeight - 40.
Proof.
  intros Hw Hh Hcw Hch. cbv zeta. unfold autoFit, scaleBy, translateBy, zoomIdentity.
  cbn [zoom_k zoom_x zoom_y].
  set (a := (containerWidth - 80) / graphWidth).
  set (b := (containerHeight - 80) / graphHeight).
  set (s := Qmin (Qmin a b) (3 # 2)).
  assert (Hs : s <= 3 # 2) by apply Q.le_min_r.
  assert (Hsa : s <= a).
  { eapply Qle_trans; [apply Q.le_min_l|apply Q.le_min_l]. }
  assert (Hsb : s <= b).
  { eapply Qle_trans; [apply Q.le_min_l|apply Q.le_min_r]. }
  assert (Hapos : 0 < a).
  { subst a. apply Qlt_shift_div_l; [exact Hw|]. rewrite Qmult_0_l. lra. }
  assert (Hbpos : 0 < b).
  { subst b. apply Qlt_shift_div_l; [exact Hh|]. rewrite Qmult_0_l. lra. }
  assert (Hspos : 0 < 1 * s).
  { rewrite Qmult_1_l. subst s.
    apply Q.min_glb_lt; [apply Q.min_glb_lt; assumption|reflexivity]. }
  assert (Hw0 : ~ graphWidth == 0) by (intros E; rewrite E in Hw; now apply Qlt_irrefl in Hw).
  assert (Hh0 : ~ graphHeight == 0) by (intros E; rewrite E in Hh; now apply Qlt_irrefl in Hh).
  assert (Ha : graphWidth * s <= containerWidth - 80).
  { apply (Qmult_le_l _ _ graphWidth Hw) in Hsa.
    assert (E : graphWidth * a == containerWidth - 80) by (subst a; field; exact Hw0).
    now rewrite E in Hsa. }
  assert (Hb : graphHeight * s <= containerHeight - 80).
  { apply (Qmult_le_l _ _ graphHeight Hh) in Hsb.
    assert (E : graphHeight * b == containerHeight - 80) by (subst b; field; exact Hh0).
    now rewrite E in Hsb. }
  assert (Hwpos : 0 < graphWidth * (1 * s)).
  { rewrite <- (Qmult_0_r graphWidth). now apply Qmult_lt_l. }
  assert (Hhpos : 0 < graphHeight * (1 * s)).
  { rewrite <- (Qmult_0_r graphHeight). now apply Qmult_lt_l. }
  clearbody s. clear a b Hsa Hsb Hapos Hbpos.
  set (ws := graphWidth * s) in *. set (hs := graphHeight * s) in *.
  assert (Ew : graphWidth * (1 * s) == ws) by (subst ws; ring).
  assert (Eh : graphHeight * (1 * s) == hs) by (subst hs; ring).
  rewrite Ew in Hwpos. rewrite Eh in Hhpos.
  clearbody ws hs.
  split; [exact Hspos|].
  split; [rewrite Qmult_1_l; exact Hs|].
  repeat split; rewrite ?Ew, ?Eh; unfold Qdiv; change (/ 2) with (1 # 2); lra.
Qed.

(** X11 in an 800 x 600 container with a 150 x 340 graph. *)
Lemma X11_autoFit_margins_witness :
  0 < zoom_k (autoFit 800 600 150 340) /\
  zoom_k (autoFit 800 600 150 340) <= 3 # 2 /\
  40 <= zoom_x (autoFit 800 600 150 340) /\
  40 <= zoom_y (autoFit 800 600 150 340).
Proof.
  destruct (X11_autoFit_margins 800 600 150 340 ltac:(reflexivity) ltac:(reflexivity)
              ltac:(reflexivity) ltac:(reflexivity))
    as (Hpos & Hk & _ & _ & _ & _ & Hx & _ & _ & Hy & _).
  auto.
Defined.

(** X12.  The SVG document that [createCanvasFromSVG] builds from the
    clone and hands to the image (lines 44-57) is padded by 20 units at
    whatever scale it is given, not only at 2: its [width] and [height]
    are ((w + 40) s, (h + 40) s) and the transform of its content group
    puts the bounding box 20 s inside it on every side.  It is the
    document of [getSVGString] magnified by the scale: the same size
    times s, and every point of the diagram lands at s times the place
    it has in the SVG export. *)
Theorem X12_padding_at_any_scale (bbox : BBox) (scale : Q) :
  paddedAt bbox scale (createCanvasFromSVG bbox scale) /\
  exists doc,
    getSVGString (Some bbox) = Some doc /\
    svgWidth (createCanvasFromSVG bbox scale) == svgWidth doc * scale /\
    svgHeight (createCanvasFromSVG bbox scale) == svgHeight doc * scale /\
    forall p : point,
      px (placed (createCanvasFromSVG bbox scale) p) == px (placed doc p) * scale /\
      py (placed (createCanvasFromSVG bbox scale) p) == py (placed doc p) * scale.
Proof.
  split.
  - unfold paddedAt, placed, createCanvasFromSVG, padding; cbn.
    repeat split; ring.
  - eexists. split; [reflexivity|].
    unfold placed, createCanvasFromSVG; cbn.
    split; [reflexivity|]. split; [reflexivity|].
    intros p. split; ring.
Qed.

(** The fit reaches one of the two limits. *)
Lemma fit_touches (uw uh r : Q) :
  0 < uw -> 0 < uh -> 0 < r ->
  let iw := if Qgtb (uw / r) uh then uh * r else uw in
  let ih := if Qgtb (uw / r) uh then uh else uw / r in
  (iw == uw \/ ih == uh) /\ 0 < iw.
Proof.
  intros Huw Huh Hr. cbv zeta.
  destruct (Qgtb (uw / r) uh).
  - split; [right; reflexivity|]. apply Qmult_lt_0_compat; assumption.
  - split; [left; reflexivity|exact Huw].
Qed.

(** X13.  The fit-to-page placement is the largest one: the image is as
    wide or as high as the page less its margins allows, it lies within
    the margins of 10 mm on all four sides, and it is not empty. *)
Theorem X13_fit_is_maximal (canvas : HTMLCanvas) :
  (0 < canvas_width canvas)%Z -> (0 < canvas_height canvas)%Z ->
  let page := handleExportPDF true canvas in
  (imgWidth page == pageWidth page - 20 \/ imgHeight page == pageHeight page - 20) /\
  0 < imgWidth page /\ 0 < imgHeight page /\
  10 <= image_x page /\ image_x page + imgWidth page <= pageWidth page - 10 /\
  10 <= image_y page /\ image_y page + imgHeight page <= pageHeight page - 10.
Proof.
  intros Hw Hh. cbv zeta.
  pose proof (ratio_positive canvas Hw Hh) as Hr.
  unfold handleExportPDF, fitToPage.
  set (r := canvasAspectRatio canvas) in *.
  destruct (Qgtb r 1).
  - pose proof (fit_within (A4_HEIGHT_MM - PADDING_MM * 2)
                           (A4_WIDTH_MM - PADDING_MM * 2) r
                           ltac:(reflexivity) ltac:(reflexivity) Hr) as Hfit.
    pose proof (fit_touches (A4_HEIGHT_MM - PADDING_MM * 2)
                            (A4_WIDTH_MM - PADDING_MM * 2) r
                            ltac:(reflexivity) ltac:(reflexivity) Hr) as Htouch.
    cbv zeta in Hfit, Htouch.
    set (q := (A4_HEIGHT_MM - PADDING_MM * 2) / r) in *.
    destruct (Qgtb q (A4_WIDTH_MM - PADDING_MM * 2));
      cbn [pageWidth pageHeight imgWidth imgHeight image_x image_y];
      destruct Hfit as (H1 & _ & H3 & H4); destruct Htouch as (H5 & H6);
      clearbody q;
      unfold A4_HEIGHT_MM, A4_WIDTH_MM, PADDING_MM in *;
      (split; [destruct H5 as [H5|H5]; [left|right]; lra|]);
      repeat split; try assumption;
      unfold Qdiv; change (/ 2) with (1 # 2); lra.
  - pose proof (fit_within (A4_WIDTH_MM - PADDING_MM * 2)
                           (A4_HEIGHT_MM - PADDING_MM * 2) r
                           ltac:(reflexivity) ltac:(reflexivity) Hr) as Hfit.
    pose proof (fit_touches (A4_WIDTH_MM - PADDING_MM * 2)
                            (A4_HEIGHT_MM - PADDING_MM * 2) r
                            ltac:(reflexivity) ltac:(reflexivity) Hr) as Htouch.
    cbv zeta in Hfit, Htouch.
    set (q := (A4_WIDTH_MM - PADDING_MM * 2) / r) in *.
    destruct (Qgtb q (A4_HEIGHT_MM - PADDING_MM * 2));
      cbn [pageWidth pageHeight imgWidth imgHeight image_x image_y];
      destruct Hfit as (H1 & _ & H3 & H4); destruct Htouch as (H5 & H6);
      clearbody q;
      unfold A4_HEIGHT_MM, A4_WIDTH_MM, PADDING_MM in *;
      (split; [destruct H5 as [H5|H5]; [left|right]; lra|]);
      repeat split; try assumption;
      unfold Qdiv; change (/ 2) with (1 # 2); lra.
Qed.

(** X13 at a 600 x 400 canvas. *)
Lemma X13_fit_is_maximal_witness :
  10 <= image_x (handleExportPDF true MoreSamples.wideCanvas) /\
  10 <= image_y (handleExportPDF true MoreSamples.wideCanvas).
Proof.
  destruct (X13_fit_is_maximal MoreSamples.wideCanvas
              ltac:(reflexivity) ltac:(reflexivity))
    as (_ & _ & _ & Hx & _ & Hy & _).
  auto.
Defined.

Lemma ratio_above_one (canvas : HTMLCanvas) :
  (0 < canvas_height canvas)%Z ->
  Qgtb (canvasAspectRatio canvas) 1 =
  Qgtb (inject_Z (canvas_width canvas)) (inject_Z (canvas_height canvas)).
Proof.
  intros Hh. unfold canvasAspectRatio.
  assert (Hq : 0 < inject_Z (canvas_height canvas))
    by (change 0 with (inject_Z 0); now rewrite <- Zlt_Qlt).
  assert (Hq0 : ~ inject_Z (canvas_height canvas) == 0)
    by (intros E; rewrite E in Hq; now apply Qlt_irrefl in Hq).
  set (cw := inject_Z (canvas_width canvas)) in *.
  set (ch := inject_Z (canvas_height canvas)) in *.
  destruct (Qgtb cw ch) eqn:Hcmp.
  - apply Qgtb_true in Hcmp. apply Qgtb_true.
    apply Qlt_shift_div_l; [exact Hq|]. now rewrite Qmult_1_l.
  - apply Qgtb_false in Hcmp. apply Qgtb_false.
    apply Qle_shift_div_r; [exact Hq|]. now rewrite Qmult_1_l.
Qed.

(** X14.  For a canvas of positive size the two PDF modes agree on the
    orientation of the page (landscape exactly when the canvas is wider
    than high); in native-size mode the page has the size of the canvas
    and the image covers it from the origin, unscaled. *)
Theorem X14_pdf_modes_agree (canvas : HTMLCanvas) :
  (0 < canvas_width canvas)%Z -> (0 < canvas_height canvas)%Z ->
  orientation (handleExportPDF true canvas) = orientation (handleExportPDF false canvas) /\
  (orientation (handleExportPDF false canvas) = Landscape <->
   (canvas_height canvas < canvas_width canvas)%Z) /\
  pageWidth (handleExportPDF false canvas) = inject_Z (canvas_width canvas) /\
  pageHeight (handleExportPDF false canvas) = inject_Z (canvas_height canvas) /\
  imgWidth (handleExportPDF false canvas) = pageWidth (handleExportPDF false canvas) /\
  imgHeight (handleExportPDF false canvas) = pageHeight (handleExportPDF false canvas) /\
  image_x (handleExportPDF false canvas) = 0 /\
  image_y (handleExportPDF false canvas) = 0.
Proof.
  intros Hw Hh. unfold handleExportPDF, fitToPage, nativeSize.
  rewrite (ratio_above_one canvas Hh).
  destruct (Qgtb (inject_Z (canvas_width canvas)) (inject_Z (canvas_height canvas)))
    eqn:Hcmp.
  - destruct (Qgtb (_ / _) _);
      cbn [orientation pageWidth pageHeight imgWidth imgHeight image_x image_y].
    all: split; [reflexivity|].
    all: split; [split; [intros _; rewrite Zlt_Qlt; apply Qgtb_true; exact Hcmp
                        |reflexivity]|].
    all: repeat split.
  - destruct (Qgtb (_ / _) _);
      cbn [orientation pageWidth pageHeight imgWidth imgHeight image_x image_y].
    all: split; [reflexivity|].
    all: split;
      [split; [discriminate|
               intros Hlt; rewrite Zlt_Qlt in Hlt; apply Qgtb_true in Hlt; congruence]|].
    all: repeat split.
Qed.

(** X14 at a 600 x 400 canvas: landscape in both modes. *)
Lemma X14_pdf_modes_agree_witness :
  orientation (handleExportPDF true MoreSamples.wideCanvas) = Landscape /\
  orientation (handleExportPDF false MoreSamples.wideCanvas) = Landscape.
Proof.
  destruct (X14_pdf_modes_agree MoreSamples.wideCanvas
              ltac:(reflexivity) ltac:(reflexivity)) as (Hsame & Hland & _).
  assert (Hn : orientation (handleExportPDF false MoreSamples.wideCanvas) = Landscape)
    by (apply Hland; reflexivity).
  split; [congruence|exact Hn].
Defined.

End GeometryMore.

(* ===================================================================== *)
(** ** More properties: what a style change does                         *)
(* ===================================================================== *)

Module StyleMore.

Import FlowChart StyleProperties ViewProperties.

#[local] Set Warnings "-clear-no-such-hyp".

Lemma applyOps_snoc ops op :
  applyOps (ops ++ [op]) initialStyles = applyOp (applyOps ops initialStyles) op.
Proof. unfold applyOps. now rewrite foldl_app. Qed.

(** The StyleSet a state refers to holds references to allocated objects
    only. *)
Lemma handleStyleChange_closed nodeType property val st :
  is_Some (heap st !! customNodeStyles st) ->
  (forall k l, entriesAt (heap st) (customNodeStyles st) !! k = Some l ->
               is_Some (heap st !! l)) ->
  forall k l,
    entriesAt (heap (handleStyleChange nodeType property val st))
              (customNodeStyles (handleStyleChange nodeType property val st)) !! k
      = Some l ->
    is_Some (heap (handleStyleChange nodeType property val st) !! l).
Proof.
  intros Halloc Hclosed k l. unfold handleStyleChange. cbn [heap customNodeStyles].
  set (inner := fresh (dom (heap st))).
  set (h1 := <[inner := _]> (heap st)).
  set (outer := fresh (dom h1)).
  unfold entriesAt at 1. rewrite lookup_insert_eq.
  intros Hk.
  assert (Hin1 : forall l', is_Some (h1 !! l') -> is_Some (<[outer := StylesObj
              (<[nodeType := inner]> (entriesAt (heap st) (customNodeStyles st)))]> h1 !! l')).
  { intros l' Hl'. destruct (decide (outer = l')) as [->|Hne].
    - rewrite lookup_insert_eq. eauto.
    - now rewrite lookup_insert_ne. }
  apply Hin1.
  apply lookup_insert_Some in Hk as [[_ <-]|[_ Hk]].
  - subst h1. rewrite lookup_insert_eq. eauto.
  - subst h1. destruct (decide (inner = l)) as [->|Hne].
    + rewrite lookup_insert_eq. eauto.
    + rewrite lookup_insert_ne by exact Hne. eauto.
Qed.

Lemma applyOps_closed ops :
  forall k l,
    entriesAt (heap (applyOps ops initialStyles))
              (customNodeStyles (applyOps ops initialStyles)) !! k = Some l ->
    is_Some (heap (applyOps ops initialStyles) !! l).
Proof.
  induction ops as [|op ops IH] using rev_ind.
  - exact default_entries_allocated.
  - rewrite applyOps_snoc.
    pose proof (applyOps_allocated ops) as Halloc.
    destruct op as [nodeType property val|nodeType raw|]; cbn [applyOp].
    + now apply handleStyleChange_closed.
    + unfold fontSizeChange. now apply handleStyleChange_closed.
    + cbn [reset heap customNodeStyles]. intros k l Hk.
      pose proof (applyOps_extends ops initialStyles) as Hsub.
      cbn [heap initialStyles] in Hsub.
      rewrite (entriesAt_weaken moduleHeap) in Hk
        by (exact Hsub || (vm_compute; eauto)).
      destruct (default_entries_allocated k l Hk) as [o Ho].
      rewrite (lookup_weaken _ _ _ _ Ho Hsub). eauto.
Qed.

(** What [handleStyleChange] does to the StyleSet, read through its
    references. *)
Lemma readStyles_change nodeType property val st :
  is_Some (heap st !! customNodeStyles st) ->
  (forall k l, entriesAt (heap st) (customNodeStyles st) !! k = Some l ->
               is_Some (heap st !! l)) ->
  readStyles (handleStyleChange nodeType property val st) =
  <[nodeType := <[property := val]> (default ∅ (readStyles st !! nodeType))]>
    (readStyles st).
Proof.
  intros Halloc Hclosed. unfold readStyles at 1, handleStyleChange.
  cbn [heap customNodeStyles].
  set (prev := entriesAt (heap st) (customNodeStyles st)).
  set (inner := fresh (dom (heap st))).
  set (prevStyle := match prev !! nodeType with
                    | Some l => fieldsAt (heap st) l
                    | None => ∅
                    end).
  set (h1 := <[inner := StyleObj (<[property := val]> prevStyle)]> (heap st)).
  set (outer := fresh (dom h1)).
  set (h2 := <[outer := StylesObj (<[nodeType := inner]> prev)]> h1).
  assert (Hsub1 : heap st ⊆ h1) by (apply insert_subseteq, fresh_unallocated).
  assert (Hsub2 : h1 ⊆ h2) by (apply insert_subseteq, fresh_unallocated).
  assert (Hne : outer <> inner).
  { intros Heq. pose proof (fresh_unallocated h1) as Hf. fold outer in Hf.
    rewrite Heq in Hf. subst h1. rewrite lookup_insert_eq in Hf. discriminate. }
  assert (Hentries : entriesAt h2 outer = <[nodeType := inner]> prev).
  { unfold entriesAt. subst h2. now rewrite lookup_insert_eq. }
  assert (Hinner : fieldsAt h2 inner = <[property := val]> prevStyle).
  { unfold fieldsAt. subst h2. rewrite lookup_insert_ne by exact Hne.
    subst h1. now rewrite lookup_insert_eq. }
  rewrite Hentries, fmap_insert, Hinner.
  assert (Hprev : prevStyle = default ∅ (readStyles st !! nodeType)).
  { unfold readStyles. fold prev. rewrite lookup_fmap. subst prevStyle.
    now destruct (prev !! nodeType). }
  rewrite Hprev. f_equal.
  unfold readStyles. fold prev.
  apply map_fmap_ext. intros k l Hk.
  apply fieldsAt_weaken; [now transitivity h1|].
  now apply (Hclosed k l).
Qed.

(** X15.  In any state the Style Editor can reach, [handleStyleChange]
    replaces that one field in that one type's style and nothing else:
    the other fields of the type and all other types read as before.  A
    type that was not in the StyleSet gets a style with just that field. *)
Theorem X15_change_replaces_one_field (ops : list styleOp)
  (nodeType property : string) (val : value) :
  readStyles (handleStyleChange nodeType property val (applyOps ops initialStyles)) =
  <[nodeType := <[property := val]>
                  (default ∅ (readStyles (applyOps ops initialStyles) !! nodeType))]>
    (readStyles (applyOps ops initialStyles)).
Proof.
  apply readStyles_change; [apply applyOps_allocated|apply applyOps_closed].
Qed.

(** X16.  Two changes to different fields (another type or another
    property) give the same StyleSet in either order; two changes to the
    same field leave the value of the second. *)
Theorem X16_changes_compose (ops : list styleOp)
  (t1 p1 : string) (v1 : value) (t2 p2 : string) (v2 : value) :
  (t1 <> t2 \/ p1 <> p2 ->
   readStyles (applyOps (ops ++ [Change t1 p1 v1; Change t2 p2 v2]) initialStyles) =
   readStyles (applyOps (ops ++ [Change t2 p2 v2; Change t1 p1 v1]) initialStyles)) /\
  readStyles (applyOps (ops ++ [Change t1 p1 v1; Change t1 p1 v2]) initialStyles) =
  readStyles (applyOps (ops ++ [Change t1 p1 v2]) initialStyles).
Proof.
  assert (Hstep : forall os t p v,
             readStyles (applyOps (os ++ [Change t p v]) initialStyles) =
             <[t := <[p := v]> (default ∅ (readStyles (applyOps os initialStyles) !! t))]>
               (readStyles (applyOps os initialStyles))).
  { intros os t p v. rewrite applyOps_snoc. cbn [applyOp].
    apply readStyles_change; [apply applyOps_allocated|apply applyOps_closed]. }
  assert (Htwo : forall a b, (ops ++ [a; b])%list = ((ops ++ [a]) ++ [b])%list).
  { intros a b. now rewrite <- app_assoc. }
  set (R := readStyles (applyOps ops initialStyles)).
  split.
  - intros Hdiff. rewrite !Htwo, !Hstep. fold R.
    destruct (decide (t1 = t2)) as [<-|Hne].
    + destruct Hdiff as [Hd|Hd]; [contradiction|].
      rewrite !lookup_insert_eq. cbn [default from_option id].
      rewrite (insert_insert_eq R), (insert_insert_eq R).
      f_equal. apply insert_insert_ne. congruence.
    + rewrite !lookup_insert_ne by congruence.
      apply insert_insert_ne. congruence.
  - rewrite Htwo, !Hstep. fold R.
    rewrite lookup_insert_eq. cbn [default from_option id].
    rewrite insert_insert_eq. now rewrite insert_insert_eq.
Qed.

(** X16 on a colour of one type and the font size of another. *)
Lemma X16_changes_compose_witness :
  readStyles (applyOps [Change "start" "color1" (VStr "#000000");
                        Change "end" "fontSize" (VNum 18)] initialStyles) =
  readStyles (applyOps [Change "end" "fontSize" (VNum 18);
                        Change "start" "color1" (VStr "#000000")] initialStyles).
Proof.
  destruct (X16_changes_compose [] "start" "color1" (VStr "#000000")
              "end" "fontSize" (VNum 18)) as [Hcommute _].
  apply Hcommute. left. discriminate.
Defined.

(** X17.  A StyleSet object is never written after it has been the
    state: whatever the editor does later, reading through a reference
    that was the value of [customNodeStyles] gives what it gave then. *)
Theorem X17_earlier_styles_persist (ops later : list styleOp) :
  readStyles {| heap := heap (applyOps (ops ++ later) initialStyles);
                customNodeStyles := customNodeStyles (applyOps ops initialStyles) |} =
  readStyles (applyOps ops initialStyles).
Proof.
  set (st := applyOps ops initialStyles).
  assert (Hsub : heap st ⊆ heap (applyOps (ops ++ later) initialStyles)).
  { unfold applyOps. rewrite foldl_app. apply (applyOps_extends later st). }
  unfold readStyles. cbn [heap customNodeStyles].
  rewrite (entriesAt_weaken (heap st)) by (exact Hsub || apply applyOps_allocated).
  apply map_fmap_ext. intros k l Hk.
  apply fieldsAt_weaken; [exact Hsub|].
  now apply (applyOps_closed ops k l).
Qed.

End StyleMore.

(* ===================================================================== *)
(** ** More properties: where the label breaks                           *)
(* ===================================================================== *)

Module WrapMore.

Import FlowChart WrapProperties.

Local Open Scope Q_scope.

Section Wrap.
Variable getComputedTextLength : ustring -> Q.
Variable width : Q.

(** No tspan is left empty once the first word has been pushed. *)
Lemma wrapLoop_nonempty words line finished :
  Forall (fun l => l <> []) finished ->
  (line = [] -> exists word rest, words = word :: rest /\ is_empty word = false) ->
  Forall (fun l => l <> []) (wrapLoop getComputedTextLength width words line finished).
Proof.
  revert line finished.
  induction words as [|word rest IH]; intros line finished Hfin Hline;
    cbn [wrapLoop].
  - apply Forall_app. split; [exact Hfin|]. constructor; [|constructor].
    intros Heq. destruct (Hline Heq) as (? & ? & ? & _). discriminate.
  - destruct (is_empty word) eqn:Hword.
    + apply Forall_app. split; [exact Hfin|]. constructor; [|constructor].
      intros Heq. destruct (Hline Heq) as (? & ? & Hw & He).
      injection Hw as <- <-. congruence.
    + destruct (Qgtb _ _ && _) eqn:Hbreak.
      * apply IH.
        -- apply Forall_app. split; [exact Hfin|]. constructor; [|constructor].
           intros ->. cbn in Hbreak. now rewrite andb_false_r in Hbreak.
        -- discriminate.
      * apply IH; [exact Hfin|]. intros Heq. now destruct line.
Qed.

(** A tspan that holds more than one word is not wider than the limit. *)
Lemma wrapLoop_lines_fit words line finished :
  let fits l := (1 < length l)%nat ->
                Qgtb (getComputedTextLength (join_space l)) width = false in
  Forall fits finished -> fits line ->
  Forall fits (wrapLoop getComputedTextLength width words line finished).
Proof.
  intros fits. revert line finished.
  induction words as [|word rest IH]; intros line finished Hfin Hline;
    cbn [wrapLoop].
  - apply Forall_app. split; [exact Hfin|]. now constructor.
  - destruct (is_empty word).
    + apply Forall_app. split; [exact Hfin|]. now constructor.
    + destruct (Qgtb _ _) eqn:Hwide; cbn [andb].
      * destruct (1 <? length (line ++ [word]))%nat eqn:Hlong.
        -- apply IH.
           ++ apply Forall_app. split; [exact Hfin|]. now constructor.
           ++ intros Hlen. cbn in Hlen. lia.
        -- apply IH; [exact Hfin|]. intros Hlen.
           apply Nat.ltb_ge in Hlong. lia.
      * apply IH; [exact Hfin|]. intros _. exact Hwide.
Qed.

(** A new tspan is begun only with a word that did not fit on the
    previous one. *)
Lemma wrapLoop_breaks_forced words line finished :
  let forced (l1 l2 : list ustring) :=
    exists word rest, l2 = word :: rest /\
      Qgtb (getComputedTextLength (join_space (l1 ++ [word]))) width = true in
  (forall i l1 l2, (finished ++ [line])%list !! i = Some l1 ->
                   (finished ++ [line])%list !! S i = Some l2 -> forced l1 l2) ->
  forall i l1 l2,
    wrapLoop getComputedTextLength width words line finished !! i = Some l1 ->
    wrapLoop getComputedTextLength width words line finished !! S i = Some l2 ->
    forced l1 l2.
Proof.
  intros forced. revert line finished.
  induction words as [|word rest IH]; intros line finished Hinv;
    cbn [wrapLoop]; [exact Hinv|].
  destruct (is_empty word); [exact Hinv|].
  destruct (Qgtb _ _) eqn:Hwide; cbn [andb].
  - destruct (1 <? length (line ++ [word]))%nat.
    + apply IH. intros i l1 l2 H1 H2.
      destruct (decide (S i < length (finished ++ [line]))%nat) as [Hlt|Hge].
      * rewrite lookup_app_l in H1 by lia. rewrite lookup_app_l in H2 by lia.
        now apply (Hinv i).
      * assert (Hi : S i = length (finished ++ [line])).
        { apply lookup_lt_Some in H2. rewrite length_app in H2. cbn in H2. lia. }
        rewrite lookup_app_r in H2 by lia. rewrite Hi, Nat.sub_diag in H2.
        injection H2 as <-.
        rewrite lookup_app_l in H1 by lia.
        rewrite length_app in Hi. cbn in Hi.
        rewrite lookup_app_r in H1 by lia.
        replace (i - length finished)%nat with 0%nat in H1 by lia.
        injection H1 as <-.
        exists word, []. split; [reflexivity|exact Hwide].
    + apply IH. intros i l1 l2 H1 H2.
      destruct (decide (S i < length finished)%nat) as [Hlt|Hge].
      * rewrite lookup_app_l in H1 by lia. rewrite lookup_app_l in H2 by lia.
        apply (Hinv i); now rewrite lookup_app_l by lia.
      * assert (Hi : S i = length finished).
        { apply lookup_lt_Some in H2. rewrite length_app in H2. cbn in H2. lia. }
        rewrite lookup_app_r in H2 by lia. rewrite Hi, Nat.sub_diag in H2.
        injection H2 as <-.
        rewrite lookup_app_l in H1 by lia.
        destruct (Hinv i l1 line) as (w & tl & -> & Hw).
        -- now rewrite lookup_app_l by lia.
        -- rewrite lookup_app_r by lia. now rewrite Hi, Nat.sub_diag.
        -- exists w, (tl ++ [word])%list. split; [reflexivity|exact Hw].
  - apply IH. intros i l1 l2 H1 H2.
    destruct (decide (S i < length finished)%nat) as [Hlt|Hge].
    + rewrite lookup_app_l in H1 by lia. rewrite lookup_app_l in H2 by lia.
      apply (Hinv i); now rewrite lookup_app_l by lia.
    + assert (Hi : S i = length finished).
      { apply lookup_lt_Some in H2. rewrite length_app in H2. cbn in H2. lia. }
      rewrite lookup_app_r in H2 by lia. rewrite Hi, Nat.sub_diag in H2.
      injection H2 as <-.
      rewrite lookup_app_l in H1 by lia.
      destruct (Hinv i l1 line) as (w & tl & -> & Hw).
      * now rewrite lookup_app_l by lia.
      * rewrite lookup_app_r by lia. now rewrite Hi, Nat.sub_diag.
      * exists w, (tl ++ [word])%list. split; [reflexivity|exact Hw].
Qed.

End Wrap.

(** X18.  For a label that does not begin with white space, the tspans
    hold exactly the words of the label, in order, and no tspan is
    empty. *)
Theorem X18_wrap_keeps_every_word (measure : ustring -> Q) (width : Q)
  (c : N) (rest : ustring) :
  is_ws c = false ->
  concat (wrapLines measure width (c :: rest)) = words_of (c :: rest) /\
  Forall (fun line => line <> []) (wrapLines measure width (c :: rest)).
Proof.
  intros Hc. split.
  - unfold wrapLines. rewrite wrapLoop_concat. cbn [concat app].
    now apply leadingWords_split.
  - unfold wrapLines. apply wrapLoop_nonempty; [constructor|].
    intros _. unfold split_ws. cbn [split_from]. rewrite Hc.
    assert (Hhead : forall s cur, cur <> [] ->
              exists word more, split_from cur false s = word :: more /\
                                is_empty word = false).
    { induction s as [|d s IH]; intros cur Hcur; cbn [split_from].
      - exists (rev cur), []. split; [reflexivity|].
        destruct cur as [|x cur]; [contradiction|]. cbn [rev].
        now destruct (rev cur).
      - destruct (is_ws d).
        + eexists _, _. split; [reflexivity|].
          destruct cur as [|x cur]; [contradiction|]. cbn [rev].
          now destruct (rev cur).
        + apply IH. discriminate. }
    apply Hhead. discriminate.
Qed.

(** X18 on the sample label. *)
Lemma X18_wrap_keeps_every_word_witness :
  concat (wrapLines Samples.tenPerUnit (NODE_WIDTH - 25) Samples.plainLabel) =
    words_of Samples.plainLabel /\
  Forall (fun line => line <> [])
         (wrapLines Samples.tenPerUnit (NODE_WIDTH - 25) Samples.plainLabel).
Proof.
  apply (X18_wrap_keeps_every_word Samples.tenPerUnit (NODE_WIDTH - 25)
           97%N (units "lpha beta gamma")).
  reflexivity.
Defined.

(** X19.  The wrap is greedy, for every label and every text measure: a
    tspan with more than one word is not wider than the limit, and a
    tspan after the first begins with a word that, added to the tspan
    before it, made that one wider than the limit. *)
Theorem X19_wrap_is_greedy (measure : ustring -> Q) (width : Q) (text : ustring) :
  Forall (fun line => (1 < length line)%nat ->
                      Qgtb (measure (join_space line)) width = false)
         (wrapLines measure width text) /\
  forall i before line,
    wrapLines measure width text !! i = Some before ->
    wrapLines measure width text !! S i = Some line ->
    exists word more, line = word :: more /\
      Qgtb (measure (join_space (before ++ [word]))) width = true.
Proof.
  split.
  - unfold wrapLines. apply wrapLoop_lines_fit; [constructor|].
    cbn. lia.
  - unfold wrapLines. apply wrapLoop_breaks_forced.
    intros i l1 l2 _ H2. destruct i; discriminate H2.
Qed.

End WrapMore.

(* ===================================================================== *)
(** ** More properties: the resizable panels                             *)
(* ===================================================================== *)

Module PanelsMore.

Import ResizablePanels.

Local Open Scope Q_scope.

(** What holds of the mounted component while [minWidth] stays the same:
    nothing listens on [window], and the width is the initial one. *)
Lemma step_idle (initialLeftWidth minWidth0 : Q) (st : state) (e : event) :
  keepsMinWidth minWidth0 e = true ->
  leftWidth st = initialLeftWidth /\ listening st = false /\ minWidth st == minWidth0 ->
  leftWidth (step st e) = initialLeftWidth /\ listening (step st e) = false /\
  minWidth (step st e) == minWidth0.
Proof.
  intros He (Hw & Hl & Hm).
  destruct e as [|clientX rect| |minWidthProp]; cbn [step].
  - now cbn.
  - now rewrite Hl.
  - now rewrite Hl.
  - cbn [keepsMinWidth] in He. apply Qeq_bool_iff in He.
    assert (Heq : Qeq_bool minWidthProp (minWidth st) = true).
    { apply Qeq_bool_iff. now rewrite He, Hm. }
    now rewrite Heq.
Qed.

(** X20.  As long as the parent passes the same [minWidth], no sequence
    of mouse events resizes the panels: the effect that would add the
    window listeners runs at mount only, when the ref is still false, so
    the left panel keeps its initial width. *)
Theorem X20_resize_never_starts (initialLeftWidth minWidth0 : Q)
  (events : list event) :
  Forall (fun e => keepsMinWidth minWidth0 e = true) events ->
  leftWidth (run events (mounted initialLeftWidth minWidth0)) = initialLeftWidth /\
  listening (run events (mounted initialLeftWidth minWidth0)) = false.
Proof.
  intros Hev.
  enough (H : forall st,
             leftWidth st = initialLeftWidth /\ listening st = false /\
             minWidth st == minWidth0 ->
             leftWidth (run events st) = initialLeftWidth /\
             listening (run events st) = false).
  { apply H. cbn. repeat split; reflexivity. }
  induction Hev as [|e rest He _ IH]; intros st Hst.
  - cbn. tauto.
  - unfold run. cbn [foldl]. apply IH. now apply step_idle.
Qed.

(** X20 on a press on the separator, a move to 70% of the container and
    a release, with a render in between. *)
Lemma X20_resize_never_starts_witness :
  leftWidth (run [MouseDown; Render 25;
                  WindowMouseMove 700 (Some MoreSamples.panelRect);
                  WindowMouseUp] (mounted 40 25)) = 40 /\
  listening (run [MouseDown; Render 25;
                  WindowMouseMove 700 (Some MoreSamples.panelRect);
                  WindowMouseUp] (mounted 40 25)) = false.
Proof.
  apply (X20_resize_never_starts 40 25).
  repeat constructor.
Defined.

(** X21.  When [handleMouseMove] does set the width, the new width lies
    between [minWidth] and [100 - minWidth] provided [minWidth] is at
    most 50; with a larger [minWidth] the two bounds cross and the width
    is [minWidth] wherever the pointer is. *)
Theorem X21_width_is_clamped (clientX : Q) (containerRect : DOMRect) (st : state) :
  isResizing st = true ->
  ~ rect_width containerRect == 0 ->
  (minWidth st <= 50 ->
   minWidth st <= leftWidth (handleMouseMove clientX (Some containerRect) st) /\
   leftWidth (handleMouseMove clientX (Some containerRect) st) <= 100 - minWidth st) /\
  (50 < minWidth st ->
   leftWidth (handleMouseMove clientX (Some containerRect) st) == minWidth st).
Proof.
  intros Hres _. unfold handleMouseMove. rewrite Hres. cbn [leftWidth].
  unfold clamp.
  set (new := (clientX - rect_left containerRect) / rect_width containerRect * 100).
  clearbody new. set (m := minWidth st). clearbody m.
  split.
  - intros Hm. split; [apply Q.le_max_l|].
    apply Q.max_lub; [lra|apply Q.le_min_r].
  - intros Hm. apply Q.max_l.
    apply Qle_trans with (100 - m); [apply Q.le_min_r|lra].
Qed.

(** X21 on a pointer at 90% of a container 1000 wide, [minWidth] 25. *)
Lemma X21_width_is_clamped_witness :
  leftWidth (handleMouseMove 900 (Some MoreSamples.panelRect)
               (handleMouseDown (mounted 40 25))) <= 100 - 25.
Proof.
  destruct (X21_width_is_clamped 900 MoreSamples.panelRect
              (handleMouseDown (mounted 40 25))) as [Hin _].
  - reflexivity.
  - intros H. vm_compute in H. discriminate H.
  - apply Hin. vm_compute. discriminate.
Defined.

End PanelsMore.

(* ===================================================================== *)
(** ** More properties: export menu and tooltip                          *)
(* ===================================================================== *)

Module MenuMore.

Import ExportMenu.

Lemma perform_keeps_timer (st : state) (a : action) :
  (copyStatus st <> idle -> exists rest, pendingResets st = 2000%Z :: rest) ->
  Forall (fun delay => delay = 2000%Z) (pendingResets st) ->
  (copyStatus (perform st a) <> idle ->
   exists rest, pendingResets (perform st a) = 2000%Z :: rest) /\
  Forall (fun delay => delay = 2000%Z) (pendingResets (perform st a)).
Proof.
  intros Hst Hall.
  assert (Hpush : exists rest, (pendingResets st ++ [2000%Z])%list = 2000%Z :: rest).
  { destruct (pendingResets st) as [|d rest] eqn:Hp; [now exists []|].
    inversion Hall as [|? ? Hd _]; subst. now eexists. }
  assert (Hall' : Forall (fun delay => delay = 2000%Z) (pendingResets st ++ [2000%Z])).
  { apply Forall_app. split; [exact Hall|now constructor]. }
  destruct a as [s|refs rendered|refs rendered fit|s written
                |refs rendered blob written| | |]; cbn [perform].
  - unfold handleExportSVG. now destruct s.
  - unfold handleExportPNG. now destruct refs, rendered.
  - unfold handleExportPDF. now destruct refs, rendered.
  - unfold handleCopySVG. destruct s as [s|]; [|tauto].
    destruct written; cbn; tauto.
  - unfold handleCopyPNG. destruct refs; cbn [negb]; [|tauto].
    destruct rendered; [|cbn; tauto].
    destruct (blob && written); cbn; tauto.
  - unfold timerFires. destruct (pendingResets st) as [|d rest] eqn:Hp.
    + rewrite Hp. tauto.
    + cbn. split; [congruence|]. now inversion Hall.
  - cbn. tauto.
  - cbn. tauto.
Qed.

(** X22.  Whatever the user does with the export menu and whatever the
    clipboard and the timers do, a copy status other than idle always
    has its reset pending: the "copied" mark is not left on for good. *)
Theorem X22_copied_mark_reverts (actions : list action) :
  copyStatus (foldl perform initial actions) <> idle ->
  exists rest, pendingResets (foldl perform initial actions) = 2000%Z :: rest.
Proof.
  enough (H : (copyStatus (foldl perform initial actions) <> idle ->
               exists rest, pendingResets (foldl perform initial actions) = 2000%Z :: rest) /\
              Forall (fun delay => delay = 2000%Z)
                     (pendingResets (foldl perform initial actions)))
    by apply H.
  induction actions as [|a actions IH] using rev_ind.
  - cbn. split; [congruence|constructor].
  - rewrite foldl_app. cbn [foldl]. destruct IH as [IH1 IH2].
    now apply perform_keeps_timer.
Qed.

(** X22 after a copy of the SVG, an export and a copy of the PNG, with
    the first timer gone off in between. *)
Lemma X22_copied_mark_reverts_witness :
  exists rest,
    pendingResets (foldl perform initial
                     [CopySVG (Some "<svg/>") true; ExportPNG true true;
                      TimerFires; CopyPNG true true true true]) = 2000%Z :: rest.
Proof.
  apply (X22_copied_mark_reverts
           [CopySVG (Some "<svg/>") true; ExportPNG true true;
            TimerFires; CopyPNG true true true true]).
  discriminate.
Defined.

Lemma snoc_neq {A} (l : list A) (x : A) : (l ++ [x])%list <> l.
Proof.
  intros Heq. apply (f_equal (@length A)) in Heq.
  rewrite length_app in Heq. cbn in Heq. lia.
Qed.

(** X23.  A handler that finds its canvas closes the menu whatever
    happens next, and the user is alerted in two cases only: the
    clipboard refused the SVG text, or the picture for the clipboard
    could not be drawn.  A failed export, and a PNG that was drawn but
    not accepted by the clipboard, raise no alert. *)
Theorem X23_menu_closes_and_alerts (st : state) (a : action) :
  ready a = true ->
  isExportMenuOpen (perform st a) = false /\
  (alerts (perform st a) <> alerts st <->
   (exists s, a = CopySVG (Some s) false) \/
   (exists blob written, a = CopyPNG true false blob written)).
Proof.
  intros Hready.
  destruct a as [s|refs rendered|refs rendered fit|s written
                |refs rendered blob written| | |]; cbn [ready] in Hready;
    try discriminate Hready; cbn [perform].
  - destruct s as [s|]; [|discriminate]. cbn. split; [reflexivity|].
    split; [congruence|]. intros [[? H]|(? & ? & H)]; discriminate H.
  - subst refs. unfold handleExportPNG. cbn [negb].
    split; [reflexivity|]. destruct rendered; cbn.
    + split; [congruence|]. intros [[? H]|(? & ? & H)]; discriminate H.
    + split; [congruence|]. intros [[? H]|(? & ? & H)]; discriminate H.
  - subst refs. unfold handleExportPDF. cbn [negb].
    split; [reflexivity|]. destruct rendered; cbn.
    + split; [congruence|]. intros [[? H]|(? & ? & H)]; discriminate H.
    + split; [congruence|]. intros [[? H]|(? & ? & H)]; discriminate H.
  - destruct s as [s|]; [|discriminate]. unfold handleCopySVG.
    split; [reflexivity|]. destruct written; cbn.
    + split; [congruence|]. intros [[? H]|(? & ? & H)]; discriminate H.
    + split; [eauto|]. intros _. apply snoc_neq.
  - subst refs. unfold handleCopyPNG. cbn [negb].
    destruct rendered.
    + split; [now destruct (blob && written)|].
      split.
      * destruct (blob && written); cbn; congruence.
      * intros [[? H]|(? & ? & H)]; discriminate H.
    + cbn. split; [reflexivity|]. split; [eauto|]. intros _. apply snoc_neq.
Qed.

(** X23 on a PNG that was drawn but refused by the clipboard. *)
Lemma X23_menu_closes_and_alerts_witness :
  isExportMenuOpen (perform (toggleMenu initial) (CopyPNG true true true false)) = false /\
  (alerts (perform (toggleMenu initial) (CopyPNG true true true false))
     <> alerts (toggleMenu initial) <->
   (exists s, CopyPNG true true true false = CopySVG (Some s) false) \/
   (exists blob written,
      CopyPNG true true true false = CopyPNG true false blob written)).
Proof.
  apply (X23_menu_closes_and_alerts (toggleMenu initial) (CopyPNG true true true false)).
  reflexivity.
Defined.

End MenuMore.

Module TooltipMore.

Import Tooltip.

Lemma run_snoc (events : list event) (e : event) :
  run (events ++ [e]) = step (run events) e.
Proof. unfold run. now rewrite foldl_app. Qed.

Lemma step_quiet (st : TooltipState) (e : event) :
  quiet e = true ->
  visible (step st e) = visible st /\ content (step st e) = content st.
Proof.
  destruct e as [[text|] x y|x y|]; cbn [quiet step]; intros Hq;
    try discriminate; try (now split).
  rewrite Hq. now split.
Qed.

Lemma step_shows (st : TooltipState) (e : event) (text : string) :
  shows text e -> text <> "" ->
  visible (step st e) = true /\ content (step st e) = text.
Proof.
  intros (x & y & ->) Htext. cbn [step].
  apply String.eqb_neq in Htext. rewrite Htext. now split.
Qed.

Lemma shows_not_quiet (e : event) (text : string) :
  shows text e -> text <> "" -> quiet e = false.
Proof.
  intros (x & y & ->) Htext. cbn [quiet]. now apply String.eqb_neq.
Qed.

Lemma event_cases (e : event) :
  quiet e = true \/ e = MouseOut \/ exists text, shows text e /\ text <> "".
Proof.
  destruct e as [[text|] x y|x y|]; cbn [quiet]; auto.
  destruct (String.eqb text "") eqn:Htext; [now left|].
  right. right. exists text. split; [now exists x, y|now apply String.eqb_neq].
Qed.

(** Where the last event of a list sits in a decomposition of it. *)
Lemma snoc_split {A} (l before after : list A) (x e : A) :
  (l ++ [x])%list = (before ++ e :: after)%list ->
  (after = [] /\ before = l /\ e = x) \/
  (exists after', after = (after' ++ [x])%list /\ l = (before ++ e :: after')%list).
Proof.
  intros Heq. destruct after as [|y after _] using rev_ind.
  - left. apply app_inj_tail in Heq as [-> ->]. auto.
  - right. exists after.
    change (before ++ e :: after ++ [y])%list
      with (before ++ (e :: after) ++ [y])%list in Heq.
    rewrite app_assoc in Heq.
    apply app_inj_tail in Heq as [-> ->]. auto.
Qed.

(** X24.  Whatever the pointer does, the tooltip is visible with a given
    content exactly when the last event that was not a move or the entry
    of a node without description was the entry of a node with that
    description, and the description is not empty.  So a visible tooltip
    is never empty, it shows the description of the last described node
    the pointer entered, a mouseout hides it, and entering a node
    without description changes neither its visibility nor its text. *)
Theorem X24_tooltip_shows_a_description (events : list event) (text : string) :
  visible (run events) = true /\ content (run events) = text <->
  exists before e after,
    events = (before ++ e :: after)%list /\
    shows text e /\ text <> "" /\
    Forall (fun later => quiet later = true) after.
Proof.
  induction events as [|x events [IH1 IH2]] using rev_ind.
  - split.
    + intros [Hv _]. discriminate Hv.
    + intros (before & e & after & Heq & _). now destruct before.
  - rewrite run_snoc.
    destruct (event_cases x) as [Hq|[->|(t & Hshows & Ht)]].
    + destruct (step_quiet (run events) x Hq) as [-> ->]. split.
      * intros Hvc. destruct (IH1 Hvc) as (before & e & after & -> & Hs & Hne & Hall).
        exists before, e, (after ++ [x])%list.
        split; [now rewrite <- app_assoc|].
        split; [exact Hs|]. split; [exact Hne|].
        apply Forall_app. split; [exact Hall|now constructor].
      * intros (before & e & after & Heq & Hs & Hne & Hall).
        apply snoc_split in Heq as [(-> & -> & ->)|(after' & -> & ->)].
        -- rewrite (shows_not_quiet _ _ Hs Hne) in Hq. discriminate Hq.
        -- apply IH2. exists before, e, after'.
           apply Forall_app in Hall as [Hall _]. auto.
    + cbn [step visible]. split.
      * intros [Hv _]. discriminate Hv.
      * intros (before & e & after & Heq & Hs & Hne & Hall).
        apply snoc_split in Heq as [(-> & -> & ->)|(after' & -> & ->)].
        -- destruct Hs as (? & ? & Hs). discriminate Hs.
        -- apply Forall_app in Hall as [_ Hall].
           inversion Hall as [|? ? Hq _]. discriminate Hq.
    + destruct (step_shows (run events) x t Hshows Ht) as [-> ->]. split.
      * intros [_ <-]. exists events, x, []. auto.
      * intros (before & e & after & Heq & Hs & Hne & Hall).
        apply snoc_split in Heq as [(-> & -> & ->)|(after' & -> & ->)].
        -- destruct Hs as (? & ? & ->). destruct Hshows as (? & ? & Heq).
           injection Heq as <- _ _. auto.
        -- apply Forall_app in Hall as [_ Hall].
           inversion Hall as [|? ? Hq _].
           rewrite (shows_not_quiet _ _ Hshows Ht) in Hq. discriminate Hq.
Qed.

(** X24 on a pointer that enters a described node, moves, and then enters
    a node without description: the first description stays on. *)
Lemma X24_tooltip_shows_a_description_witness :
  visible (run [MouseOver None 10 10; MouseOut;
                MouseOver (Some "Opens the door") 30 40; MouseMove 31 41;
                MouseOver None 50 60]) = true /\
  content (run [MouseOver None 10 10; MouseOut;
                MouseOver (Some "Opens the door") 30 40; MouseMove 31 41;
                MouseOver None 50 60]) = "Opens the door".
Proof.
  apply (X24_tooltip_shows_a_description
           [MouseOver None 10 10; MouseOut;
            MouseOver (Some "Opens the door") 30 40; MouseMove 31 41;
            MouseOver None 50 60] "Opens the door").
  exists [MouseOver None 10 10; MouseOut], (MouseOver (Some "Opens the door") 30 40),
         [MouseMove 31 41; MouseOver None 50 60].
  split; [reflexivity|]. split; [now eexists _, _|].
  split; [discriminate|]. repeat constructor.
Defined.

End TooltipMore.
